(** * Keystroke dynamics: event pairing, aggregation and roll-up

    A shallow embedding of [analysis/keystroke_stress_analysis.py]
    (CHUNK 1: input checks, [_agg_row], [compute_keystroke_metrics] and
    [compute_keystroke_metrics_by_field]) together with the properties
    the specification states about it.

    Conventions of the embedding.
    - Strings are Rocq strings, read as the UTF-8 bytes of the Python
      [str]; the byte-wise lexicographic order is then the code-point
      order Python sorts by.
    - Timestamps are integers ([Z]): [pressed_at] counts nanoseconds, as
      the [int64] view of a pandas [datetime64[ns]] column does, and
      [pressed_at_ms] is its floor division by [10**6].
    - A floating-point cell of a row is kept by the exact value of the
      expression that computes it, a rational ([Q]); [NaN] is [None].
      A standard deviation is the square root of a rational and is kept
      exactly, by its radicand (see [Surd]).
    - The binary64 values of the [duration_sec] and [cpm] cells, where
      the rounding of the two divisions shows, are computed apart, by
      [duration_sec_cell] and [cpm_cell], with the IEEE 754 operations
      of [SpecFloat]. *)

From Stdlib Require Import ZArith QArith List String Ascii Bool Lia.
From Stdlib Require Import Permutation Reals Qreals Psatz SpecFloat.
Import ListNotations.

Open Scope string_scope.
Open Scope list_scope.
Open Scope Z_scope.

(** ** Data model *)

(** One row of the keystrokes table, after the column names have been
    normalised and [pressed_at] has been parsed.  [field_name] is [None]
    for a missing cell (NaN); the cells of the other columns are taken
    to be present. *)
Record KeyEvent := mkEvent {
  session_id : string;
  test_type  : string;
  field_name : option string;
  event_type : string;
  key        : string;
  pressed_at : Z
}.

(** [df['pressed_at'].astype(np.int64) // 10**6] *)
Definition pressed_at_ms (e : KeyEvent) : Z := pressed_at e / 10 ^ 6.

(** [evts[i] == 'keydown'] and [evts[i] == 'keyup'] *)
Definition is_keydown (e : KeyEvent) : bool := (event_type e =? "keydown")%string.
Definition is_keyup (e : KeyEvent) : bool := (event_type e =? "keyup")%string.

(** ** Event pairer *)

(** The key-hold loops and the interval loop are written out three times
    in the source, for the per-test groups, for the whole session and for
    the per-field groups; the three copies are the same code and are
    embedded once, as [khd_scan] and [iki_scan]. *)

(** The inner [while j < len(grp)] loop of the key-hold scan, started at
    [j = i + 1]: [rest] is the part of the group after the keydown
    [(k, t_down)].  The result is what the loop appends to
    [key_list] / [khd_list]. *)
Fixpoint khd_inner (k : string) (t_down : Z) (rest : list KeyEvent)
  : list (string * Z) :=
  match rest with
  | [] => []
  | e :: rest' =>
      if is_keyup e && (key e =? k)%string then
        let khd_ms := pressed_at_ms e - t_down in
        if (0 <? khd_ms) && (khd_ms <? 2000) then [(k, khd_ms)] else []
      else if is_keydown e && (key e =? k)%string then []
      else khd_inner k t_down rest'
  end.

(** The outer [while i < len(grp) - 1] loop: the last event of the group
    is never taken as a keydown. *)
Fixpoint khd_scan (grp : list KeyEvent) : list (string * Z) :=
  match grp with
  | [] => []
  | e :: rest =>
      match rest with
      | [] => []
      | _ :: _ =>
          (if is_keydown e
           then khd_inner (key e) (pressed_at_ms e) rest
           else [])
          ++ khd_scan rest
      end
  end.

(** The inter-key-interval loop [for i in range(len(grp))], with the
    variable [last_keyup_time] as an explicit state. *)
Fixpoint iki_scan (last_keyup_time : option Z) (grp : list KeyEvent)
  : list Z :=
  match grp with
  | [] => []
  | e :: rest =>
      if is_keyup e then iki_scan (Some (pressed_at_ms e)) rest
      else if is_keydown e then
        match last_keyup_time with
        | Some t =>
            let iki_ms := pressed_at_ms e - t in
            (if (0 <? iki_ms) && (iki_ms <? 5000) then [iki_ms] else [])
            ++ iki_scan None rest
        | None => iki_scan None rest
        end
      else iki_scan last_keyup_time rest
  end.

(** ** The pairing contract in the specification's words *)

(** An event that ends the forward scan for a keydown of key [k]: a
    keyup or another keydown of the same key. *)
Definition same_key_event (k : string) (e : KeyEvent) : bool :=
  (key e =? k)%string && (is_keyup e || is_keydown e).

(** No event of [mid] ends the scan for [k]. *)
Definition no_event_of_key (k : string) (mid : list KeyEvent) : bool :=
  forallb (fun e => negb (same_key_event k e)) mid.

(** "Scan forward for the first event that is either a keyup of the same
    key (emit the duration when it lies in (0, 2000)) or another keydown
    of the same key (emit nothing)". *)
Definition hold_sample (d : KeyEvent) (post : list KeyEvent)
  : list (string * Z) :=
  match find (same_key_event (key d)) post with
  | Some u =>
      let dur := pressed_at_ms u - pressed_at_ms d in
      if is_keyup u && (0 <? dur) && (dur <? 2000) then [(key d, dur)] else []
  | None => []
  end.

(** Neither a keyup nor a keydown occurs in [mid]. *)
Definition no_press_or_release (mid : list KeyEvent) : bool :=
  forallb (fun e => negb (is_keyup e || is_keydown e)) mid.

(** ** Numeric cells *)

(** The non-negative real [sqrt q] of a rational [q >= 0], kept by its
    radicand: two such values are equal exactly when their radicands
    are. *)
Record Surd := SqrtOf { radicand : Q }.

(** The real number a [Surd] stands for. *)
Definition surd_value (s : Surd) : R := sqrt (Q2R (radicand s)).

(** [sqrt q / m], for [m > 0], is [sqrt (q / m^2)]. *)
Definition surd_div (s : Surd) (m : Q) : Surd :=
  SqrtOf (radicand s / (m * m)).

Definition Qltb (x y : Q) : bool := negb (Qle_bool y x).

(** [(mask).sum()] of a boolean mask. *)
Definition mask_sum (m : list bool) : Z :=
  fold_right (fun (b : bool) n => (if b then 1 else 0) + n) 0 m.

Definition zsum (l : list Z) : Z := fold_right Z.add 0 l.

(** [times.min()] and [times.max()]; numpy raises on an empty array, which
    is [None] here. *)
Definition arr_min (a : list Z) : option Z :=
  match a with
  | [] => None
  | t :: ts => Some (fold_left Z.min ts t)
  end.

Definition arr_max (a : list Z) : option Z :=
  match a with
  | [] => None
  | t :: ts => Some (fold_left Z.max ts t)
  end.

(** [times.max() - times.min() if len(times) >= 2 else 0] *)
Definition duration_ms_of (times : list Z) : Z :=
  if (2 <=? List.length times)%nat then
    match arr_max times, arr_min times with
    | Some hi, Some lo => hi - lo
    | _, _ => 0
    end
  else 0.

(** [s.mean()] of a non-empty integer series. *)
Definition mean (s : list Z) : Q :=
  inject_Z (zsum s) / inject_Z (Z.of_nat (List.length s)).

(** Sum of the squared deviations from the mean. *)
Definition sum_sq_dev (s : list Z) : Q :=
  fold_right (fun x acc => (inject_Z x - mean s) * (inject_Z x - mean s) + acc)%Q
             0%Q s.

(** Standard deviation with [ddof] delta degrees of freedom: the square
    root of [sum_sq_dev / (n - ddof)], NaN when [n - ddof <= 0]. *)
Definition std_ddof (ddof : Z) (s : list Z) : option Surd :=
  let n := Z.of_nat (List.length s) in
  if n - ddof <=? 0 then None
  else Some (SqrtOf (sum_sq_dev s / inject_Z (n - ddof))).

(** pandas [Series.std()] has [ddof = 1]. *)
Definition pandas_std (s : list Z) : option Surd := std_ddof 1 s.

(** [np.std(a)] and [ndarray.std()] have [ddof = 0]. *)
Definition numpy_std (s : list Z) : option Surd := std_ddof 0 s.

(** [len(s)] used as a truth value. *)
Definition nonempty {A : Type} (s : list A) : bool :=
  match s with [] => false | _ :: _ => true end.

(** ** Aggregator *)

(** A row of the metrics table or of the per-field table; the two
    columns of the per-field table alone are [None] in the former. *)
Record MetricsRow := mkRow {
  row_session_id       : string;
  row_test_type        : string;
  row_field_name       : option string;
  n_events             : Z;
  n_keydowns           : Z;
  duration_sec         : Q;
  mean_khd_ms          : option Q;
  sd_khd_ms            : option Surd;
  cv_khd               : option Surd;
  mean_iki_ms          : option Q;
  sd_iki_ms            : option Surd;
  cv_iki               : option Surd;
  pause_count_200ms    : Z;
  pause_count_500ms    : Z;
  backspace_count      : Z;
  backspace_rate       : Q;
  cpm                  : option Q;
  first_key_latency_ms : option Z
}.

(** [(grp['event_type'] == 'keydown').sum()] *)
Definition count_keydowns (grp : list KeyEvent) : Z :=
  mask_sum (map is_keydown grp).

(** [((grp['event_type'] == 'keydown') & (grp['key'] == 'Backspace')).sum()] *)
Definition count_backspace (grp : list KeyEvent) : Z :=
  mask_sum (map (fun e => is_keydown e && (key e =? "Backspace")%string) grp).

(** [(iki > ms).sum() if len(iki) else 0] *)
Definition pause_count (ms : Z) (iki : list Z) : Z :=
  if nonempty iki then mask_sum (map (fun x => ms <? x) iki) else 0.

(** [n_backspace / n_keydowns if n_keydowns else 0] *)
Definition backspace_rate_of (n_backspace n_keydowns : Z) : Q :=
  if n_keydowns =? 0 then 0%Q
  else (inject_Z n_backspace / inject_Z n_keydowns)%Q.

(** [(n_keydowns - n_backspace) / (duration_ms / 60000)
     if duration_ms > 0 else np.nan] *)
Definition cpm_of (n_keydowns n_backspace duration_ms : Z) : option Q :=
  if 0 <? duration_ms then
    Some (inject_Z (n_keydowns - n_backspace)
          / (inject_Z duration_ms / inject_Z 60000))%Q
  else None.

(** [s.mean() if len(s) else np.nan] *)
Definition mean_cell (s : list Z) : option Q :=
  if nonempty s then Some (mean s) else None.

(** [std(s) if len(s) else np.nan] *)
Definition sd_cell (std : list Z -> option Surd) (s : list Z) : option Surd :=
  if nonempty s then std s else None.

(** [std(s) / s.mean() if len(s) and s.mean() > 0 else np.nan]; a NaN
    standard deviation gives a NaN quotient. *)
Definition cv_cell (std : list Z -> option Surd) (s : list Z) : option Surd :=
  if nonempty s && Qltb 0 (mean s) then
    match std s with
    | Some sd => Some (surd_div sd (mean s))
    | None => None
    end
  else None.

(** [_agg_row(sid, tt, grp, khd_s, iki_s)] *)
Definition _agg_row (sid tt : string) (grp : list KeyEvent)
                    (khd_s iki_s : list Z) : MetricsRow :=
  let times := map pressed_at_ms grp in
  let duration_ms := duration_ms_of times in
  let n_events := Z.of_nat (List.length grp) in
  let n_keydowns := count_keydowns grp in
  let n_backspace := count_backspace grp in
  let pause_200 := pause_count 200 iki_s in
  let pause_500 := pause_count 500 iki_s in
  {| row_session_id := sid;
     row_test_type := tt;
     row_field_name := None;
     n_events := n_events;
     n_keydowns := n_keydowns;
     duration_sec := (inject_Z duration_ms / 1000)%Q;
     mean_khd_ms := mean_cell khd_s;
     sd_khd_ms := sd_cell pandas_std khd_s;
     cv_khd := cv_cell pandas_std khd_s;
     mean_iki_ms := mean_cell iki_s;
     sd_iki_ms := sd_cell pandas_std iki_s;
     cv_iki := cv_cell pandas_std iki_s;
     pause_count_200ms := pause_200;
     pause_count_500ms := pause_500;
     backspace_count := n_backspace;
     backspace_rate := backspace_rate_of n_backspace n_keydowns;
     cpm := cpm_of n_keydowns n_backspace duration_ms;
     first_key_latency_ms := None |}.

(** The row built in the body of the per-field loop, from
    [duration_ms = ...] to the [row] dictionary: the same cells as
    [_agg_row], computed with numpy on [khd_vals] and [iki_arr]. *)
Definition field_row (sid tt field : string) (grp : list KeyEvent)
                     (khd_vals iki_vals : list Z)
                     (first_key_latency : Z) : MetricsRow :=
  let times := map pressed_at_ms grp in
  let duration_ms := duration_ms_of times in
  let n_events := Z.of_nat (List.length grp) in
  let n_keydowns := count_keydowns grp in
  let n_backspace := count_backspace grp in
  let pause_200 := pause_count 200 iki_vals in
  let pause_500 := pause_count 500 iki_vals in
  {| row_session_id := sid;
     row_test_type := tt;
     row_field_name := Some field;
     n_events := n_events;
     n_keydowns := n_keydowns;
     duration_sec := (inject_Z duration_ms / 1000)%Q;
     mean_khd_ms := mean_cell khd_vals;
     sd_khd_ms := sd_cell numpy_std khd_vals;
     cv_khd := cv_cell numpy_std khd_vals;
     mean_iki_ms := mean_cell iki_vals;
     sd_iki_ms := sd_cell numpy_std iki_vals;
     cv_iki := cv_cell numpy_std iki_vals;
     pause_count_200ms := pause_200;
     pause_count_500ms := pause_500;
     backspace_count := n_backspace;
     backspace_rate := backspace_rate_of n_backspace n_keydowns;
     cpm := cpm_of n_keydowns n_backspace duration_ms;
     first_key_latency_ms := Some first_key_latency |}.

(** ** The float cells in binary64 *)








(** ** [str.strip()] *)

(** Python strips the characters for which [str.isspace] holds: U+0009
    to U+000D, U+001C to U+0020, U+0085, U+00A0, U+1680, U+2000 to
    U+200A, U+2028, U+2029, U+202F, U+205F and U+3000.  On the UTF-8
    bytes these are the one-, two- and three-byte sequences below. *)
Definition ws1 (c : ascii) : bool :=
  let n := N_of_ascii c in
  ((9 <=? n) && (n <=? 13) || (28 <=? n) && (n <=? 32))%N.

Definition ws2 (c1 c2 : ascii) : bool :=
  let a := N_of_ascii c1 in
  let b := N_of_ascii c2 in
  ((a =? 194) && ((b =? 133) || (b =? 160)))%N.

Definition ws3 (c1 c2 c3 : ascii) : bool :=
  let a := N_of_ascii c1 in
  let b := N_of_ascii c2 in
  let c := N_of_ascii c3 in
  ((a =? 225) && (b =? 154) && (c =? 128)
   || (a =? 226) && (b =? 128)
      && ((128 <=? c) && (c <=? 138) || (c =? 168) || (c =? 169) || (c =? 175))
   || (a =? 226) && (b =? 129) && (c =? 159)
   || (a =? 227) && (b =? 128) && (c =? 128))%N.

(** Drop the whitespace characters at the front of a byte sequence. *)
Fixpoint lstrip_bytes (s : list ascii) : list ascii :=
  match s with
  | [] => []
  | c1 :: r1 =>
      if ws1 c1 then lstrip_bytes r1
      else
        match r1 with
        | [] => s
        | c2 :: r2 =>
            if ws2 c1 c2 then lstrip_bytes r2
            else
              match r2 with
              | [] => s
              | c3 :: r3 => if ws3 c1 c2 c3 then lstrip_bytes r3 else s
              end
        end
  end.

(** The same on a reversed byte sequence, where the bytes of each
    character come last byte first. *)
Fixpoint lstrip_rev_bytes (s : list ascii) : list ascii :=
  match s with
  | [] => []
  | c1 :: r1 =>
      if ws1 c1 then lstrip_rev_bytes r1
      else
        match r1 with
        | [] => s
        | c2 :: r2 =>
            if ws2 c2 c1 then lstrip_rev_bytes r2
            else
              match r2 with
              | [] => s
              | c3 :: r3 => if ws3 c3 c2 c1 then lstrip_rev_bytes r3 else s
              end
        end
  end.

(** [s.strip()] *)
Definition strip (s : string) : string :=
  string_of_list_ascii
    (rev (lstrip_rev_bytes (rev (lstrip_bytes (list_ascii_of_string s))))).

(** ** What [strip] removes *)

(** A byte sequence made of whitespace characters only. *)
Inductive whitespace_bytes : list ascii -> Prop :=
| whitespace_nil : whitespace_bytes []
| whitespace_1 c l :
    ws1 c = true -> whitespace_bytes l -> whitespace_bytes (c :: l)
| whitespace_2 c1 c2 l :
    ws2 c1 c2 = true -> whitespace_bytes l ->
    whitespace_bytes (c1 :: c2 :: l)
| whitespace_3 c1 c2 c3 l :
    ws3 c1 c2 c3 = true -> whitespace_bytes l ->
    whitespace_bytes (c1 :: c2 :: c3 :: l).

(** Whether a byte sequence begins with a whitespace character, and
    whether a reversed one does. *)
Definition starts_with_whitespace (l : list ascii) : bool :=
  match l with
  | [] => false
  | c1 :: r1 =>
      ws1 c1
      || match r1 with
         | [] => false
         | c2 :: r2 =>
             ws2 c1 c2
             || match r2 with
                | [] => false
                | c3 :: _ => ws3 c1 c2 c3
                end
         end
  end.

Definition starts_with_whitespace_rev (l : list ascii) : bool :=
  match l with
  | [] => false
  | c1 :: r1 =>
      ws1 c1
      || match r1 with
         | [] => false
         | c2 :: r2 =>
             ws2 c2 c1
             || match r2 with
                | [] => false
                | c3 :: _ => ws3 c3 c2 c1
                end
         end
  end.

(** Whether a byte sequence ends with a whitespace character. *)
Definition ends_with_whitespace (l : list ascii) : bool :=
  starts_with_whitespace_rev (rev l).

(** ** Grouping *)

(** The distinct elements of a list in order of first appearance
    ([Series.unique()]). *)
Fixpoint unique {A : Type} (eqb : A -> A -> bool) (l : list A) : list A :=
  match l with
  | [] => []
  | x :: r => x :: filter (fun y => negb (eqb y x)) (unique eqb r)
  end.

Fixpoint insert_by {A : Type} (leb : A -> A -> bool) (x : A) (l : list A)
  : list A :=
  match l with
  | [] => [x]
  | y :: r => if leb x y then x :: l else y :: insert_by leb x r
  end.

(** Insertion sort; on ties the earlier element stays first. *)
Fixpoint isort_by {A : Type} (leb : A -> A -> bool) (l : list A) : list A :=
  match l with
  | [] => []
  | x :: r => insert_by leb x (isort_by leb r)
  end.

(** Group keys: [(session_id, test_type)] and
    [(session_id, test_type, field_name)], ordered as Python orders
    tuples of strings. *)
Definition key2 : Type := string * string.
Definition key3 : Type := string * string * string.

Definition key2_eqb (a b : key2) : bool :=
  (fst a =? fst b)%string && (snd a =? snd b)%string.

Definition key2_leb (a b : key2) : bool :=
  match String.compare (fst a) (fst b) with
  | Lt => true
  | Gt => false
  | Eq => String.leb (snd a) (snd b)
  end.

Definition key3_eqb (a b : key3) : bool :=
  key2_eqb (fst a) (fst b) && (snd a =? snd b)%string.

Definition key3_leb (a b : key3) : bool :=
  if key2_eqb (fst a) (fst b) then String.leb (snd a) (snd b)
  else key2_leb (fst a) (fst b).

(** [df.groupby(cols)] with the defaults [sort=True] and [dropna=True]:
    the groups come in ascending key order, each group holds the rows of
    that key in the order of [df], and a row with a missing key cell
    ([keyf] is [None]) is in no group. *)
Definition groupby {K : Type} (eqb leb : K -> K -> bool)
    (keyf : KeyEvent -> option K) (df : list KeyEvent)
  : list (K * list KeyEvent) :=
  let present := flat_map (fun e => match keyf e with
                                    | Some k => [k]
                                    | None => []
                                    end) df in
  map (fun k =>
         (k, filter (fun e => match keyf e with
                              | Some k' => eqb k' k
                              | None => false
                              end) df))
      (isort_by leb (unique eqb present)).

Definition session_test (e : KeyEvent) : option key2 :=
  Some (session_id e, test_type e).

Definition session_test_field (e : KeyEvent) : option key3 :=
  match field_name e with
  | Some f => Some (session_id e, test_type e, f)
  | None => None
  end.

(** [df.groupby(['session_id', 'test_type'])] *)
Definition groupby_session_test (df : list KeyEvent)
  : list (key2 * list KeyEvent) :=
  groupby key2_eqb key2_leb session_test df.

(** [df.groupby(['session_id', 'test_type', 'field_name'])] *)
Definition groupby_session_test_field (df : list KeyEvent)
  : list (key3 * list KeyEvent) :=
  groupby key3_eqb key3_leb session_test_field df.

(** [dict.get(k, default)] on a dictionary given by its items. *)
Fixpoint dict_get (d : list (key2 * Z)) (k : key2) (default : Z) : Z :=
  match d with
  | [] => default
  | (k', v) :: r => if key2_eqb k' k then v else dict_get r k default
  end.

(** ** Roll-up *)

Section Rollup.

(** [df.sort_values(cols)] with the default [kind='quicksort']: the
    rows of [df] in ascending order of the listed columns, rows that
    tie in an order pandas does not fix.  The properties below need
    only that sorting rearranges the rows. *)
Variable sort_values : list string -> list KeyEvent -> list KeyEvent.

(** [grp.sort_values('pressed_at').reset_index(drop=True)] *)
Definition sorted_group (grp : list KeyEvent) : list KeyEvent :=
  sort_values ["pressed_at"] grp.

(** [compute_keystroke_metrics(df)] *)
Definition compute_keystroke_metrics (df : list KeyEvent)
  : list MetricsRow :=
  let df := sort_values ["session_id"; "test_type"; "pressed_at"] df in
  let groups := groupby_session_test df in
  (* khd_list, session_test and key_list, as rows of khd_df *)
  let khd_df :=
    flat_map (fun g : key2 * list KeyEvent =>
                let (k, grp) := g in
                map (fun s : string * Z => (k, snd s, fst s))
                    (khd_scan (sorted_group grp)))
             groups in
  (* iki_list, as rows of iki_df *)
  let iki_df :=
    flat_map (fun g : key2 * list KeyEvent =>
                let (k, grp) := g in
                map (fun iki_ms : Z => (k, iki_ms))
                    (iki_scan None (sorted_group grp)))
             groups in
  (* per test type *)
  let agg_test :=
    map (fun g : key2 * list KeyEvent =>
           let (k, grp) := g in
           let khd_s :=
             map (fun r : key2 * Z * string => snd (fst r))
                 (filter (fun r : key2 * Z * string =>
                            (fst (fst (fst r)) =? fst k)%string
                            && (snd (fst (fst r)) =? snd k)%string)
                         khd_df) in
           let iki_s :=
             map (fun r : key2 * Z => snd r)
                 (filter (fun r : key2 * Z =>
                            (fst (fst r) =? fst k)%string
                            && (snd (fst r) =? snd k)%string)
                         iki_df) in
           _agg_row (fst k) (snd k) grp khd_s iki_s)
        groups in
  (* overall per session_id *)
  let agg_overall :=
    map (fun sid : string =>
           let grp_all :=
             sorted_group
               (filter (fun e => (session_id e =? sid)%string) df) in
           let khd_overall := map snd (khd_scan grp_all) in
           let iki_overall := iki_scan None grp_all in
           _agg_row sid "overall" grp_all khd_overall iki_overall)
        (unique String.eqb (map session_id df)) in
  agg_test ++ agg_overall.

(** [df.groupby(['session_id', 'test_type'])['pressed_at_ms'].min().to_dict()] *)
Definition test_start_ms (df : list KeyEvent) : list (key2 * Z) :=
  flat_map (fun g : key2 * list KeyEvent =>
              match arr_min (map pressed_at_ms (snd g)) with
              | Some t => [(fst g, t)]
              | None => []
              end)
           (groupby_session_test df).

(** [compute_keystroke_metrics_by_field(df)].  A table without a
    [field_name] column is a table whose [field_name] cells are all
    missing: both give the empty result.  The test [pd.isna(field)]
    never fires, since [groupby] has dropped the missing keys. *)
Definition compute_keystroke_metrics_by_field (df : list KeyEvent)
  : list MetricsRow :=
  let starts := test_start_ms df in
  flat_map
    (fun g : key3 * list KeyEvent =>
       let sid := fst (fst (fst g)) in
       let tt := snd (fst (fst g)) in
       let field := snd (fst g) in
       let grp := snd g in
       if (strip field =? "")%string then []
       else
         let grp := sorted_group grp in
         let times := map pressed_at_ms grp in
         match arr_min times with
         | None => []                     (* len(grp) == 0 *)
         | Some times_min =>
             let khd_vals := map snd (khd_scan grp) in
             let iki_vals := iki_scan None grp in
             let test_start := dict_get starts (sid, tt) times_min in
             let first_key_latency := times_min - test_start in
             [field_row sid tt field grp khd_vals iki_vals
                        first_key_latency]
         end)
    (groupby_session_test_field df).

End Rollup.

(** A stable sort by the listed columns, one admissible behaviour of
    [sort_values]. *)
Definition column_compare (col : string) (a b : KeyEvent) : comparison :=
  if (col =? "session_id")%string then
    String.compare (session_id a) (session_id b)
  else if (col =? "test_type")%string then
    String.compare (test_type a) (test_type b)
  else if (col =? "pressed_at")%string then
    Z.compare (pressed_at a) (pressed_at b)
  else Eq.

Fixpoint columns_leb (cols : list string) (a b : KeyEvent) : bool :=
  match cols with
  | [] => true
  | c :: r =>
      match column_compare c a b with
      | Lt => true
      | Gt => false
      | Eq => columns_leb r a b
      end
  end.

Definition stable_sort_values (cols : list string) (df : list KeyEvent)
  : list KeyEvent :=
  isort_by (columns_leb cols) df.

(** ** Input checks of CHUNK 1 *)

(** The ways the loading code stops: [keystrokes[ts_col]] on a column
    that does not exist, [pd.to_datetime] on a cell it cannot parse, and
    the explicit [raise ValueError]. *)
Inductive PyError :=
| KeyError (name : string)
| DateParseError
| ValueError (msg : string).

(** [col in keystrokes.columns], on the normalised column names. *)
Definition has_column (columns : list string) (col : string) : bool :=
  existsb (String.eqb col) columns.

(** ["pressed_at" if "pressed_at" in keystrokes.columns else "timestamp"] *)
Definition ts_col (columns : list string) : string :=
  if has_column columns "pressed_at" then "pressed_at" else "timestamp".

(** The columns the loop over [["session_id", "test_type", "event_type",
    "key"]] looks for. *)
Definition checked_columns : list string :=
  ["session_id"; "test_type"; "event_type"; "key"].

(** The columns the specification calls required. *)
Definition required_columns : list string :=
  ["session_id"; "test_type"; "event_type"; "key"; "pressed_at"].

Definition missing_column_message (col : string) : string :=
  ("keystrokes must have column '" ++ col ++ "'")%string.

(** The [for col in [...]: if col not in keystrokes.columns: raise] loop. *)
Fixpoint check_columns (cols columns : list string) : option PyError :=
  match cols with
  | [] => None
  | col :: r =>
      if negb (has_column columns col)
      then Some (ValueError (missing_column_message col))
      else check_columns r columns
  end.

(** Lines 38 to 44.  [parses c] tells whether [pd.to_datetime] accepts
    every cell of column [c]. *)
Definition load_checks (columns : list string) (parses : string -> bool)
  : option PyError :=
  let c := ts_col columns in
  if negb (has_column columns c) then Some (KeyError c)
  else if negb (parses c) then Some DateParseError
  else check_columns checked_columns columns.

(** CHUNK 1 as a whole: the checks, then the two metric tables. *)
Definition chunk1 (sort_values : list string -> list KeyEvent -> list KeyEvent)
    (columns : list string) (parses : string -> bool) (df : list KeyEvent)
  : PyError + list MetricsRow * list MetricsRow :=
  match load_checks columns parses with
  | Some err => inl err
  | None => inr (compute_keystroke_metrics sort_values df,
                 compute_keystroke_metrics_by_field sort_values df)
  end.

(** ** Sample data *)

(** An event of session [s1], test [free], at [ms] milliseconds. *)
Definition ev (field : option string) (etype k : string) (ms : Z) : KeyEvent :=
  {| session_id := "s1"; test_type := "free"; field_name := field;
     event_type := etype; key := k; pressed_at := ms * 10 ^ 6 |}.

Definition down (k : string) (ms : Z) : KeyEvent := ev None "keydown" k ms.
Definition up (k : string) (ms : Z) : KeyEvent := ev None "keyup" k ms.

(** Scenarios A, B and C of the specification. *)
Definition scenario_A : list KeyEvent := [down "A" 0; up "A" 100].
Definition scenario_B : list KeyEvent := [down "A" 0; up "A" 2500].
Definition scenario_C : list KeyEvent := [down "A" 0; up "A" 50; down "B" 80].

(** Two keys held at once. *)
Definition overlapping_holds : list KeyEvent :=
  [down "A" 0; down "B" 10; up "A" 100; up "B" 120].

(** An auto-repeated key: the second keydown arrives before any keyup. *)
Definition auto_repeat : list KeyEvent :=
  [down "A" 0; down "A" 30; up "A" 100].

(** Scenario F: five keydowns, one of them Backspace, over 60 seconds. *)
Definition scenario_F : list KeyEvent :=
  [down "a" 0; down "b" 15000; down "Backspace" 30000;
   down "c" 45000; down "d" 60000].


(** A table with three fields of one test: [q1], a whitespace-only name
    and a missing name. *)
Definition fields_table : list KeyEvent :=
  [ev None "keydown" "x" 0;
   ev None "keyup" "x" 40;
   ev (Some "q1") "keydown" "a" 500;
   ev (Some "q1") "keyup" "a" 580;
   ev (Some "  ") "keydown" "b" 700;
   ev (Some "  ") "keyup" "b" 790].

(** A table without [pressed_at] but with [timestamp]. *)
Definition timestamp_columns : list string :=
  ["session_id"; "test_type"; "event_type"; "key"; "timestamp"].

(** ** The aggregation contract in the specification's words *)




(** [backspace_count] counts the keydowns of the Backspace key, it never
    exceeds [n_keydowns], and [backspace_rate] is their quotient, 0 when
    there is no keydown. *)
Definition backspace_spec (grp : list KeyEvent) (r : MetricsRow) : Prop :=
  n_keydowns r = Z.of_nat (List.length (filter is_keydown grp))
  /\ backspace_count r
     = Z.of_nat (List.length
                   (filter (fun e => (key e =? "Backspace")%string)
                           (filter is_keydown grp)))
  /\ 0 <= backspace_count r <= n_keydowns r
  /\ (n_keydowns r = 0 -> backspace_rate r = 0%Q)
  /\ (n_keydowns r <> 0 ->
      (backspace_rate r
       == inject_Z (backspace_count r) / inject_Z (n_keydowns r))%Q).

(** The policy for degenerate groups, for a row builder [mk] taking the
    group and its hold and interval samples: a group of fewer than two
    events has duration 0 and no [cpm]; [cpm] is absent whenever no time
    has elapsed; an empty sample set leaves its mean, standard deviation
    and coefficient of variation absent and its pause counts 0; the
    counts of an empty group are 0. *)
Definition degenerate_spec
    (mk : list KeyEvent -> list Z -> list Z -> MetricsRow) : Prop :=
  (forall grp khd iki,
      (List.length grp < 2)%nat ->
      (duration_sec (mk grp khd iki) == 0)%Q /\ cpm (mk grp khd iki) = None)
  /\ (forall grp khd iki,
         (duration_sec (mk grp khd iki) == 0)%Q ->
         cpm (mk grp khd iki) = None)
  /\ (forall grp khd iki,
         n_events (mk grp khd iki) = Z.of_nat (List.length grp))
  /\ (forall grp iki,
         mean_khd_ms (mk grp [] iki) = None
         /\ sd_khd_ms (mk grp [] iki) = None
         /\ cv_khd (mk grp [] iki) = None)
  /\ (forall grp khd,
         mean_iki_ms (mk grp khd []) = None
         /\ sd_iki_ms (mk grp khd []) = None
         /\ cv_iki (mk grp khd []) = None
         /\ pause_count_200ms (mk grp khd []) = 0
         /\ pause_count_500ms (mk grp khd []) = 0)
  /\ (forall khd iki,
         n_events (mk [] khd iki) = 0
         /\ n_keydowns (mk [] khd iki) = 0
         /\ backspace_count (mk [] khd iki) = 0
         /\ backspace_rate (mk [] khd iki) = 0%Q).

(** The row of a group with fewer than two events: duration 0, every
    statistical cell absent, no pause. *)
Definition degenerate_row (r : MetricsRow) : Prop :=
  (duration_sec r == 0)%Q
  /\ cpm r = None
  /\ mean_khd_ms r = None /\ sd_khd_ms r = None /\ cv_khd r = None
  /\ mean_iki_ms r = None /\ sd_iki_ms r = None /\ cv_iki r = None
  /\ pause_count_200ms r = 0 /\ pause_count_500ms r = 0.

(** ** The roll-up contract in the specification's words *)

(** The events of one test, and of one field of it. *)
Definition in_test (sid tt : string) (e : KeyEvent) : bool :=
  (session_id e =? sid)%string && (test_type e =? tt)%string.

Definition in_field (sid tt f : string) (e : KeyEvent) : bool :=
  in_test sid tt e
  && match field_name e with
     | Some f' => (f' =? f)%string
     | None => false
     end.

(** The earliest event time of a set of events. *)
Definition earliest (events : list KeyEvent) : option Z :=
  arr_min (map pressed_at_ms events).

(** The event [e] under another field name, and a table whose field
    names are replaced event by event. *)
Definition with_field_name (field : option string) (e : KeyEvent)
  : KeyEvent :=
  {| session_id := session_id e;
     test_type := test_type e;
     field_name := field;
     event_type := event_type e;
     key := key e;
     pressed_at := pressed_at e |}.

Definition rename_fields (name : KeyEvent -> option string)
                         (events : list KeyEvent) : list KeyEvent :=
  map (fun e => with_field_name (name e) e) events.

(** ** Counting contract of the pairer *)

(** Whether the first keyup or keydown of key [k] in [l] is a keyup. *)
Definition first_is_keyup (k : string) (l : list KeyEvent) : bool :=
  match find (same_key_event k) l with
  | Some u => is_keyup u
  | None => false
  end.

(** The keydowns and the keyups of key [k]. *)
Definition keydowns_of (k : string) (l : list KeyEvent) : list KeyEvent :=
  filter (fun e => is_keydown e && (key e =? k)%string) l.

Definition keyups_of (k : string) (l : list KeyEvent) : list KeyEvent :=
  filter (fun e => is_keyup e && (key e =? k)%string) l.

(** The hold samples of key [k]. *)
Definition samples_of (k : string) (samples : list (string * Z))
  : list (string * Z) :=
  filter (fun s => (fst s =? k)%string) samples.

(** ** Row contract of the two tables *)

(** A row built from the events [grp] of a group and from the samples of
    a time-sorted rearrangement [paired] of it, by [_agg_row] or by the
    per-field loop. *)
Definition row_of_group (df : list KeyEvent) (r : MetricsRow) : Prop :=
  exists grp paired,
    grp <> [] /\ Permutation paired grp
    /\ (forall e, In e grp -> In e df)
    /\ ((exists sid tt,
            r = _agg_row sid tt grp (map snd (khd_scan paired))
                         (iki_scan None paired))
        \/ (exists sid tt field lat,
               r = field_row sid tt field grp (map snd (khd_scan paired))
                             (iki_scan None paired) lat)).

(** The keys a row of the metrics table is joined on, and the key of a
    row of the per-field table. *)
Definition row_key (r : MetricsRow) : key2 :=
  (row_session_id r, row_test_type r).

Definition row_field_key (r : MetricsRow) : key2 * option string :=
  (row_key r, row_field_name r).

(** The per-test rows and the overall rows of session [sid] in the
    metrics table. *)
Definition per_test_rows_of (sid : string) (rows : list MetricsRow)
  : list MetricsRow :=
  filter (fun r => (row_session_id r =? sid)%string
                   && negb (row_test_type r =? "overall")%string) rows.

Definition overall_rows_of (sid : string) (rows : list MetricsRow)
  : list MetricsRow :=
  filter (fun r => (row_session_id r =? sid)%string
                   && (row_test_type r =? "overall")%string) rows.

(** ** CHUNK 2: merge with the stress table *)

Section Merge.

(** A row of [stress_sub]; [stress_key] reads its [session_id] and
    [test_type]. *)
Context {Stress : Type}.
Variable stress_key : Stress -> key2.

(** The rows of [stress_sub] with the keys of the metrics row [r]. *)
Definition stress_matches (stress : list Stress) (r : MetricsRow)
  : list Stress :=
  filter (fun s => key2_eqb (stress_key s) (row_key r)) stress.

(** [metrics_df.merge(stress_sub, on=['session_id', 'test_type'],
    how='left')] on a metrics table with its columns: the metrics rows
    in their order, each once for every stress row with the same keys,
    and once with missing stress cells ([None]) when there is none. *)
Definition merge_left (metrics : list MetricsRow) (stress : list Stress)
  : list (MetricsRow * option Stress) :=
  flat_map (fun r =>
              match stress_matches stress r with
              | [] => [(r, None)]
              | s :: more => map (fun s' => (r, Some s')) (s :: more)
              end)
           metrics.

(** The merge of CHUNK 2.  A metrics table without a row,
    [pd.DataFrame([])], has no column either, and the merge raises
    [KeyError] on the first key; otherwise the result is [merge_left]. *)
Definition chunk2_merged (metrics : list MetricsRow) (stress : list Stress)
  : PyError + list (MetricsRow * option Stress) :=
  match metrics with
  | [] => inl (KeyError "session_id")
  | _ :: _ => inr (merge_left metrics stress)
  end.

(** [merged[merged['test_type'] != 'overall']] *)
Definition merged_per_test (merged : list (MetricsRow * option Stress))
  : list (MetricsRow * option Stress) :=
  filter (fun m => negb (row_test_type (fst m) =? "overall")%string) merged.

End Merge.

(** ** CHUNK 3: correlations *)

Section SafeCorr.

(** The values of a column, [None] for NaN; [pearsonr] stands for
    [scipy.stats.pearsonr] and [nan_pair] for [(np.nan, np.nan)]. *)
Context {V Res : Type}.
Variable pearsonr : list (option V) -> list (option V) -> Res.
Variable nan_pair : Res.

(** [x.isna()] on one cell. *)
Definition isna (c : option V) : bool :=
  match c with Some _ => false | None => true end.

(** [x[mask]]: the cells of [x] where the mask holds. *)
Definition select_mask (x : list (option V)) (mask : list bool)
  : list (option V) :=
  map fst (filter snd (combine x mask)).

(** [safe_corr(x, y)] *)
Definition safe_corr (x y : list (option V)) : Res :=
  let mask := map (fun c => negb (isna (fst c) || isna (snd c)))
                  (combine x y) in
  if mask_sum mask <? 3 then nan_pair
  else pearsonr (select_mask x mask) (select_mask y mask).

(** The rows where both columns have a value. *)
Definition complete_pairs (x y : list (option V)) : list (V * V) :=
  flat_map (fun c => match c with
                     | (Some a, Some b) => [(a, b)]
                     | _ => []
                     end)
           (combine x y).

End SafeCorr.

(** ** CHUNKS 6 and 7: summary statistics *)

(** A numeric cell of a metrics table: an integer count, a rational or
    a standard deviation. *)
Inductive Cell :=
| IntCell (z : Z)
| RatCell (q : Q)
| SurdCell (s : Surd).

(** [row[col]] for the numeric columns of the two tables; [None] is NaN. *)
Definition column (col : string) (r : MetricsRow) : option Cell :=
  if (col =? "n_events")%string then Some (IntCell (n_events r))
  else if (col =? "n_keydowns")%string then Some (IntCell (n_keydowns r))
  else if (col =? "duration_sec")%string then Some (RatCell (duration_sec r))
  else if (col =? "mean_khd_ms")%string then option_map RatCell (mean_khd_ms r)
  else if (col =? "sd_khd_ms")%string then option_map SurdCell (sd_khd_ms r)
  else if (col =? "cv_khd")%string then option_map SurdCell (cv_khd r)
  else if (col =? "mean_iki_ms")%string then option_map RatCell (mean_iki_ms r)
  else if (col =? "sd_iki_ms")%string then option_map SurdCell (sd_iki_ms r)
  else if (col =? "cv_iki")%string then option_map SurdCell (cv_iki r)
  else if (col =? "pause_count_200ms")%string
       then Some (IntCell (pause_count_200ms r))
  else if (col =? "pause_count_500ms")%string
       then Some (IntCell (pause_count_500ms r))
  else if (col =? "backspace_count")%string
       then Some (IntCell (backspace_count r))
  else if (col =? "backspace_rate")%string
       then Some (RatCell (backspace_rate r))
  else if (col =? "cpm")%string then option_map RatCell (cpm r)
  else if (col =? "first_key_latency_ms")%string
       then option_map IntCell (first_key_latency_ms r)
  else None.

(** The lists [numeric_metrics] of CHUNK 6 and [field_numeric_metrics]
    of CHUNK 7; every name is a column of a table that has a row. *)
Definition numeric_metrics : list string :=
  ["mean_khd_ms"; "sd_khd_ms"; "cv_khd";
   "mean_iki_ms"; "sd_iki_ms"; "cv_iki";
   "pause_count_200ms"; "pause_count_500ms";
   "backspace_rate"; "cpm"; "duration_sec"; "n_keydowns"].

Definition field_numeric_metrics : list string :=
  ["mean_khd_ms"; "sd_khd_ms"; "cv_khd";
   "mean_iki_ms"; "sd_iki_ms"; "cv_iki";
   "pause_count_200ms"; "pause_count_500ms";
   "backspace_rate"; "cpm";
   "first_key_latency_ms"].

(** [vals.dropna()] *)
Definition dropna (vals : list (option Cell)) : list (option Cell) :=
  filter (fun c => negb (isna c)) vals.

(** [per_field_metrics_df.groupby(["test_type", "field_name"])]: the
    groups in ascending key order, rows without a field name in none. *)
Definition test_field (r : MetricsRow) : option key2 :=
  match row_field_name r with
  | Some f => Some (row_test_type r, f)
  | None => None
  end.

Definition groupby_test_field (rows : list MetricsRow)
  : list (key2 * list MetricsRow) :=
  let present := flat_map (fun r => match test_field r with
                                    | Some k => [k]
                                    | None => []
                                    end) rows in
  map (fun k =>
         (k, filter (fun r => match test_field r with
                              | Some k' => key2_eqb k' k
                              | None => false
                              end) rows))
      (isort_by key2_leb (unique key2_eqb present)).

Section Summaries.

(** [Series.quantile(q)] and [Series.mean()] of pandas, on a column
    that may hold NaN. *)
Context {Stat : Type}.
Variable quantile : Q -> list (option Cell) -> Stat.
Variable series_mean : list (option Cell) -> Stat.

(** A row of [overall_stats] or of [field_stats_rows]. *)
Record StatRow := mkStat {
  stat_test_type  : string;
  stat_field_name : option string;
  stat_metric     : string;
  stat_p10        : Stat;
  stat_mean       : Stat;
  stat_p90        : Stat;
  stat_n_rows     : option Z
}.

(** The loop of CHUNK 6.  On a metrics table without a row, which has no
    column either, [metrics_df['test_type']] raises [KeyError]. *)
Definition overall_stats (metrics_df : list MetricsRow)
  : PyError + list StatRow :=
  match metrics_df with
  | [] => inl (KeyError "test_type")
  | _ :: _ =>
      inr (flat_map
             (fun tt =>
                let m := filter (fun r => (row_test_type r =? tt)%string)
                                metrics_df in
                map (fun col =>
                       let vals := map (column col) m in
                       {| stat_test_type := tt;
                          stat_field_name := None;
                          stat_metric := col;
                          stat_p10 := quantile 0.10 vals;
                          stat_mean := series_mean vals;
                          stat_p90 := quantile 0.90 vals;
                          stat_n_rows := None |})
                    numeric_metrics)
             (unique String.eqb (map row_test_type metrics_df)))
  end.

(** The loop of CHUNK 7; an empty per-field table gives no row. *)
Definition field_stats_rows (per_field_metrics_df : list MetricsRow)
  : list StatRow :=
  flat_map
    (fun g : key2 * list MetricsRow =>
       let tt := fst (fst g) in
       let fname := snd (fst g) in
       let grp := snd g in
       flat_map
         (fun col =>
            let vals := dropna (map (column col) grp) in
            if nonempty vals then
              [{| stat_test_type := tt;
                  stat_field_name := Some fname;
                  stat_metric := col;
                  stat_p10 := quantile 0.10 vals;
                  stat_mean := series_mean vals;
                  stat_p90 := quantile 0.90 vals;
                  stat_n_rows := Some (Z.of_nat (List.length vals)) |}]
            else [])
         field_numeric_metrics)
    (groupby_test_field per_field_metrics_df).

End Summaries.

(** * Properties *)

(** ** Events *)

Lemma keydown_not_keyup (e : KeyEvent) :
  is_keydown e = true -> is_keyup e = false.
Proof.
  unfold is_keydown, is_keyup. intros H.
  apply String.eqb_eq in H. rewrite H. reflexivity.
Qed.

Lemma find_split {A : Type} (p : A -> bool) (l : list A) (x : A) :
  find p l = Some x <->
  exists mid post,
    l = mid ++ x :: post /\ forallb (fun y => negb (p y)) mid = true
    /\ p x = true.
Proof.
  split.
  - induction l as [|a l IH]; simpl; [discriminate|].
    destruct (p a) eqn:Ea.
    + intros [= ->]. exists [], l. auto.
    + intros H. destruct (IH H) as (mid & post & -> & Hm & Hx).
      exists (a :: mid), post. simpl. rewrite Ea, Hm. auto.
  - intros (mid & post & -> & Hm & Hx).
    induction mid as [|a mid IH]; simpl in *.
    + now rewrite Hx.
    + apply andb_true_iff in Hm as [Ha Hm].
      apply negb_true_iff in Ha. rewrite Ha. auto.
Qed.

Lemma find_none_forallb {A : Type} (p : A -> bool) (l : list A) :
  find p l = None <-> forallb (fun y => negb (p y)) l = true.
Proof.
  induction l as [|a l IH]; simpl; [tauto|].
  destruct (p a); simpl; [split; discriminate | exact IH].
Qed.

(** ** Key-hold pairing *)

(** The inner loop is the forward scan for the first event of the same
    key. *)
Lemma khd_inner_hold_sample (d : KeyEvent) (post : list KeyEvent) :
  khd_inner (key d) (pressed_at_ms d) post = hold_sample d post.
Proof.
  unfold hold_sample.
  induction post as [|e post IH]; simpl; [reflexivity|].
  unfold same_key_event at 1.
  destruct ((key e =? key d)%string) eqn:Ek;
    rewrite ?andb_false_r, ?andb_true_r; simpl; [|exact IH].
  destruct (is_keyup e) eqn:Eu; simpl.
  - now rewrite Eu.
  - destruct (is_keydown e); simpl; [now rewrite Eu | exact IH].
Qed.

Lemma khd_scan_cons (d : KeyEvent) (post : list KeyEvent) :
  khd_scan (d :: post)
  = (if is_keydown d then hold_sample d post else []) ++ khd_scan post.
Proof.
  destruct post as [|e post].
  - simpl. now destruct (is_keydown d).
  - cbn [khd_scan]. now rewrite khd_inner_hold_sample.
Qed.

Lemma hold_sample_keyup (d : KeyEvent) (mid : list KeyEvent) (u : KeyEvent)
      (post : list KeyEvent) :
  no_event_of_key (key d) mid = true ->
  is_keyup u = true -> key u = key d ->
  hold_sample d (mid ++ u :: post)
  = let dur := pressed_at_ms u - pressed_at_ms d in
    if (0 <? dur) && (dur <? 2000) then [(key d, dur)] else [].
Proof.
  intros Hmid Hu Hk. unfold hold_sample.
  assert (Hf : find (same_key_event (key d)) (mid ++ u :: post) = Some u).
  { apply find_split. exists mid, post. repeat split; auto.
    unfold same_key_event. rewrite Hk, String.eqb_refl, Hu. reflexivity. }
  rewrite Hf, Hu. reflexivity.
Qed.

Lemma hold_sample_keydown (d : KeyEvent) (mid : list KeyEvent) (d' : KeyEvent)
      (post : list KeyEvent) :
  no_event_of_key (key d) mid = true ->
  is_keydown d' = true -> key d' = key d ->
  hold_sample d (mid ++ d' :: post) = [].
Proof.
  intros Hmid Hd Hk. unfold hold_sample.
  assert (Hf : find (same_key_event (key d)) (mid ++ d' :: post) = Some d').
  { apply find_split. exists mid, post. repeat split; auto.
    unfold same_key_event. rewrite Hk, String.eqb_refl, Hd.
    now rewrite orb_true_r. }
  rewrite Hf, (keydown_not_keyup _ Hd). reflexivity.
Qed.

Lemma hold_sample_unterminated (d : KeyEvent) (post : list KeyEvent) :
  no_event_of_key (key d) post = true -> hold_sample d post = [].
Proof.
  intros H. unfold hold_sample.
  apply find_none_forallb in H. now rewrite H.
Qed.

(** What a sample of [hold_sample] is. *)
Lemma hold_sample_In (d : KeyEvent) (post : list KeyEvent) (s : string * Z) :
  In s (hold_sample d post) <->
  exists mid u post',
    post = mid ++ u :: post'
    /\ no_event_of_key (key d) mid = true
    /\ is_keyup u = true /\ key u = key d
    /\ s = (key d, pressed_at_ms u - pressed_at_ms d)
    /\ 0 < pressed_at_ms u - pressed_at_ms d < 2000.
Proof.
  split.
  - unfold hold_sample.
    destruct (find (same_key_event (key d)) post) as [u|] eqn:Ef;
      [|intros []].
    apply find_split in Ef as (mid & post' & -> & Hmid & Hu).
    cbv zeta.
    destruct (is_keyup u) eqn:Eu; simpl; [|intros []].
    destruct (0 <? pressed_at_ms u - pressed_at_ms d) eqn:E1; simpl;
      [|intros []].
    destruct (pressed_at_ms u - pressed_at_ms d <? 2000) eqn:E2; simpl;
      [|intros []].
    intros [<- | []].
    exists mid, u, post'. repeat split; auto.
    + unfold same_key_event in Hu.
      apply andb_true_iff in Hu as [Hk _]. now apply String.eqb_eq.
    + now apply Z.ltb_lt.
    + now apply Z.ltb_lt.
  - intros (mid & u & post' & -> & Hmid & Hu & Hk & -> & H1 & H2).
    rewrite hold_sample_keyup by assumption. cbv zeta.
    apply Z.ltb_lt in H1, H2. rewrite H1, H2. simpl. auto.
Qed.

(** What a sample of the whole scan is. *)
Lemma khd_scan_In (grp : list KeyEvent) (s : string * Z) :
  In s (khd_scan grp) <->
  exists pre d mid u post,
    grp = pre ++ d :: mid ++ u :: post
    /\ is_keydown d = true
    /\ no_event_of_key (key d) mid = true
    /\ is_keyup u = true /\ key u = key d
    /\ s = (key d, pressed_at_ms u - pressed_at_ms d)
    /\ 0 < pressed_at_ms u - pressed_at_ms d < 2000.
Proof.
  induction grp as [|e grp IH].
  - simpl. split; [intros [] | ].
    intros (pre & d & mid & u & post & H & _). now destruct pre.
  - rewrite khd_scan_cons, in_app_iff, IH. split.
    + intros [H | (pre & d & mid & u & post & -> & H)].
      * destruct (is_keydown e) eqn:Ed; [|destruct H].
        apply hold_sample_In in H as (mid & u & post & -> & H).
        exists [], e, mid, u, post. auto.
      * exists (e :: pre), d, mid, u, post. auto.
    + intros (pre & d & mid & u & post & Hg & Hd & H).
      destruct pre as [|e' pre]; simpl in Hg; injection Hg as -> ->.
      * left. rewrite Hd. apply hold_sample_In.
        exists mid, u, post. auto.
      * right. exists pre, d, mid, u, post. auto.
Qed.

(** C1.  Key-hold pairing is a greedy nearest match per key.  For every
    group (time-ascending or not): (1) each event contributes, in order,
    the sample of the forward scan for the first later event of its key
    when it is a keydown and nothing otherwise; (2) when that first later
    event of the same key is a keyup, the sample is the keyup's time minus
    the keydown's time, kept only when it lies strictly between 0 and
    2000 ms, whatever events of other keys lie in between; (3) when it is
    another keydown of the same key nothing is emitted; (4) when there is
    none nothing is emitted; (5) a sample is in the output exactly when
    such a keydown/keyup pair exists in the group. *)
Theorem khd_pairing_greedy_per_key :
  (forall d post,
      khd_scan (d :: post)
      = (if is_keydown d then hold_sample d post else []) ++ khd_scan post)
  /\ (forall d mid u post,
         no_event_of_key (key d) mid = true ->
         is_keyup u = true -> key u = key d ->
         hold_sample d (mid ++ u :: post)
         = let dur := pressed_at_ms u - pressed_at_ms d in
           if (0 <? dur) && (dur <? 2000) then [(key d, dur)] else [])
  /\ (forall d mid d' post,
         no_event_of_key (key d) mid = true ->
         is_keydown d' = true -> key d' = key d ->
         hold_sample d (mid ++ d' :: post) = [])
  /\ (forall d post,
         no_event_of_key (key d) post = true -> hold_sample d post = [])
  /\ (forall grp k dur,
         In (k, dur) (khd_scan grp) <->
         exists pre d mid u post,
           grp = pre ++ d :: mid ++ u :: post
           /\ is_keydown d = true /\ key d = k
           /\ no_event_of_key k mid = true
           /\ is_keyup u = true /\ key u = k
           /\ dur = pressed_at_ms u - pressed_at_ms d
           /\ 0 < dur < 2000).
Proof.
  split; [exact khd_scan_cons|].
  split; [exact hold_sample_keyup|].
  split; [exact hold_sample_keydown|].
  split; [exact hold_sample_unterminated|].
  intros grp k dur. rewrite khd_scan_In. split.
  - intros (pre & d & mid & u & post & Hg & Hd & Hm & Hu & Hk & [= -> ->] & Hr).
    exists pre, d, mid, u, post. repeat split; auto; apply Hr.
  - intros (pre & d & mid & u & post & Hg & Hd & <- & Hm & Hu & Hk & -> & Hr).
    exists pre, d, mid, u, post. repeat split; auto; apply Hr.
Qed.

(** Two keys held at once each match their own keyup, and an
    auto-repeated keydown is dropped. *)
Lemma khd_pairing_greedy_per_key_witness :
  hold_sample (down "A" 0) ([down "B" 10] ++ up "A" 100 :: [up "B" 120])
  = [("A", 100)]
  /\ hold_sample (down "A" 0) ([] ++ down "A" 30 :: [up "A" 100]) = []
  /\ In ("B", 110) (khd_scan overlapping_holds).
Proof.
  destruct khd_pairing_greedy_per_key as (_ & Hup & Hdown & _ & Hin).
  split; [|split].
  - apply (Hup (down "A" 0) [down "B" 10] (up "A" 100) [up "B" 120]);
      reflexivity.
  - apply (Hdown (down "A" 0) [] (down "A" 30) [up "A" 100]); reflexivity.
  - apply (Hin overlapping_holds "B" 110).
    exists [down "A" 0], (down "B" 10), [up "A" 100], (up "B" 120), [].
    repeat split; try reflexivity.
Defined.

(** ** Inter-key intervals *)

Lemma iki_scan_keyup (st : option Z) (u : KeyEvent) (rest : list KeyEvent) :
  is_keyup u = true ->
  iki_scan st (u :: rest) = iki_scan (Some (pressed_at_ms u)) rest.
Proof. intros H. simpl. now rewrite H. Qed.

Lemma iki_scan_keydown_pending (t : Z) (d : KeyEvent) (rest : list KeyEvent) :
  is_keydown d = true ->
  iki_scan (Some t) (d :: rest)
  = (let gap_ms := pressed_at_ms d - t in
     if (0 <? gap_ms) && (gap_ms <? 5000) then [gap_ms] else [])
    ++ iki_scan None rest.
Proof.
  intros H. simpl. now rewrite (keydown_not_keyup _ H), H.
Qed.

Lemma iki_scan_keydown_idle (d : KeyEvent) (rest : list KeyEvent) :
  is_keydown d = true ->
  iki_scan None (d :: rest) = iki_scan None rest.
Proof.
  intros H. simpl. now rewrite (keydown_not_keyup _ H), H.
Qed.

Lemma iki_scan_other (st : option Z) (e : KeyEvent) (rest : list KeyEvent) :
  is_keyup e = false -> is_keydown e = false ->
  iki_scan st (e :: rest) = iki_scan st rest.
Proof. intros H1 H2. simpl. now rewrite H1, H2. Qed.

(** A sample comes from the pending keyup time and the next keydown, or
    from a keyup and the next keydown after it with neither a keyup nor a
    keydown in between. *)
Lemma iki_scan_In (st : option Z) (grp : list KeyEvent) (g : Z) :
  In g (iki_scan st grp) <->
  (exists t mid d post,
      st = Some t /\ grp = mid ++ d :: post
      /\ no_press_or_release mid = true /\ is_keydown d = true
      /\ g = pressed_at_ms d - t /\ 0 < g < 5000)
  \/ (exists pre u mid d post,
         grp = pre ++ u :: mid ++ d :: post
         /\ is_keyup u = true
         /\ no_press_or_release mid = true /\ is_keydown d = true
         /\ g = pressed_at_ms d - pressed_at_ms u /\ 0 < g < 5000).
Proof.
  revert st. induction grp as [|e grp IH]; intros st.
  - simpl. split; [intros [] | ].
    intros [(t & mid & d & post & _ & H & _)
           | (pre & u & mid & d & post & H & _)].
    + now destruct mid.
    + now destruct pre.
  - destruct (is_keyup e) eqn:Eu.
    { (* a keyup: it becomes the pending time *)
      rewrite iki_scan_keyup by assumption. rewrite IH. split.
      - intros [(t & mid & d & post & [= <-] & -> & H)
               | (pre & u & mid & d & post & -> & H)].
        + right. exists [], e, mid, d, post. auto.
        + right. exists (e :: pre), u, mid, d, post. auto.
      - intros [(t & mid & d & post & _ & Hg & Hm & Hd & H)
               | (pre & u & mid & d & post & Hg & Hu & H)].
        + destruct mid as [|e' mid]; simpl in Hg; injection Hg as -> ->.
          * rewrite (keydown_not_keyup _ Hd) in Eu. discriminate.
          * simpl in Hm. rewrite Eu in Hm. discriminate.
        + destruct pre as [|e' pre]; simpl in Hg; injection Hg as -> ->.
          * left. exists (pressed_at_ms u), mid, d, post. auto.
          * right. exists pre, u, mid, d, post. auto. }
    destruct (is_keydown e) eqn:Ed.
    { (* a keydown: it consumes the pending time, if any *)
      assert (Hright :
        In g (iki_scan None grp) <->
        exists pre u mid d post,
          e :: grp = pre ++ u :: mid ++ d :: post
          /\ is_keyup u = true
          /\ no_press_or_release mid = true /\ is_keydown d = true
          /\ g = pressed_at_ms d - pressed_at_ms u /\ 0 < g < 5000).
      { rewrite IH. split.
        - intros [(t & mid & d & post & [=] & _)
                 | (pre & u & mid & d & post & -> & H)].
          exists (e :: pre), u, mid, d, post. auto.
        - intros (pre & u & mid & d & post & Hg & Hu & H).
          destruct pre as [|e' pre]; simpl in Hg; injection Hg as -> ->.
          + rewrite Hu in Eu. discriminate.
          + right. exists pre, u, mid, d, post. auto. }
      destruct st as [t|].
      - rewrite iki_scan_keydown_pending by assumption.
        rewrite in_app_iff, Hright. cbv zeta. split.
        + intros [H | H]; [|now right].
          destruct (0 <? pressed_at_ms e - t) eqn:E1; [|destruct H].
          destruct (pressed_at_ms e - t <? 5000) eqn:E2; [|destruct H].
          destruct H as [<- | []].
          left. exists t, [], e, grp.
          apply Z.ltb_lt in E1, E2. repeat split; auto.
        + intros [(t' & mid & d & post & [= <-] & Hg & Hm & Hd & -> & H1 & H2)
                 | H]; [|now right].
          destruct mid as [|e' mid]; simpl in Hg; injection Hg as -> ->.
          * left. apply Z.ltb_lt in H1, H2. rewrite H1, H2. simpl. auto.
          * simpl in Hm. rewrite Eu, Ed in Hm. discriminate.
      - rewrite iki_scan_keydown_idle by assumption. rewrite Hright.
        split; [now right|].
        intros [(t & mid & d & post & [=] & _) | H]; exact H. }
    (* any other event: the state is unchanged *)
    rewrite iki_scan_other by assumption. rewrite IH. split.
    + intros [(t & mid & d & post & -> & -> & Hm & H)
             | (pre & u & mid & d & post & -> & H)].
      * left. exists t, (e :: mid), d, post. simpl.
        rewrite Eu, Ed. simpl. auto.
      * right. exists (e :: pre), u, mid, d, post. auto.
    + intros [(t & mid & d & post & -> & Hg & Hm & Hd & H)
             | (pre & u & mid & d & post & Hg & Hu & H)].
      * destruct mid as [|e' mid]; simpl in Hg; injection Hg as -> ->.
        -- rewrite Hd in Ed. discriminate.
        -- simpl in Hm. apply andb_true_iff in Hm as [_ Hm].
           left. exists t, mid, d, post. auto.
      * destruct pre as [|e' pre]; simpl in Hg; injection Hg as -> ->.
        -- rewrite Hu in Eu. discriminate.
        -- right. exists pre, u, mid, d, post. auto.
Qed.

(** C2.  The interval scan tracks one pending keyup time: (1) a keyup
    overwrites it; (2) a keydown met while a time is pending emits the
    keydown time minus the pending time, kept only when it lies strictly
    between 0 and 5000 ms, and clears it; (3) a keydown met with nothing
    pending emits nothing, so of two consecutive keydowns the second
    yields no sample; (4) hence a sample is in the output exactly for a
    keyup and the next keydown with no keyup or keydown between them;
    (5) the events [down A@0, up A@50, down B@80] yield exactly the one
    sample 30. *)
Theorem iki_scan_pending_keyup :
  (forall st u rest,
      is_keyup u = true ->
      iki_scan st (u :: rest) = iki_scan (Some (pressed_at_ms u)) rest)
  /\ (forall t d rest,
         is_keydown d = true ->
         iki_scan (Some t) (d :: rest)
         = (let gap_ms := pressed_at_ms d - t in
            if (0 <? gap_ms) && (gap_ms <? 5000) then [gap_ms] else [])
           ++ iki_scan None rest)
  /\ (forall st d1 d2 rest,
         is_keydown d1 = true -> is_keydown d2 = true ->
         iki_scan st (d1 :: d2 :: rest)
         = iki_scan st [d1] ++ iki_scan None rest)
  /\ (forall grp g,
         In g (iki_scan None grp) <->
         exists pre u mid d post,
           grp = pre ++ u :: mid ++ d :: post
           /\ is_keyup u = true
           /\ no_press_or_release mid = true /\ is_keydown d = true
           /\ g = pressed_at_ms d - pressed_at_ms u /\ 0 < g < 5000)
  /\ iki_scan None scenario_C = [30].
Proof.
  split; [exact iki_scan_keyup|].
  split; [exact iki_scan_keydown_pending|].
  split.
  { intros st d1 d2 rest H1 H2. destruct st as [t|].
    - rewrite !iki_scan_keydown_pending by assumption.
      rewrite iki_scan_keydown_idle by assumption.
      simpl. now rewrite app_nil_r.
    - now rewrite !iki_scan_keydown_idle by assumption. }
  split; [|reflexivity].
  intros grp g. rewrite iki_scan_In. split.
  - intros [(t & mid & d & post & [=] & _) | H]; exact H.
  - now right.
Qed.

(** The scan on the events [up A@50, down B@80], on two consecutive
    keydowns after a keyup, and the membership of 30 in scenario C. *)
Lemma iki_scan_pending_keyup_witness :
  iki_scan None (up "A" 50 :: [down "B" 80])
  = iki_scan (Some 50) [down "B" 80]
  /\ iki_scan (Some 50) (down "B" 80 :: down "C" 90 :: [])
     = iki_scan (Some 50) [down "B" 80] ++ iki_scan None []
  /\ In 30 (iki_scan None scenario_C).
Proof.
  destruct iki_scan_pending_keyup as (Hup & _ & Hdd & Hin & _).
  split; [|split].
  - apply (Hup None (up "A" 50) [down "B" 80]). reflexivity.
  - apply (Hdd (Some 50) (down "B" 80) (down "C" 90) []); reflexivity.
  - apply (Hin scenario_C 30).
    exists [down "A" 0], (up "A" 50), [], (down "B" 80), [].
    repeat split; try reflexivity.
Defined.

(** ** Input checks *)

Lemma check_columns_find (cols columns : list string) :
  check_columns cols columns
  = option_map (fun c => ValueError (missing_column_message c))
               (find (fun c => negb (has_column columns c)) cols).
Proof.
  induction cols as [|c cols IH]; simpl; [reflexivity|].
  destruct (negb (has_column columns c)); simpl; [reflexivity | exact IH].
Qed.

Lemma find_exists {A : Type} (p : A -> bool) (l : list A) (x : A) :
  In x l -> p x = true -> exists y, find p l = Some y.
Proof.
  intros Hin Hp. destruct (find p l) as [y|] eqn:E; [now exists y|].
  rewrite (find_none _ _ E x Hin) in Hp. discriminate.
Qed.

(** C3, as the code has it.  When one of [session_id], [test_type],
    [event_type], [key] is absent, CHUNK 1 stops with an error before any
    metric is computed; when moreover the timestamp column ([pressed_at],
    or [timestamp] when there is no [pressed_at]) exists and parses, that
    error is the [ValueError] naming the first absent one of the four.
    [pressed_at] is not among the checked columns: without it the column
    [timestamp] is read instead and the checks pass, and when both are
    absent the lookup of [timestamp] fails. *)
Theorem load_checks_first_missing_column :
  (forall sort_values columns parses df col,
      In col checked_columns -> has_column columns col = false ->
      exists err, chunk1 sort_values columns parses df = inl err)
  /\ (forall sort_values columns parses df col,
         In col checked_columns -> has_column columns col = false ->
         has_column columns (ts_col columns) = true ->
         parses (ts_col columns) = true ->
         exists first,
           find (fun c => negb (has_column columns c)) checked_columns
           = Some first
           /\ In first checked_columns
           /\ has_column columns first = false
           /\ load_checks columns parses
              = Some (ValueError (missing_column_message first))
           /\ chunk1 sort_values columns parses df
              = inl (ValueError (missing_column_message first)))
  /\ (forall sort_values columns parses df,
         has_column columns "pressed_at" = false ->
         has_column columns "timestamp" = true ->
         parses "timestamp" = true ->
         (forall col, In col checked_columns -> has_column columns col = true) ->
         load_checks columns parses = None
         /\ chunk1 sort_values columns parses df
            = inr (compute_keystroke_metrics sort_values df,
                   compute_keystroke_metrics_by_field sort_values df))
  /\ (forall columns parses,
         has_column columns "pressed_at" = false ->
         has_column columns "timestamp" = false ->
         load_checks columns parses = Some (KeyError "timestamp")).
Proof.
  assert (Hfirst : forall columns col,
             In col checked_columns -> has_column columns col = false ->
             exists first,
               find (fun c => negb (has_column columns c)) checked_columns
               = Some first
               /\ In first checked_columns
               /\ has_column columns first = false).
  { intros columns col Hin Hmiss.
    destruct (find_exists (fun c => negb (has_column columns c))
                          checked_columns col Hin) as [first Hf].
    { now rewrite Hmiss. }
    exists first. split; [exact Hf|].
    apply find_some in Hf as [H1 H2].
    split; [exact H1 | now apply negb_true_iff]. }
  split; [|split; [|split]].
  - intros sort_values columns parses df col Hin Hmiss.
    unfold chunk1, load_checks.
    destruct (negb (has_column columns (ts_col columns))); [eauto|].
    destruct (negb (parses (ts_col columns))); [eauto|].
    rewrite check_columns_find.
    destruct (Hfirst columns col Hin Hmiss) as (first & -> & _).
    simpl. eauto.
  - intros sort_values columns parses df col Hin Hmiss Hts Hparse.
    destruct (Hfirst columns col Hin Hmiss) as (first & Hf & H1 & H2).
    exists first.
    assert (Hl : load_checks columns parses
                 = Some (ValueError (missing_column_message first))).
    { unfold load_checks. rewrite Hts, Hparse. cbn [negb].
      now rewrite check_columns_find, Hf. }
    repeat split; auto.
    unfold chunk1. now rewrite Hl.
  - intros sort_values columns parses df Hp Ht Hparse Hall.
    assert (Hl : load_checks columns parses = None).
    { assert (Hc : ts_col columns = "timestamp")
        by (unfold ts_col; now rewrite Hp).
      unfold load_checks. rewrite Hc, Ht, Hparse. cbn [negb].
      rewrite check_columns_find.
      destruct (find _ checked_columns) as [c|] eqn:E; [|reflexivity].
      apply find_some in E as [H1 H2].
      rewrite (Hall c H1) in H2. discriminate. }
    split; [exact Hl|]. unfold chunk1. now rewrite Hl.
  - intros columns parses Hp Ht.
    unfold load_checks, ts_col. now rewrite Hp, Ht.
Qed.

(** A table without [event_type] stops on the [ValueError] naming it; a
    table with [timestamp] in place of [pressed_at] passes the checks. *)
Lemma load_checks_first_missing_column_witness :
  (exists first,
      find (fun c => negb (has_column ["session_id"; "test_type"; "key";
                                       "pressed_at"] c)) checked_columns
      = Some first
      /\ In first checked_columns
      /\ has_column ["session_id"; "test_type"; "key"; "pressed_at"] first
         = false
      /\ load_checks ["session_id"; "test_type"; "key"; "pressed_at"]
                     (fun _ => true)
         = Some (ValueError (missing_column_message first))
      /\ chunk1 stable_sort_values
                ["session_id"; "test_type"; "key"; "pressed_at"]
                (fun _ => true) scenario_A
         = inl (ValueError (missing_column_message first)))
  /\ load_checks timestamp_columns (fun _ => true) = None.
Proof.
  destruct load_checks_first_missing_column as (_ & Hfirst & Hts & _).
  split.
  - apply (Hfirst stable_sort_values
                  ["session_id"; "test_type"; "key"; "pressed_at"]
                  (fun _ => true) scenario_A "event_type").
    + simpl. auto.
    + reflexivity.
    + reflexivity.
    + reflexivity.
  - apply (Hts stable_sort_values timestamp_columns (fun _ => true)
               scenario_A); try reflexivity.
    intros col Hin. simpl in Hin.
    destruct Hin as [<- | [<- | [<- | [<- | []]]]]; reflexivity.
Defined.

(** [pressed_at] is one of the columns the specification requires, yet a
    table that lacks it and has a [timestamp] column passes every check
    and both metric tables are computed. *)
Lemma load_checks_accepts_missing_pressed_at :
  In "pressed_at" required_columns
  /\ has_column timestamp_columns "pressed_at" = false
  /\ load_checks timestamp_columns (fun _ => true) = None
  /\ chunk1 stable_sort_values timestamp_columns (fun _ => true) scenario_A
     = inr (compute_keystroke_metrics stable_sort_values scenario_A,
            compute_keystroke_metrics_by_field stable_sort_values scenario_A).
Proof.
  repeat split; try reflexivity.
  simpl. tauto.
Qed.

(** ** Counts, extrema and durations *)

Lemma mask_sum_filter {A : Type} (p : A -> bool) (l : list A) :
  mask_sum (map p l) = Z.of_nat (List.length (filter p l)).
Proof.
  induction l as [|x l IH]; [reflexivity|].
  cbn [map filter]. unfold mask_sum in *. cbn [fold_right].
  rewrite IH. destruct (p x); cbn [List.length]; lia.
Qed.

Lemma filter_filter_andb {A : Type} (p q : A -> bool) (l : list A) :
  filter q (filter p l) = filter (fun x => p x && q x) l.
Proof.
  induction l as [|x l IH]; [reflexivity|].
  cbn [filter]. destruct (p x); cbn [filter andb]; [|exact IH].
  destruct (q x); now rewrite IH.
Qed.

Lemma filter_length_le {A : Type} (p : A -> bool) (l : list A) :
  (List.length (filter p l) <= List.length l)%nat.
Proof.
  induction l as [|x l IH]; simpl; [lia|].
  destruct (p x); simpl; lia.
Qed.

Lemma fold_min_le (ts : list Z) (t : Z) :
  fold_left Z.min ts t <= t /\ forall x, In x ts -> fold_left Z.min ts t <= x.
Proof.
  revert t. induction ts as [|a ts IH]; intros t; simpl.
  - split; [lia | intros x []].
  - destruct (IH (Z.min t a)) as [H1 H2]. split; [lia|].
    intros x [<- | Hx]; [lia | auto].
Qed.

Lemma fold_min_In (ts : list Z) (t : Z) :
  fold_left Z.min ts t = t \/ In (fold_left Z.min ts t) ts.
Proof.
  revert t. induction ts as [|a ts IH]; intros t; simpl; [now left|].
  destruct (IH (Z.min t a)) as [H | H]; [|now right; right].
  rewrite H. destruct (Z.min_spec t a) as [[_ ->] | [_ ->]]; auto.
Qed.

Lemma fold_max_ge (ts : list Z) (t : Z) : t <= fold_left Z.max ts t.
Proof.
  revert t. induction ts as [|a ts IH]; intros t; simpl; [lia|].
  specialize (IH (Z.max t a)). lia.
Qed.

(** [arr_min] returns the least element. *)
Lemma arr_min_spec (a : list Z) (m : Z) :
  arr_min a = Some m <-> In m a /\ forall x, In x a -> m <= x.
Proof.
  destruct a as [|t ts]; simpl.
  - split; [discriminate | intros [[] _]].
  - split.
    + intros [= <-]. destruct (fold_min_le ts t) as [H1 H2]. split.
      * destruct (fold_min_In ts t) as [-> | H]; auto.
      * intros x [<- | Hx]; auto.
    + intros [Hin Hle]. f_equal.
      destruct (fold_min_le ts t) as [H1 H2].
      assert (m <= fold_left Z.min ts t).
      { apply Hle. destruct (fold_min_In ts t) as [-> | H]; auto. }
      destruct Hin as [<- | Hin]; [lia|]. specialize (H2 _ Hin). lia.
Qed.

Lemma duration_ms_nonneg (times : list Z) : 0 <= duration_ms_of times.
Proof.
  unfold duration_ms_of.
  destruct (2 <=? List.length times)%nat; [|lia].
  destruct times as [|t ts]; simpl; [lia|].
  pose proof (fold_max_ge ts t). pose proof (proj1 (fold_min_le ts t)). lia.
Qed.

Lemma duration_ms_short (times : list Z) :
  (List.length times < 2)%nat -> duration_ms_of times = 0.
Proof.
  intros H. unfold duration_ms_of.
  destruct (Nat.leb_spec 2 (List.length times)); [lia | reflexivity].
Qed.

Lemma duration_sec_zero (d : Z) : (inject_Z d / 1000 == 0)%Q <-> d = 0.
Proof.
  unfold Qeq, Qdiv, Qmult, Qinv, inject_Z. simpl. lia.
Qed.

Lemma cpm_of_spec (nk nb d : Z) :
  0 <= d ->
  ((inject_Z d / 1000 == 0)%Q -> cpm_of nk nb d = None)
  /\ (~ (inject_Z d / 1000 == 0)%Q ->
      exists c, cpm_of nk nb d = Some c
                /\ (c == inject_Z (nk - nb) / (inject_Z d / 1000 / 60))%Q).
Proof.
  intros Hd. rewrite duration_sec_zero. unfold cpm_of. split.
  - intros ->. reflexivity.
  - intros Hne. destruct (Z.ltb_spec 0 d); [|lia].
    eexists. split; [reflexivity|].
    assert (Hq : ~ (inject_Z d == 0)%Q).
    { unfold Qeq, inject_Z. simpl. lia. }
    change (inject_Z 60000) with (60000 # 1)%Q.
    field. auto.
Qed.

(** Every row of either table is built by [_agg_row] or by [field_row]. *)
Lemma compute_keystroke_metrics_rows sort_values df r :
  In r (compute_keystroke_metrics sort_values df) ->
  exists sid tt grp khd iki, r = _agg_row sid tt grp khd iki.
Proof.
  unfold compute_keystroke_metrics. rewrite in_app_iff, !in_map_iff.
  intros [([k grp] & <- & _) | (sid & <- & _)]; eauto 10.
Qed.

Lemma compute_keystroke_metrics_by_field_rows sort_values df r :
  In r (compute_keystroke_metrics_by_field sort_values df) ->
  exists sid tt field grp khd iki lat,
    r = field_row sid tt field grp khd iki lat.
Proof.
  unfold compute_keystroke_metrics_by_field. rewrite in_flat_map.
  intros (g & _ & H).
  destruct (strip (snd (fst g)) =? "")%string; [destruct H|].
  destruct (arr_min _); [|destruct H].
  destruct H as [<- | []]. eauto 10.
Qed.

(** ** Backspaces *)

Lemma backspace_rate_of_spec (nb nk : Z) :
  (nk = 0 -> backspace_rate_of nb nk = 0%Q)
  /\ (nk <> 0 ->
      (backspace_rate_of nb nk == inject_Z nb / inject_Z nk)%Q).
Proof.
  unfold backspace_rate_of. split.
  - intros ->. reflexivity.
  - intros H. destruct (Z.eqb_spec nk 0); [contradiction | reflexivity].
Qed.

Lemma count_keydowns_filter (grp : list KeyEvent) :
  count_keydowns grp = Z.of_nat (List.length (filter is_keydown grp)).
Proof. apply mask_sum_filter. Qed.

Lemma count_backspace_filter (grp : list KeyEvent) :
  count_backspace grp
  = Z.of_nat (List.length
                (filter (fun e => (key e =? "Backspace")%string)
                        (filter is_keydown grp))).
Proof.
  unfold count_backspace. now rewrite mask_sum_filter, filter_filter_andb.
Qed.

Lemma count_backspace_bounds (grp : list KeyEvent) :
  0 <= count_backspace grp <= count_keydowns grp.
Proof.
  rewrite count_backspace_filter, count_keydowns_filter.
  pose proof (filter_length_le (fun e => (key e =? "Backspace")%string)
                               (filter is_keydown grp)).
  lia.
Qed.

Lemma _agg_row_backspace_spec sid tt grp khd iki :
  backspace_spec grp (_agg_row sid tt grp khd iki).
Proof.
  unfold backspace_spec, _agg_row.
  cbn [n_keydowns backspace_count backspace_rate].
  split; [apply count_keydowns_filter|].
  split; [apply count_backspace_filter|].
  split; [apply count_backspace_bounds|].
  apply backspace_rate_of_spec.
Qed.

Lemma field_row_backspace_spec sid tt field grp khd iki lat :
  backspace_spec grp (field_row sid tt field grp khd iki lat).
Proof.
  unfold backspace_spec, field_row.
  cbn [n_keydowns backspace_count backspace_rate].
  split; [apply count_keydowns_filter|].
  split; [apply count_backspace_filter|].
  split; [apply count_backspace_bounds|].
  apply backspace_rate_of_spec.
Qed.

(** C6.  In every row, built by [_agg_row] or by the per-field loop from
    the events [grp] of its group, [backspace_count] is the number of
    keydown events of [grp] whose key is Backspace, so
    [0 <= backspace_count <= n_keydowns], and [backspace_rate] is
    [backspace_count / n_keydowns], and 0 when [n_keydowns] is 0; every
    row of both tables is such a row; five keydowns with one Backspace
    give the rate 1/5. *)
Theorem backspace_count_and_rate :
  (forall sid tt grp khd iki,
      backspace_spec grp (_agg_row sid tt grp khd iki))
  /\ (forall sid tt field grp khd iki lat,
         backspace_spec grp (field_row sid tt field grp khd iki lat))
  /\ (forall sort_values df r,
         In r (compute_keystroke_metrics sort_values df)
         \/ In r (compute_keystroke_metrics_by_field sort_values df) ->
         exists grp, backspace_spec grp r)
  /\ (n_keydowns (_agg_row "s1" "free" scenario_F [] []) = 5
      /\ backspace_count (_agg_row "s1" "free" scenario_F [] []) = 1
      /\ (backspace_rate (_agg_row "s1" "free" scenario_F [] []) == 0.2)%Q).
Proof.
  split; [exact _agg_row_backspace_spec|].
  split; [exact field_row_backspace_spec|].
  split.
  - intros sort_values df r [H | H].
    + apply compute_keystroke_metrics_rows in H
        as (sid & tt & grp & khd & iki & ->).
      exists grp. apply _agg_row_backspace_spec.
    + apply compute_keystroke_metrics_by_field_rows in H
        as (sid & tt & field & grp & khd & iki & lat & ->).
      exists grp. apply field_row_backspace_spec.
  - repeat split.
Qed.

(** The per-test row of scenario F in the metrics table. *)
Lemma backspace_count_and_rate_witness :
  exists grp, backspace_spec grp (_agg_row "s1" "free" scenario_F [] []).
Proof.
  apply (proj1 (proj2 (proj2 backspace_count_and_rate)) stable_sort_values
               scenario_F).
  left. vm_compute. left. reflexivity.
Defined.

(** ** Degenerate groups *)

Lemma khd_scan_short (grp : list KeyEvent) :
  (List.length grp < 2)%nat -> khd_scan grp = [].
Proof.
  destruct grp as [|e [|e' grp]]; simpl; intros H; try reflexivity; lia.
Qed.

Lemma iki_scan_short (grp : list KeyEvent) :
  (List.length grp < 2)%nat -> iki_scan None grp = [].
Proof.
  destruct grp as [|e [|e' grp]]; simpl; intros H; try reflexivity; [|lia].
  destruct (is_keyup e); [reflexivity|]. now destruct (is_keydown e).
Qed.

Lemma cpm_of_zero (nk nb : Z) : cpm_of nk nb 0 = None.
Proof. reflexivity. Qed.

Lemma _agg_row_degenerate sid tt :
  degenerate_spec (_agg_row sid tt).
Proof.
  unfold degenerate_spec, _agg_row.
  cbn [n_events n_keydowns duration_sec mean_khd_ms sd_khd_ms cv_khd
       mean_iki_ms sd_iki_ms cv_iki pause_count_200ms pause_count_500ms
       backspace_count backspace_rate cpm].
  split; [|split; [|repeat split]].
  - intros grp khd iki H.
    rewrite duration_ms_short by (now rewrite length_map).
    split; reflexivity.
  - intros grp khd iki.
    apply cpm_of_spec, duration_ms_nonneg.
Qed.

Lemma field_row_degenerate sid tt field lat :
  degenerate_spec
    (fun grp khd iki => field_row sid tt field grp khd iki lat).
Proof.
  unfold degenerate_spec, field_row.
  cbn [n_events n_keydowns duration_sec mean_khd_ms sd_khd_ms cv_khd
       mean_iki_ms sd_iki_ms cv_iki pause_count_200ms pause_count_500ms
       backspace_count backspace_rate cpm].
  split; [|split; [|repeat split]].
  - intros grp khd iki H.
    rewrite duration_ms_short by (now rewrite length_map).
    split; reflexivity.
  - intros grp khd iki.
    apply cpm_of_spec, duration_ms_nonneg.
Qed.

(** ** Sorting and grouping *)

Lemma Permutation_filter_compat {A : Type} (p : A -> bool) (l l' : list A) :
  Permutation l l' -> Permutation (filter p l) (filter p l').
Proof.
  induction 1 as [|x l l' _ IH|x y l|l l' l'' _ IH1 _ IH2]; simpl.
  - constructor.
  - destruct (p x); [now constructor | exact IH].
  - destruct (p x), (p y); try apply Permutation_refl.
    apply perm_swap.
  - now transitivity (filter p l').
Qed.

Lemma arr_min_Permutation (a b : list Z) :
  Permutation a b -> arr_min a = arr_min b.
Proof.
  intros H. destruct (arr_min a) as [m|] eqn:E.
  - symmetry. apply arr_min_spec. apply arr_min_spec in E as [Hin Hle].
    split.
    + now apply (Permutation_in _ H).
    + intros x Hx. apply Hle.
      now apply (Permutation_in _ (Permutation_sym H)).
  - destruct a; [|discriminate].
    now rewrite (Permutation_nil H).
Qed.

Lemma insert_by_Permutation {A : Type} (leb : A -> A -> bool) (x : A)
      (l : list A) :
  Permutation (insert_by leb x l) (x :: l).
Proof.
  induction l as [|y l IH]; simpl; [apply Permutation_refl|].
  destruct (leb x y); [apply Permutation_refl|].
  rewrite IH. apply perm_swap.
Qed.

Lemma isort_by_Permutation {A : Type} (leb : A -> A -> bool) (l : list A) :
  Permutation (isort_by leb l) l.
Proof.
  induction l as [|x l IH]; simpl; [constructor|].
  rewrite insert_by_Permutation. now constructor.
Qed.

Lemma stable_sort_values_Permutation (cols : list string)
      (df : list KeyEvent) :
  Permutation (stable_sort_values cols df) df.
Proof. apply isort_by_Permutation. Qed.

Lemma Permutation_In_iff {A : Type} (l l' : list A) (x : A) :
  Permutation l l' -> (In x l <-> In x l').
Proof.
  intros H. split; apply Permutation_in; [exact H | now symmetry].
Qed.

Section Unique.

Context {A : Type} (eqb : A -> A -> bool).
Hypothesis eqb_eq : forall x y, eqb x y = true <-> x = y.

Lemma unique_In (l : list A) (x : A) : In x (unique eqb l) <-> In x l.
Proof.
  induction l as [|a l IH]; simpl; [tauto|].
  rewrite filter_In, IH. split.
  - intros [H | [H _]]; auto.
  - intros [H | H]; auto.
    destruct (eqb x a) eqn:E.
    + left. symmetry. now apply eqb_eq.
    + right. split; [exact H | reflexivity].
Qed.

Lemma unique_NoDup (l : list A) : NoDup (unique eqb l).
Proof.
  induction l as [|a l IH]; simpl; constructor.
  - rewrite filter_In. intros [_ H].
    assert (E : eqb a a = true) by now apply eqb_eq.
    now rewrite E in H.
  - now apply NoDup_filter.
Qed.

End Unique.

Lemma key2_eqb_eq (a b : key2) : key2_eqb a b = true <-> a = b.
Proof.
  destruct a as [a1 a2], b as [b1 b2]. unfold key2_eqb. simpl.
  rewrite andb_true_iff, !String.eqb_eq. split.
  - now intros [-> ->].
  - now intros [= -> ->].
Qed.

Lemma key3_eqb_eq (a b : key3) : key3_eqb a b = true <-> a = b.
Proof.
  destruct a as [a1 a2], b as [b1 b2]. unfold key3_eqb. simpl.
  rewrite andb_true_iff, key2_eqb_eq, String.eqb_eq. split.
  - now intros [-> ->].
  - now intros [= -> ->].
Qed.

Section Groupby.

Context {K : Type} (eqb leb : K -> K -> bool)
        (keyf : KeyEvent -> option K).
Hypothesis eqb_eq : forall x y, eqb x y = true <-> x = y.

(** The rows of [df] whose key is [k]. *)
Let rows_of (k : K) (df : list KeyEvent) : list KeyEvent :=
  filter (fun e => match keyf e with
                   | Some k' => eqb k' k
                   | None => false
                   end) df.

Lemma groupby_keys_In (df : list KeyEvent) (k : K) :
  In k (map fst (groupby eqb leb keyf df)) <->
  exists e, In e df /\ keyf e = Some k.
Proof.
  unfold groupby. rewrite map_map. cbn [fst]. rewrite map_id.
  rewrite (Permutation_In_iff _ _ _ (isort_by_Permutation leb _)).
  rewrite (unique_In eqb eqb_eq), in_flat_map. split.
  - intros (e & He & H). exists e. split; [exact He|].
    destruct (keyf e) as [k'|]; [|destruct H].
    destruct H as [<- | []]. reflexivity.
  - intros (e & He & H). exists e. split; [exact He|].
    rewrite H. now left.
Qed.

Lemma groupby_In (df : list KeyEvent) (k : K) (grp : list KeyEvent) :
  In (k, grp) (groupby eqb leb keyf df) <->
  (exists e, In e df /\ keyf e = Some k) /\ grp = rows_of k df.
Proof.
  rewrite <- groupby_keys_In. unfold groupby, rows_of.
  rewrite map_map. cbn [fst]. rewrite map_id, in_map_iff. split.
  - intros (k' & [= -> <-] & H). auto.
  - intros [H ->]. exists k. auto.
Qed.

Lemma groupby_NoDup (df : list KeyEvent) :
  NoDup (map fst (groupby eqb leb keyf df)).
Proof.
  unfold groupby. rewrite map_map. cbn [fst]. rewrite map_id.
  apply (Permutation_NoDup (Permutation_sym (isort_by_Permutation leb _))).
  now apply unique_NoDup.
Qed.

(** No group of [groupby] is empty. *)
Lemma groupby_nonempty (df : list KeyEvent) (k : K) (grp : list KeyEvent) :
  In (k, grp) (groupby eqb leb keyf df) -> grp <> [].
Proof.
  rewrite groupby_In. intros [(e & He & Hk) ->] Hnil.
  assert (Hin : In e (rows_of k df)).
  { apply filter_In. split; [exact He|]. rewrite Hk. now apply eqb_eq. }
  rewrite Hnil in Hin. destruct Hin.
Qed.

End Groupby.

Lemma rows_of_test (sid tt : string) (df : list KeyEvent) :
  filter (fun e => match session_test e with
                   | Some k' => key2_eqb k' (sid, tt)
                   | None => false
                   end) df
  = filter (in_test sid tt) df.
Proof. apply filter_ext. intros e. reflexivity. Qed.

Lemma rows_of_field (sid tt f : string) (df : list KeyEvent) :
  filter (fun e => match session_test_field e with
                   | Some k' => key3_eqb k' (sid, tt, f)
                   | None => false
                   end) df
  = filter (in_field sid tt f) df.
Proof.
  apply filter_ext. intros e. unfold session_test_field, in_field.
  destruct (field_name e); [reflexivity | now rewrite andb_false_r].
Qed.

Lemma session_test_field_Some (e : KeyEvent) (sid tt f : string) :
  session_test_field e = Some (sid, tt, f) <-> in_field sid tt f e = true.
Proof.
  unfold session_test_field, in_field, in_test.
  destruct (field_name e) as [f'|].
  - rewrite !andb_true_iff, !String.eqb_eq. split.
    + now intros [= -> -> ->].
    + now intros [[-> ->] ->].
  - rewrite andb_false_r. split; discriminate.
Qed.

Lemma session_test_Some (e : KeyEvent) (sid tt : string) :
  session_test e = Some (sid, tt) <-> in_test sid tt e = true.
Proof.
  unfold session_test, in_test.
  rewrite andb_true_iff, !String.eqb_eq. split.
  - now intros [= -> ->].
  - now intros [-> ->].
Qed.

Lemma in_field_in_test (sid tt f : string) (e : KeyEvent) :
  in_field sid tt f e = true -> in_test sid tt e = true.
Proof. unfold in_field. now intros [H _]%andb_true_iff. Qed.

Lemma earliest_nonempty (events : list KeyEvent) :
  events <> [] -> exists t, earliest events = Some t.
Proof.
  destruct events as [|e events]; [contradiction|].
  intros _. unfold earliest. simpl. eauto.
Qed.

(** Looking a test up in the dictionary of test start times gives the
    earliest time of its group. *)
Lemma dict_get_starts (groups : list (key2 * list KeyEvent)) (k : key2)
      (grp : list KeyEvent) (t default : Z) :
  In (k, grp) groups ->
  (forall g, In g groups -> fst g = k -> snd g = grp) ->
  arr_min (map pressed_at_ms grp) = Some t ->
  dict_get (flat_map (fun g : key2 * list KeyEvent =>
                        match arr_min (map pressed_at_ms (snd g)) with
                        | Some t' => [(fst g, t')]
                        | None => []
                        end) groups) k default
  = t.
Proof.
  intros Hin Hfun Ht. induction groups as [|g groups IH]; [destruct Hin|].
  cbn [flat_map].
  destruct (key2_eqb (fst g) k) eqn:Ek.
  - apply key2_eqb_eq in Ek.
    rewrite (Hfun g (or_introl eq_refl) Ek), Ht. cbn [app dict_get].
    rewrite Ek. assert (E : key2_eqb k k = true) by now apply key2_eqb_eq.
    now rewrite E.
  - assert (Hin' : In (k, grp) groups).
    { destruct Hin as [-> | H]; [|exact H].
      cbn [fst] in Ek. assert (E : key2_eqb k k = true) by now apply key2_eqb_eq.
      rewrite E in Ek. discriminate. }
    assert (IH' := IH Hin' (fun g' Hg' => Hfun g' (or_intror Hg'))).
    destruct (arr_min (map pressed_at_ms (snd g))) as [t'|];
      cbn [app dict_get]; [|exact IH'].
    now rewrite Ek.
Qed.

(** ** Roll-up *)

Section RollupFacts.

Variable sort_values : list string -> list KeyEvent -> list KeyEvent.
Hypothesis sort_values_perm :
  forall cols df, Permutation (sort_values cols df) df.

Lemma sorted_group_Permutation (grp : list KeyEvent) :
  Permutation (sorted_group sort_values grp) grp.
Proof. apply sort_values_perm. Qed.

Lemma earliest_sorted_group (grp : list KeyEvent) :
  arr_min (map pressed_at_ms (sorted_group sort_values grp))
  = earliest grp.
Proof.
  apply arr_min_Permutation, Permutation_map, sorted_group_Permutation.
Qed.

Lemma test_start_ms_get (df : list KeyEvent) (sid tt : string)
      (t default : Z) :
  earliest (filter (in_test sid tt) df) = Some t ->
  dict_get (test_start_ms df) (sid, tt) default = t.
Proof.
  intros Ht. unfold test_start_ms.
  assert (Hne : filter (in_test sid tt) df <> []).
  { intros E. rewrite E in Ht. discriminate. }
  apply dict_get_starts with (grp := filter (in_test sid tt) df).
  - unfold groupby_session_test.
    apply (groupby_In _ _ _ key2_eqb_eq).
    split; [|symmetry; apply rows_of_test].
    destruct (filter (in_test sid tt) df) as [|e l] eqn:E;
      [contradiction|].
    assert (He : In e (filter (in_test sid tt) df))
      by (rewrite E; now left).
    apply filter_In in He as [He1 He2].
    exists e. split; [exact He1 | now apply session_test_Some].
  - intros [k grp] Hg Hk. cbn [fst snd] in *. subst k.
    apply (groupby_In _ _ _ key2_eqb_eq) in Hg as [_ ->].
    apply rows_of_test.
  - exact Ht.
Qed.

(** The rows of the per-field table. *)
Lemma by_field_row_iff (df : list KeyEvent) (r : MetricsRow) :
  In r (compute_keystroke_metrics_by_field sort_values df) <->
  exists sid tt f gmin tmin,
    (exists e, In e df /\ in_field sid tt f e = true)
    /\ strip f <> ""
    /\ earliest (filter (in_field sid tt f) df) = Some gmin
    /\ earliest (filter (in_test sid tt) df) = Some tmin
    /\ r = (let grp := sorted_group sort_values
                                    (filter (in_field sid tt f) df) in
            field_row sid tt f grp (map snd (khd_scan grp))
                      (iki_scan None grp) (gmin - tmin)).
Proof.
  unfold compute_keystroke_metrics_by_field. rewrite in_flat_map. split.
  - intros ([[[sid tt] f] grp] & Hg & Hr). cbn [fst snd] in Hr.
    apply (groupby_In _ _ _ key3_eqb_eq) in Hg as [(e & He & Hk) ->].
    rewrite rows_of_field in Hr.
    apply session_test_field_Some in Hk.
    destruct (String.eqb_spec (strip f) "") as [|Hblank]; [destruct Hr|].
    rewrite earliest_sorted_group in Hr.
    destruct (earliest (filter (in_field sid tt f) df)) as [gmin|] eqn:Eg;
      [|destruct Hr].
    destruct Hr as [<- | []].
    destruct (earliest_nonempty (filter (in_test sid tt) df)) as [tmin Et].
    { intros E.
      assert (Hin : In e (filter (in_test sid tt) df)).
      { apply filter_In. split; [exact He|].
        now apply in_field_in_test with (f := f). }
      rewrite E in Hin. destruct Hin. }
    exists sid, tt, f, gmin, tmin.
    rewrite (test_start_ms_get df sid tt tmin gmin Et).
    repeat split; eauto.
  - intros (sid & tt & f & gmin & tmin & (e & He & Hk) & Hblank & Eg & Et & ->).
    exists (sid, tt, f, filter (in_field sid tt f) df). split.
    + apply (groupby_In _ _ _ key3_eqb_eq).
      split; [|symmetry; apply rows_of_field].
      exists e. split; [exact He | now apply session_test_field_Some].
    + cbn [fst snd].
      destruct (String.eqb_spec (strip f) ""); [contradiction|].
      rewrite earliest_sorted_group, Eg.
      rewrite (test_start_ms_get df sid tt tmin gmin Et).
      now left.
Qed.

End RollupFacts.

(** ** The sample tables [khd_df] and [iki_df] *)

Section Tagged.

Context {X Y R : Type} (tag : key2 -> Y -> R) (key_of : R -> key2)
        (f : X -> list Y).
Hypothesis key_of_tag : forall k y, key_of (tag k y) = k.

Let tagged (groups : list (key2 * X)) : list R :=
  flat_map (fun g : key2 * X => let (k, x) := g in map (tag k) (f x))
           groups.

Let select (k : key2) (rows : list R) : list R :=
  filter (fun r => key2_eqb (key_of r) k) rows.

Lemma select_same (k : key2) (ys : list Y) :
  select k (map (tag k) ys) = map (tag k) ys.
Proof.
  unfold select. induction ys as [|y ys IH]; [reflexivity|].
  cbn [map filter]. rewrite key_of_tag.
  assert (E : key2_eqb k k = true) by now apply key2_eqb_eq.
  now rewrite E, IH.
Qed.

Lemma select_other (k k' : key2) (ys : list Y) :
  k' <> k -> select k (map (tag k') ys) = [].
Proof.
  intros Hne. unfold select. induction ys as [|y ys IH]; [reflexivity|].
  cbn [map filter]. rewrite key_of_tag.
  destruct (key2_eqb k' k) eqn:E; [|exact IH].
  apply key2_eqb_eq in E. contradiction.
Qed.

Lemma select_absent (k : key2) (groups : list (key2 * X)) :
  ~ In k (map fst groups) -> select k (tagged groups) = [].
Proof.
  induction groups as [|[k' x] groups IH]; [reflexivity|].
  cbn [map fst In]. intros Hn.
  unfold tagged, select in *. cbn [flat_map]. rewrite filter_app.
  fold (select k (map (tag k') (f x))).
  rewrite select_other by (intros ->; apply Hn; now left).
  apply IH. intros H. apply Hn. now right.
Qed.

(** Selecting the rows of one group from the table of all samples gives
    back the samples of that group, in order. *)
Lemma select_tagged (k : key2) (x : X) (groups : list (key2 * X)) :
  NoDup (map fst groups) -> In (k, x) groups ->
  select k (tagged groups) = map (tag k) (f x).
Proof.
  induction groups as [|[k' x'] groups IH]; [intros _ []|].
  cbn [map fst]. intros Hnd Hin. apply NoDup_cons_iff in Hnd as [Hk' Hnd].
  unfold tagged, select in *. cbn [flat_map]. rewrite filter_app.
  fold (select k (map (tag k') (f x'))).
  destruct Hin as [[= -> ->] | Hin].
  - rewrite select_same.
    fold (tagged groups). fold (select k (tagged groups)).
    rewrite select_absent by assumption. apply app_nil_r.
  - assert (Hne : k' <> k).
    { intros ->. apply Hk'. change k with (fst (k, x)). now apply in_map. }
    rewrite select_other by assumption. now apply IH.
Qed.

End Tagged.

Section MetricsTable.

Variable sort_values : list string -> list KeyEvent -> list KeyEvent.
Hypothesis sort_values_perm :
  forall cols df, Permutation (sort_values cols df) df.

(** The table [df] as [compute_keystroke_metrics] sorts it first. *)
Let sorted_df (df : list KeyEvent) : list KeyEvent :=
  sort_values ["session_id"; "test_type"; "pressed_at"] df.

(** The per-test row of a group and the overall row of a session. *)
Let test_row (k : key2) (grp : list KeyEvent) : MetricsRow :=
  let paired := sorted_group sort_values grp in
  _agg_row (fst k) (snd k) grp (map snd (khd_scan paired))
           (iki_scan None paired).

Let overall_row (df : list KeyEvent) (sid : string) : MetricsRow :=
  let grp_all :=
    sorted_group sort_values
      (filter (fun e => (session_id e =? sid)%string) (sorted_df df)) in
  _agg_row sid "overall" grp_all (map snd (khd_scan grp_all))
           (iki_scan None grp_all).

(** Going through [khd_df] and [iki_df] gives each per-test row the
    samples of its own group. *)
Lemma compute_keystroke_metrics_eq (df : list KeyEvent) :
  compute_keystroke_metrics sort_values df
  = map (fun g : key2 * list KeyEvent => test_row (fst g) (snd g))
        (groupby_session_test (sorted_df df))
    ++ map (overall_row df) (unique String.eqb (map session_id (sorted_df df))).
Proof.
  unfold compute_keystroke_metrics. fold (sorted_df df).
  cbv zeta. f_equal.
  apply map_ext_in. intros [k grp] Hin. cbn [fst snd].
  unfold test_row. cbv zeta. f_equal.
  - change (fun r : key2 * Z * string =>
              ((fst (fst (fst r)) =? fst k)%string
               && (snd (fst (fst r)) =? snd k)%string))
      with (fun r : key2 * Z * string => key2_eqb (fst (fst r)) k).
    rewrite (select_tagged (fun k' (s : string * Z) => (k', snd s, fst s))
               (fun r : key2 * Z * string => fst (fst r))
               (fun grp' => khd_scan (sorted_group sort_values grp'))
               (fun _ _ => eq_refl) k grp).
    + rewrite map_map. reflexivity.
    + apply groupby_NoDup, key2_eqb_eq.
    + exact Hin.
  - change (fun r : key2 * Z =>
              ((fst (fst r) =? fst k)%string
               && (snd (fst r) =? snd k)%string))
      with (fun r : key2 * Z => key2_eqb (fst r) k).
    rewrite (select_tagged (fun k' (iki_ms : Z) => (k', iki_ms))
               (fun r : key2 * Z => fst r)
               (fun grp' => iki_scan None (sorted_group sort_values grp'))
               (fun _ _ => eq_refl) k grp).
    + rewrite map_map. cbn [snd]. apply map_id.
    + apply groupby_NoDup, key2_eqb_eq.
    + exact Hin.
Qed.

(** Every test with an event has its row, built from all its events. *)
Lemma per_test_row_In (df : list KeyEvent) (sid tt : string) :
  (exists e, In e df /\ in_test sid tt e = true) ->
  In (test_row (sid, tt) (filter (in_test sid tt) (sorted_df df)))
     (compute_keystroke_metrics sort_values df).
Proof.
  intros (e & He & Hk). rewrite compute_keystroke_metrics_eq.
  apply in_or_app. left. apply in_map_iff.
  exists (sid, tt, filter (in_test sid tt) (sorted_df df)).
  split; [reflexivity|].
  apply (groupby_In _ _ _ key2_eqb_eq).
  split; [|symmetry; apply rows_of_test].
  exists e. split; [|now apply session_test_Some].
  apply (Permutation_in _ (Permutation_sym (sort_values_perm _ df))), He.
Qed.

(** Every session with an event has its overall row. *)
Lemma overall_row_In (df : list KeyEvent) (sid : string) :
  (exists e, In e df /\ session_id e = sid) ->
  In (overall_row df sid) (compute_keystroke_metrics sort_values df).
Proof.
  intros (e & He & Hk). rewrite compute_keystroke_metrics_eq.
  apply in_or_app. right. apply in_map.
  apply (unique_In _ String.eqb_eq). rewrite <- Hk. apply in_map.
  apply (Permutation_in _ (Permutation_sym (sort_values_perm _ df))), He.
Qed.

Lemma test_row_n_events (df : list KeyEvent) (sid tt : string) :
  n_events (test_row (sid, tt) (filter (in_test sid tt) (sorted_df df)))
  = Z.of_nat (List.length (filter (in_test sid tt) df)).
Proof.
  unfold test_row, _agg_row. cbn [n_events]. f_equal.
  apply Permutation_length, Permutation_filter_compat, sort_values_perm.
Qed.

Lemma overall_row_n_events (df : list KeyEvent) (sid : string) :
  n_events (overall_row df sid)
  = Z.of_nat (List.length
                (filter (fun e => (session_id e =? sid)%string) df)).
Proof.
  unfold overall_row, _agg_row. cbn [n_events]. f_equal.
  rewrite (Permutation_length (sorted_group_Permutation _ sort_values_perm _)).
  apply Permutation_length, Permutation_filter_compat, sort_values_perm.
Qed.

(** The metrics table holds, for every test and every session with an
    event, a row counting all the events of that test or session. *)
Lemma metrics_rows_count_all_events (df : list KeyEvent) :
  (forall sid tt,
      (exists e, In e df /\ in_test sid tt e = true) ->
      exists r, In r (compute_keystroke_metrics sort_values df)
                /\ row_session_id r = sid /\ row_test_type r = tt
                /\ n_events r
                   = Z.of_nat (List.length (filter (in_test sid tt) df)))
  /\ (forall sid,
         (exists e, In e df /\ session_id e = sid) ->
         exists r, In r (compute_keystroke_metrics sort_values df)
                   /\ row_session_id r = sid /\ row_test_type r = "overall"
                   /\ n_events r
                      = Z.of_nat
                          (List.length
                             (filter (fun e => (session_id e =? sid)%string)
                                     df))).
Proof.
  split.
  - intros sid tt H. eexists. split; [apply per_test_row_In, H|].
    split; [reflexivity|]. split; [reflexivity|]. apply test_row_n_events.
  - intros sid H. eexists. split; [apply overall_row_In, H|].
    split; [reflexivity|]. split; [reflexivity|].
    apply overall_row_n_events.
Qed.

End MetricsTable.

(** ** Shape of the table rows *)

Lemma metrics_rows_of_group sort_values
      (Hperm : forall cols df, Permutation (sort_values cols df) df)
      (df : list KeyEvent) (r : MetricsRow) :
  In r (compute_keystroke_metrics sort_values df) -> row_of_group df r.
Proof.
  rewrite compute_keystroke_metrics_eq, in_app_iff, !in_map_iff.
  set (df' := sort_values ["session_id"; "test_type"; "pressed_at"] df).
  assert (Hdf : forall e, In e df' -> In e df).
  { intros e. apply Permutation_in, Hperm. }
  intros [([k grp] & <- & Hg) | (sid & <- & Hs)].
  - cbn [fst snd]. unfold groupby_session_test in Hg.
    pose proof (groupby_nonempty _ _ _ key2_eqb_eq _ _ _ Hg) as Hne.
    apply (groupby_In _ _ _ key2_eqb_eq) in Hg as [_ Hgrp].
    exists grp, (sorted_group sort_values grp).
    split; [exact Hne|]. split; [apply Hperm|].
    split; [|left; eauto].
    intros e He. subst grp. apply filter_In in He as [He _]. auto.
  - apply (proj1 (unique_In _ String.eqb_eq _ _)) in Hs.
    apply in_map_iff in Hs as (e & <- & He).
    set (grp := filter (fun e0 => (session_id e0 =? session_id e)%string) df').
    exists (sorted_group sort_values grp), (sorted_group sort_values grp).
    assert (Hin : In e grp).
    { apply filter_In. split; [exact He | apply String.eqb_refl]. }
    assert (Hp : Permutation (sorted_group sort_values grp) grp)
      by apply Hperm.
    split.
    { intros E.
      apply (Permutation_in _ (Permutation_sym Hp)) in Hin.
      rewrite E in Hin. destruct Hin. }
    split; [apply Permutation_refl|].
    split; [|left; eauto].
    intros e0 He0. apply (Permutation_in _ Hp) in He0.
    apply filter_In in He0 as [He0 _]. auto.
Qed.

Lemma by_field_rows_of_group sort_values
      (Hperm : forall cols df, Permutation (sort_values cols df) df)
      (df : list KeyEvent) (r : MetricsRow) :
  In r (compute_keystroke_metrics_by_field sort_values df) ->
  row_of_group df r.
Proof.
  intros H. apply (by_field_row_iff sort_values Hperm) in H
    as (sid & tt & f & gmin & tmin & (e & He & Hk) & _ & _ & _ & ->).
  cbv zeta.
  set (grp := sorted_group sort_values (filter (in_field sid tt f) df)).
  assert (Hp : Permutation grp (filter (in_field sid tt f) df))
    by apply Hperm.
  exists grp, grp. split.
  { intros E. rewrite E in Hp. apply Permutation_nil in Hp.
    assert (Hin : In e (filter (in_field sid tt f) df))
      by (apply filter_In; auto).
    rewrite Hp in Hin. destruct Hin. }
  split; [apply Permutation_refl|].
  split; [|right; eauto].
  intros e0 He0. apply (Permutation_in _ Hp) in He0.
  apply filter_In in He0 as [He0 _]. exact He0.
Qed.

Lemma table_rows_of_group sort_values
      (Hperm : forall cols df, Permutation (sort_values cols df) df)
      (df : list KeyEvent) (r : MetricsRow) :
  In r (compute_keystroke_metrics sort_values df)
  \/ In r (compute_keystroke_metrics_by_field sort_values df) ->
  row_of_group df r.
Proof.
  intros [H | H];
    [now apply (metrics_rows_of_group sort_values)
    | now apply (by_field_rows_of_group sort_values)].
Qed.

(** ** Characters per minute *)





(** ** Degenerate groups in the tables *)

Lemma _agg_row_short sid tt (grp : list KeyEvent) :
  (List.length grp < 2)%nat -> degenerate_row (_agg_row sid tt grp [] []).
Proof.
  intros H. unfold degenerate_row, _agg_row.
  cbn [duration_sec cpm mean_khd_ms sd_khd_ms cv_khd mean_iki_ms sd_iki_ms
       cv_iki pause_count_200ms pause_count_500ms].
  rewrite duration_ms_short by (now rewrite length_map).
  repeat split.
Qed.

Lemma field_row_short sid tt field lat (grp : list KeyEvent) :
  (List.length grp < 2)%nat ->
  degenerate_row (field_row sid tt field grp [] [] lat).
Proof.
  intros H. unfold degenerate_row, field_row.
  cbn [duration_sec cpm mean_khd_ms sd_khd_ms cv_khd mean_iki_ms sd_iki_ms
       cv_iki pause_count_200ms pause_count_500ms].
  rewrite duration_ms_short by (now rewrite length_map).
  repeat split.
Qed.

Lemma in_field_iff (sid tt f : string) (e : KeyEvent) :
  in_field sid tt f e = true <->
  session_id e = sid /\ test_type e = tt /\ field_name e = Some f.
Proof.
  unfold in_field, in_test. destruct (field_name e) as [f'|].
  - rewrite !andb_true_iff, !String.eqb_eq. split.
    + now intros [[-> ->] ->].
    + now intros (-> & -> & [= ->]).
  - rewrite andb_false_r. split; [discriminate | now intros (_ & _ & [=])].
Qed.

(** C4.  A degenerate group is not an error, every builder being a
    total function: (1, 2) for the rows of [_agg_row] and of the
    per-field loop, a group of fewer than two events has [duration_sec]
    0 and no [cpm], [cpm] is absent whenever [duration_sec] is 0,
    [n_events] is the number of events, an empty set of
    hold (interval) samples leaves the mean, standard deviation and
    coefficient of variation of the hold durations (intervals) absent
    and the pause counts 0, and the counts and the backspace rate of an
    empty group are 0; (3) a group of fewer than two events yields no
    hold and no interval sample; (4, 5) so the row of such a group in
    the metrics table and in the per-field table has duration 0 and all
    its statistical cells absent. *)
Theorem degenerate_group_rows :
  (forall sid tt, degenerate_spec (_agg_row sid tt))
  /\ (forall sid tt field lat,
         degenerate_spec
           (fun grp khd iki => field_row sid tt field grp khd iki lat))
  /\ (forall grp,
         (List.length grp < 2)%nat ->
         khd_scan grp = [] /\ iki_scan None grp = [])
  /\ (forall sort_values,
         (forall cols df, Permutation (sort_values cols df) df) ->
         forall df sid tt,
           (exists e, In e df /\ in_test sid tt e = true) ->
           (List.length (filter (in_test sid tt) df) < 2)%nat ->
           exists r,
             In r (compute_keystroke_metrics sort_values df)
             /\ row_session_id r = sid /\ row_test_type r = tt
             /\ n_events r
                = Z.of_nat (List.length (filter (in_test sid tt) df))
             /\ degenerate_row r)
  /\ (forall sort_values,
         (forall cols df, Permutation (sort_values cols df) df) ->
         forall df r sid tt f,
           In r (compute_keystroke_metrics_by_field sort_values df) ->
           row_session_id r = sid -> row_test_type r = tt ->
           row_field_name r = Some f ->
           (List.length (filter (in_field sid tt f) df) < 2)%nat ->
           degenerate_row r).
Proof.
  split; [exact _agg_row_degenerate|].
  split; [exact field_row_degenerate|].
  split; [intros grp H; split;
          [now apply khd_scan_short | now apply iki_scan_short]|].
  split.
  - intros sort_values Hperm df sid tt He Hlen.
    pose proof (per_test_row_In sort_values Hperm df sid tt He) as Hin.
    cbv zeta in Hin. cbn [fst snd] in Hin.
    eexists. split; [exact Hin|].
    split; [reflexivity|]. split; [reflexivity|].
    assert (Hl : forall cols,
               List.length (filter (in_test sid tt) (sort_values cols df))
               = List.length (filter (in_test sid tt) df)).
    { intros cols.
      apply Permutation_length, Permutation_filter_compat, Hperm. }
    split.
    + unfold _agg_row. cbn [n_events]. now rewrite Hl.
    + rewrite khd_scan_short, iki_scan_short.
      * apply _agg_row_short. now rewrite Hl.
      * unfold sorted_group. rewrite (Permutation_length (Hperm _ _)).
        now rewrite Hl.
      * unfold sorted_group. rewrite (Permutation_length (Hperm _ _)).
        now rewrite Hl.
  - intros sort_values Hperm df r sid tt f Hin Hs Ht Hf Hlen.
    apply (by_field_row_iff sort_values Hperm) in Hin
      as (sid' & tt' & f' & gmin & tmin & _ & _ & _ & _ & ->).
    cbv zeta in *. simpl in Hs, Ht, Hf.
    injection Hf as ->. subst sid' tt'.
    assert (Hl : (List.length
                    (sorted_group sort_values
                                  (filter (in_field sid tt f) df)) < 2)%nat).
    { unfold sorted_group. now rewrite (Permutation_length (Hperm _ _)). }
    rewrite khd_scan_short, iki_scan_short by exact Hl.
    now apply field_row_short.
Qed.

(** Scenario D: the metrics-table row of a group of exactly one event. *)
Lemma degenerate_group_rows_witness :
  exists r,
    In r (compute_keystroke_metrics stable_sort_values [down "A" 0])
    /\ row_session_id r = "s1" /\ row_test_type r = "free"
    /\ n_events r
       = Z.of_nat (List.length (filter (in_test "s1" "free") [down "A" 0]))
    /\ degenerate_row r.
Proof.
  apply (proj1 (proj2 (proj2 (proj2 degenerate_group_rows)))
               stable_sort_values stable_sort_values_Permutation
               [down "A" 0] "s1" "free").
  - exists (down "A" 0). split; [now left | reflexivity].
  - simpl. lia.
Defined.

(** ** The per-field pass *)

(** The pairer and the aggregator do not read [field_name]. *)
Lemma khd_inner_rename_fields name (k : string) (t_down : Z)
      (rest : list KeyEvent) :
  khd_inner k t_down (rename_fields name rest) = khd_inner k t_down rest.
Proof.
  induction rest as [|e rest IH]; [reflexivity|].
  cbn [rename_fields map khd_inner]. fold (rename_fields name rest).
  now rewrite IH.
Qed.

Lemma khd_scan_rename_fields name (grp : list KeyEvent) :
  khd_scan (rename_fields name grp) = khd_scan grp.
Proof.
  induction grp as [|e rest IH]; [reflexivity|].
  destruct rest as [|e' rest']; [reflexivity|].
  change (rename_fields name (e :: e' :: rest'))
    with (with_field_name (name e) e :: rename_fields name (e' :: rest')).
  change (khd_scan (with_field_name (name e) e
                    :: rename_fields name (e' :: rest')))
    with ((if is_keydown e
           then khd_inner (key e) (pressed_at_ms e)
                          (rename_fields name (e' :: rest'))
           else [])
          ++ khd_scan (rename_fields name (e' :: rest'))).
  rewrite IH, khd_inner_rename_fields. reflexivity.
Qed.

Lemma iki_scan_rename_fields name (grp : list KeyEvent)
      (last_keyup_time : option Z) :
  iki_scan last_keyup_time (rename_fields name grp)
  = iki_scan last_keyup_time grp.
Proof.
  revert last_keyup_time.
  induction grp as [|e rest IH]; intros last; [reflexivity|].
  cbn [rename_fields map iki_scan]. fold (rename_fields name rest).
  change (is_keyup (with_field_name (name e) e)) with (is_keyup e).
  change (is_keydown (with_field_name (name e) e)) with (is_keydown e).
  change (pressed_at_ms (with_field_name (name e) e))
    with (pressed_at_ms e).
  now rewrite !IH.
Qed.

Lemma _agg_row_rename_fields name sid tt (grp : list KeyEvent)
      (khd_s iki_s : list Z) :
  _agg_row sid tt (rename_fields name grp) khd_s iki_s
  = _agg_row sid tt grp khd_s iki_s.
Proof.
  unfold _agg_row, count_keydowns, count_backspace, rename_fields.
  rewrite !map_map, length_map. reflexivity.
Qed.

(** The per-field table has a row for a field exactly when an event
    carries its name and the name does not strip to the empty string. *)
Lemma by_field_row_exists_iff sort_values
      (Hperm : forall cols df, Permutation (sort_values cols df) df)
      (df : list KeyEvent) (sid tt f : string) :
  (exists r,
      In r (compute_keystroke_metrics_by_field sort_values df)
      /\ row_session_id r = sid /\ row_test_type r = tt
      /\ row_field_name r = Some f)
  <-> (exists e, In e df /\ session_id e = sid /\ test_type e = tt
                 /\ field_name e = Some f)
      /\ strip f <> "".
Proof.
  split.
  - intros (r & Hin & Hs & Ht & Hf).
    apply (by_field_row_iff sort_values Hperm) in Hin
      as (sid' & tt' & f' & gmin & tmin & (e & He & Hk) & Hblank & _ & _ & ->).
    cbv zeta in *. simpl in Hs, Ht, Hf.
    injection Hf as ->. subst sid' tt'.
    split; [|exact Hblank].
    exists e. split; [exact He | now apply in_field_iff].
  - intros [(e & He & Hk) Hblank].
    assert (Hk' : in_field sid tt f e = true)
      by now apply in_field_iff.
    destruct (earliest_nonempty (filter (in_field sid tt f) df))
      as [gmin Eg].
    { intros E. assert (Hin : In e (filter (in_field sid tt f) df))
        by (apply filter_In; auto).
      rewrite E in Hin. destruct Hin. }
    destruct (earliest_nonempty (filter (in_test sid tt) df)) as [tmin Et].
    { intros E. assert (Hin : In e (filter (in_test sid tt) df)).
      { apply filter_In. split; [exact He|].
        now apply in_field_in_test with (f := f). }
      rewrite E in Hin. destruct Hin. }
    eexists. split.
    + apply (by_field_row_iff sort_values Hperm).
      exists sid, tt, f, gmin, tmin.
      split; [now exists e|]. repeat split; eauto.
    + cbv zeta. repeat split.
Qed.

(** C7.  Given that sorting rearranges rows: (1) the per-field table has
    a row for session [sid], test [tt] and field [f] exactly when some
    event carries that field name and [f] does not strip to the empty
    string, so events whose field name is missing or blank produce no
    per-field row; (2) every per-field row has such a name; (3) the
    events of such fields are included in the per-test pass as any
    other: for every test with an event the metrics table holds the row
    that [_agg_row] builds from the group [grp] of all the events of
    that test, whatever their field names, and from the hold and
    interval samples of the pairer on that group sorted by time; its
    [n_events] counts all these events, and the row is the same under
    any other field names of the events; (4) likewise the overall row
    of every session with an event is built from all the events of the
    session. *)
Theorem per_field_pass_skips_blank_fields :
  forall sort_values,
    (forall cols df, Permutation (sort_values cols df) df) ->
    forall df,
      (forall sid tt f,
          (exists r,
              In r (compute_keystroke_metrics_by_field sort_values df)
              /\ row_session_id r = sid /\ row_test_type r = tt
              /\ row_field_name r = Some f)
          <-> (exists e, In e df /\ session_id e = sid /\ test_type e = tt
                         /\ field_name e = Some f)
              /\ strip f <> "")
      /\ (forall r,
             In r (compute_keystroke_metrics_by_field sort_values df) ->
             exists f, row_field_name r = Some f /\ strip f <> "")
      /\ (forall sid tt,
             (exists e, In e df /\ in_test sid tt e = true) ->
             exists r,
               In r (compute_keystroke_metrics sort_values df)
               /\ row_session_id r = sid /\ row_test_type r = tt
               /\ n_events r
                  = Z.of_nat (List.length (filter (in_test sid tt) df))
               /\ (let grp :=
                     filter (in_test sid tt)
                            (sort_values
                               ["session_id"; "test_type"; "pressed_at"]
                               df) in
                   let paired := sorted_group sort_values grp in
                   Permutation grp (filter (in_test sid tt) df)
                   /\ Permutation paired grp
                   /\ r = _agg_row sid tt grp (map snd (khd_scan paired))
                                   (iki_scan None paired)
                   /\ forall name,
                        r = _agg_row sid tt (rename_fields name grp)
                              (map snd (khd_scan (rename_fields name paired)))
                              (iki_scan None (rename_fields name paired))))
      /\ (forall sid,
             (exists e, In e df /\ session_id e = sid) ->
             exists r,
               In r (compute_keystroke_metrics sort_values df)
               /\ row_session_id r = sid /\ row_test_type r = "overall"
               /\ n_events r
                  = Z.of_nat
                      (List.length
                         (filter (fun e => (session_id e =? sid)%string)
                                 df))
               /\ (let grp_all :=
                     sorted_group sort_values
                       (filter (fun e => (session_id e =? sid)%string)
                               (sort_values
                                  ["session_id"; "test_type"; "pressed_at"]
                                  df)) in
                   Permutation grp_all
                     (filter (fun e => (session_id e =? sid)%string) df)
                   /\ r = _agg_row sid "overall" grp_all
                                   (map snd (khd_scan grp_all))
                                   (iki_scan None grp_all)
                   /\ forall name,
                        r = _agg_row sid "overall"
                              (rename_fields name grp_all)
                              (map snd (khd_scan (rename_fields name grp_all)))
                              (iki_scan None (rename_fields name grp_all)))).
Proof.
  intros sort_values Hperm df.
  split; [intros sid tt f; apply (by_field_row_exists_iff sort_values Hperm)|].
  split.
  { intros r Hin.
    apply (by_field_row_iff sort_values Hperm) in Hin
      as (sid & tt & f & gmin & tmin & _ & Hblank & _ & _ & ->).
    exists f. split; [reflexivity | exact Hblank]. }
  split.
  - intros sid tt H.
    pose proof (per_test_row_In sort_values Hperm df sid tt H) as Hin.
    pose proof (test_row_n_events sort_values Hperm df sid tt) as Hn.
    cbv zeta in Hin, Hn. cbn [fst snd] in Hin, Hn.
    eexists. split; [exact Hin|].
    split; [reflexivity|]. split; [reflexivity|].
    split; [exact Hn|]. cbv zeta.
    split; [apply Permutation_filter_compat, Hperm|].
    split; [apply Hperm|]. split; [reflexivity|].
    intros name.
    now rewrite _agg_row_rename_fields, khd_scan_rename_fields,
      iki_scan_rename_fields.
  - intros sid H.
    pose proof (overall_row_In sort_values Hperm df sid H) as Hin.
    pose proof (overall_row_n_events sort_values Hperm df sid) as Hn.
    cbv zeta in Hin, Hn.
    eexists. split; [exact Hin|].
    split; [reflexivity|]. split; [reflexivity|].
    split; [exact Hn|]. cbv zeta.
    split.
    { eapply Permutation_trans; [apply Hperm|].
      apply Permutation_filter_compat, Hperm. }
    split; [reflexivity|].
    intros name.
    now rewrite _agg_row_rename_fields, khd_scan_rename_fields,
      iki_scan_rename_fields.
Qed.

(** Scenario E on [fields_table]: the field named by two spaces has no
    per-field row, while the per-test row is built from all six events:
    it counts the three keydowns and averages the three holds of 40, 80
    and 90 milliseconds, those of the blank and of the missing field
    included. *)
Lemma per_field_pass_skips_blank_fields_witness :
  ~ (exists r,
        In r (compute_keystroke_metrics_by_field stable_sort_values
                                                 fields_table)
        /\ row_session_id r = "s1" /\ row_test_type r = "free"
        /\ row_field_name r = Some "  ")
  /\ exists r,
      In r (compute_keystroke_metrics stable_sort_values fields_table)
      /\ row_session_id r = "s1" /\ row_test_type r = "free"
      /\ n_events r = 6 /\ n_keydowns r = 3
      /\ mean_khd_ms r = Some (210 # 3)%Q.
Proof.
  destruct (per_field_pass_skips_blank_fields
              stable_sort_values stable_sort_values_Permutation fields_table)
    as (Hiff & _ & Htest & _).
  split.
  - intros H. apply (Hiff "s1" "free" "  ") in H as [_ Hblank].
    apply Hblank. reflexivity.
  - destruct (Htest "s1" "free") as (r & Hin & Hs & Ht & Hn & _ & _ & Hr & _).
    { exists (ev None "keydown" "x" 0). split; [now left | reflexivity]. }
    exists r. split; [exact Hin|]. split; [exact Hs|]. split; [exact Ht|].
    split; [exact Hn|]. rewrite Hr. split; reflexivity.
Defined.

(** ** First-key latency *)

Lemma earliest_subset (a b : list KeyEvent) (x y : Z) :
  (forall e, In e a -> In e b) ->
  earliest a = Some x -> earliest b = Some y -> y <= x.
Proof.
  unfold earliest. intros Hsub Ha Hb.
  apply arr_min_spec in Ha as [Hx _]. apply arr_min_spec in Hb as [_ Hy].
  apply Hy. apply in_map_iff in Hx as (e & <- & He).
  apply in_map, Hsub, He.
Qed.

Lemma field_events_in_test (sid tt f : string) (df : list KeyEvent)
      (e : KeyEvent) :
  In e (filter (in_field sid tt f) df) -> In e (filter (in_test sid tt) df).
Proof.
  rewrite !filter_In. intros [H1 H2]. split; [exact H1|].
  now apply in_field_in_test with (f := f).
Qed.

(** C8.  Given that sorting rearranges rows: in every row of the
    per-field table, [first_key_latency_ms] is the earliest event time of
    the row's field group minus the earliest event time over all events
    of the enclosing test, with no clamping; the test's earliest time is
    what the dictionary built once from the whole table holds for that
    test. *)
Theorem first_key_latency_from_test_start :
  forall sort_values,
    (forall cols df, Permutation (sort_values cols df) df) ->
    forall df r,
      In r (compute_keystroke_metrics_by_field sort_values df) ->
      exists sid tt f gmin tmin,
        row_session_id r = sid /\ row_test_type r = tt
        /\ row_field_name r = Some f
        /\ earliest (filter (in_field sid tt f) df) = Some gmin
        /\ earliest (filter (in_test sid tt) df) = Some tmin
        /\ (forall default,
               dict_get (test_start_ms df) (sid, tt) default = tmin)
        /\ first_key_latency_ms r = Some (gmin - tmin).
Proof.
  intros sort_values Hperm df r Hin.
  apply (by_field_row_iff sort_values Hperm) in Hin
    as (sid & tt & f & gmin & tmin & _ & _ & Eg & Et & ->).
  exists sid, tt, f, gmin, tmin.
  repeat split; auto.
  intros default. now apply test_start_ms_get.
Qed.

(** The row of field [q1] in [fields_table]: its first key comes at 500
    ms, the test starts at 0 ms. *)
Lemma first_key_latency_from_test_start_witness :
  exists sid tt f gmin tmin,
    row_session_id
      (field_row "s1" "free" "q1"
                 [ev (Some "q1") "keydown" "a" 500;
                  ev (Some "q1") "keyup" "a" 580] [80] [] 500) = sid
    /\ row_test_type
         (field_row "s1" "free" "q1"
                    [ev (Some "q1") "keydown" "a" 500;
                     ev (Some "q1") "keyup" "a" 580] [80] [] 500) = tt
    /\ row_field_name
         (field_row "s1" "free" "q1"
                    [ev (Some "q1") "keydown" "a" 500;
                     ev (Some "q1") "keyup" "a" 580] [80] [] 500) = Some f
    /\ earliest (filter (in_field sid tt f) fields_table) = Some gmin
    /\ earliest (filter (in_test sid tt) fields_table) = Some tmin
    /\ (forall default,
           dict_get (test_start_ms fields_table) (sid, tt) default = tmin)
    /\ first_key_latency_ms
         (field_row "s1" "free" "q1"
                    [ev (Some "q1") "keydown" "a" 500;
                     ev (Some "q1") "keyup" "a" 580] [80] [] 500)
       = Some (gmin - tmin).
Proof.
  apply (first_key_latency_from_test_start
           stable_sort_values stable_sort_values_Permutation fields_table).
  vm_compute. left. reflexivity.
Defined.

(** C10.  Given that sorting rearranges rows: in every row of the
    per-field table [first_key_latency_ms] is non-negative, the events of
    a field group being among the events of its test, over which the
    test's earliest time is taken. *)
Theorem first_key_latency_nonneg :
  forall sort_values,
    (forall cols df, Permutation (sort_values cols df) df) ->
    forall df r,
      In r (compute_keystroke_metrics_by_field sort_values df) ->
      exists latency,
        first_key_latency_ms r = Some latency /\ 0 <= latency.
Proof.
  intros sort_values Hperm df r Hin.
  apply (by_field_row_iff sort_values Hperm) in Hin
    as (sid & tt & f & gmin & tmin & _ & _ & Eg & Et & ->).
  exists (gmin - tmin). split; [reflexivity|].
  pose proof (earliest_subset _ _ gmin tmin
                (field_events_in_test sid tt f df) Eg Et).
  lia.
Qed.

(** The row of field [q1] in [fields_table]. *)
Lemma first_key_latency_nonneg_witness :
  exists latency,
    first_key_latency_ms
      (field_row "s1" "free" "q1"
                 [ev (Some "q1") "keydown" "a" 500;
                  ev (Some "q1") "keyup" "a" 580] [80] [] 500)
    = Some latency
    /\ 0 <= latency.
Proof.
  apply (first_key_latency_nonneg
           stable_sort_values stable_sort_values_Permutation fields_table).
  vm_compute. left. reflexivity.
Defined.

(** ** Standard deviations *)

Lemma surd_value_lt (a b : Surd) :
  (0 <= radicand a)%Q -> (radicand a < radicand b)%Q ->
  (surd_value a < surd_value b)%R.
Proof.
  intros H0 Hlt. unfold surd_value. apply sqrt_lt_1_alt. split.
  - replace 0%R with (Q2R 0) by (unfold Q2R; simpl; field).
    now apply Qle_Rle.
  - now apply Qlt_Rlt.
Qed.

(** [surd_div] is the division of the value by a positive rational. *)
Lemma surd_div_value (s : Surd) (m : Q) :
  (0 < m)%Q ->
  surd_value (surd_div s m) = (surd_value s / Q2R m)%R.
Proof.
  intros Hm. unfold surd_value, surd_div. cbn [radicand].
  assert (Hm' : (0 < Q2R m)%R).
  { replace 0%R with (Q2R 0) by (unfold Q2R; simpl; field).
    now apply Qlt_Rlt. }
  assert (Hmm : ~ (m * m == 0)%Q) by nra.
  rewrite Q2R_div, Q2R_mult by exact Hmm.
  rewrite sqrt_div_alt by nra.
  rewrite sqrt_square by lra. reflexivity.
Qed.

(** The squared deviations about [m], as [sum_sq_dev] adds them. *)
Lemma sq_dev_nonneg (m : Q) (s : list Z) :
  (0 <= fold_right (fun x acc =>
                      (inject_Z x - m) * (inject_Z x - m) + acc) 0 s)%Q.
Proof.
  induction s as [|x s IH]; cbn [fold_right]; [apply Qle_refl|].
  set (acc := fold_right _ _ _) in *. set (d := (inject_Z x - m)%Q). nra.
Qed.

Lemma sq_dev_ge_term (m : Q) (s : list Z) (x : Z) :
  In x s ->
  ((inject_Z x - m) * (inject_Z x - m)
   <= fold_right (fun x acc =>
                    (inject_Z x - m) * (inject_Z x - m) + acc) 0 s)%Q.
Proof.
  induction s as [|a s IH]; [intros []|].
  cbn [fold_right]. pose proof (sq_dev_nonneg m s) as Hacc.
  set (acc := fold_right _ _ _) in *.
  intros [-> | Hin].
  - set (d := (inject_Z x - m)%Q). nra.
  - specialize (IH Hin).
    set (d := (inject_Z x - m)%Q) in *. set (d' := (inject_Z a - m)%Q). nra.
Qed.

Lemma sum_sq_dev_nonneg (s : list Z) : (0 <= sum_sq_dev s)%Q.
Proof. apply sq_dev_nonneg. Qed.

(** Two different samples make the sum of squared deviations positive. *)
Lemma sum_sq_dev_pos (s : list Z) (x y : Z) :
  In x s -> In y s -> x <> y -> (0 < sum_sq_dev s)%Q.
Proof.
  intros Hx Hy Hne.
  pose proof (sq_dev_ge_term (mean s) s x Hx) as Hx'.
  pose proof (sq_dev_ge_term (mean s) s y Hy) as Hy'.
  fold (sum_sq_dev s) in Hx', Hy'.
  assert (Hxy : ~ (inject_Z x == inject_Z y)%Q).
  { unfold Qeq, inject_Z. simpl. lia. }
  set (v := sum_sq_dev s) in *. set (m := mean s) in *.
  set (a := inject_Z x) in *. set (b := inject_Z y) in *.
  destruct (Q_dec a m) as [[H | H] | H]; nra.
Qed.

Lemma two_samples_length (s : list Z) (x y : Z) :
  In x s -> In y s -> x <> y -> (2 <= List.length s)%nat.
Proof.
  destruct s as [|a [|b s]]; simpl; lia.
Qed.

Lemma std_ddof_radicands (s : list Z) :
  (2 <= List.length s)%nat ->
  pandas_std s
  = Some (SqrtOf (sum_sq_dev s
                  / inject_Z (Z.of_nat (List.length s) - 1)))
  /\ numpy_std s
     = Some (SqrtOf (sum_sq_dev s
                     / inject_Z (Z.of_nat (List.length s) - 0))).
Proof.
  intros H. unfold pandas_std, numpy_std, std_ddof. cbv zeta.
  destruct (Z.leb_spec (Z.of_nat (List.length s) - 1) 0); [lia|].
  destruct (Z.leb_spec (Z.of_nat (List.length s) - 0) 0); [lia|].
  split; reflexivity.
Qed.

(** Dividing a positive sum by [n] gives less than dividing it by
    [n - 1]. *)
Lemma div_by_n_lt_div_by_pred (v : Q) (n : Z) :
  (0 < v)%Q -> 2 <= n ->
  (v / inject_Z (n - 0) < v / inject_Z (n - 1))%Q.
Proof.
  intros Hv Hn. unfold Qdiv. apply Qmult_lt_l; [exact Hv|].
  assert (Ha : (inject_Z 0 < inject_Z (n - 1))%Q)
    by (rewrite <- Zlt_Qlt; lia).
  assert (Hb : (inject_Z 0 < inject_Z (n - 0))%Q)
    by (rewrite <- Zlt_Qlt; lia).
  apply (proj1 (Qinv_lt_contravar _ _ Ha Hb)).
  rewrite <- Zlt_Qlt. lia.
Qed.

(** With at least two different samples the sample standard deviation
    is strictly above the population one. *)
Lemma pandas_std_above_numpy_std (s : list Z) (x y : Z) :
  In x s -> In y s -> x <> y ->
  exists p q,
    pandas_std s = Some p /\ numpy_std s = Some q
    /\ (0 <= radicand q)%Q /\ (radicand q < radicand p)%Q.
Proof.
  intros Hx Hy Hne.
  pose proof (two_samples_length s x y Hx Hy Hne) as Hlen.
  destruct (std_ddof_radicands s Hlen) as [Hp Hq].
  do 2 eexists. split; [exact Hp|]. split; [exact Hq|].
  cbn [radicand].
  pose proof (sum_sq_dev_pos s x y Hx Hy Hne) as Hpos.
  split.
  - apply Qlt_le_weak.
    apply Qlt_shift_div_l;
      [change 0%Q with (inject_Z 0); rewrite <- Zlt_Qlt; lia | nra].
  - apply div_by_n_lt_div_by_pred; [exact Hpos | lia].
Qed.

Lemma Qltb_lt (x y : Q) : Qltb x y = true <-> (x < y)%Q.
Proof.
  unfold Qltb. rewrite negb_true_iff, <- not_true_iff_false, Qle_bool_iff.
  split; [apply Qnot_le_lt | apply Qlt_not_le].
Qed.

Lemma Q2R_0 : Q2R 0 = 0%R.
Proof. unfold Q2R. simpl. field. Qed.

Lemma single_sample_std (x : Z) :
  pandas_std [x] = None
  /\ exists q, numpy_std [x] = Some q /\ (radicand q == 0)%Q
               /\ surd_value q = 0%R.
Proof.
  split; [reflexivity|].
  eexists. split; [reflexivity|].
  assert (H : (radicand
                 (SqrtOf (sum_sq_dev [x]
                          / inject_Z (Z.of_nat (List.length [x]) - 0)))
               == 0)%Q).
  { cbn [radicand]. unfold sum_sq_dev, mean, zsum. cbn.
    rewrite Z.add_0_r. change (inject_Z 1) with 1%Q. field. }
  split; [exact H|].
  unfold surd_value. rewrite (Qeq_eqR _ _ H), Q2R_0. apply sqrt_0.
Qed.

Lemma sd_cells_differ (s : list Z) (x y : Z) :
  In x s -> In y s -> x <> y ->
  exists p q,
    sd_cell pandas_std s = Some p /\ sd_cell numpy_std s = Some q
    /\ (surd_value q < surd_value p)%R.
Proof.
  intros Hx Hy Hne.
  destruct (pandas_std_above_numpy_std s x y Hx Hy Hne)
    as (p & q & Hp & Hq & H0 & Hlt).
  exists p, q. unfold sd_cell.
  destruct s as [|a s]; [destruct Hx|]. cbn [nonempty].
  split; [exact Hp|]. split; [exact Hq|]. now apply surd_value_lt.
Qed.

Lemma cv_cells_differ (s : list Z) (x y : Z) :
  In x s -> In y s -> x <> y -> (0 < mean s)%Q ->
  exists p q,
    cv_cell pandas_std s = Some p /\ cv_cell numpy_std s = Some q
    /\ (surd_value q < surd_value p)%R.
Proof.
  intros Hx Hy Hne Hm.
  destruct (pandas_std_above_numpy_std s x y Hx Hy Hne)
    as (p & q & Hp & Hq & H0 & Hlt).
  exists (surd_div p (mean s)), (surd_div q (mean s)). unfold cv_cell.
  rewrite (proj2 (Qltb_lt 0 (mean s)) Hm), Hp, Hq.
  destruct s as [|a s]; [destruct Hx|]. cbn [nonempty andb].
  split; [reflexivity|]. split; [reflexivity|].
  rewrite !surd_div_value by exact Hm.
  pose proof (surd_value_lt q p H0 Hlt) as Hv.
  assert (Hm' : (0 < Q2R (mean (a :: s)))%R).
  { rewrite <- Q2R_0. now apply Qlt_Rlt. }
  unfold Rdiv. apply Rmult_lt_compat_r; [|exact Hv].
  now apply Rinv_0_lt_compat.
Qed.

(** C9.  The two tables estimate dispersion differently.  (1) The cells
    of [_agg_row] use the pandas standard deviation and those of the
    per-field row the numpy one, on the same samples, while the means
    agree.  (2) pandas divides the sum of squared deviations by [n - 1]
    and numpy by [n].  (3) For a single sample the pandas value is absent
    and the numpy value is 0.  (4, 5) As soon as two samples differ, the
    pandas standard deviation is strictly above the numpy one, and so is
    the coefficient of variation when the mean is positive.  (6, 7) Hence
    the [sd_khd_ms] and [sd_iki_ms] cells of the two rows differ for such
    samples, and for a single sample; the two aggregations are not the
    same function. *)
Theorem sample_vs_population_sd :
  (forall sid tt field grp khd iki lat,
      let a := _agg_row sid tt grp khd iki in
      let b := field_row sid tt field grp khd iki lat in
      sd_khd_ms a = sd_cell pandas_std khd
      /\ sd_khd_ms b = sd_cell numpy_std khd
      /\ cv_khd a = cv_cell pandas_std khd
      /\ cv_khd b = cv_cell numpy_std khd
      /\ sd_iki_ms a = sd_cell pandas_std iki
      /\ sd_iki_ms b = sd_cell numpy_std iki
      /\ cv_iki a = cv_cell pandas_std iki
      /\ cv_iki b = cv_cell numpy_std iki
      /\ mean_khd_ms a = mean_khd_ms b
      /\ mean_iki_ms a = mean_iki_ms b)
  /\ (forall s,
         (2 <= List.length s)%nat ->
         pandas_std s
         = Some (SqrtOf (sum_sq_dev s
                         / inject_Z (Z.of_nat (List.length s) - 1)))
         /\ numpy_std s
            = Some (SqrtOf (sum_sq_dev s
                            / inject_Z (Z.of_nat (List.length s) - 0))))
  /\ (forall x,
         pandas_std [x] = None
         /\ exists q, numpy_std [x] = Some q /\ (radicand q == 0)%Q
                      /\ surd_value q = 0%R)
  /\ (forall s x y,
         In x s -> In y s -> x <> y ->
         exists p q,
           sd_cell pandas_std s = Some p /\ sd_cell numpy_std s = Some q
           /\ (surd_value q < surd_value p)%R)
  /\ (forall s x y,
         In x s -> In y s -> x <> y -> (0 < mean s)%Q ->
         exists p q,
           cv_cell pandas_std s = Some p /\ cv_cell numpy_std s = Some q
           /\ (surd_value q < surd_value p)%R)
  /\ (forall sid tt field grp khd iki lat x y,
         (In x khd /\ In y khd /\ x <> y ->
          sd_khd_ms (_agg_row sid tt grp khd iki)
          <> sd_khd_ms (field_row sid tt field grp khd iki lat))
         /\ (In x iki /\ In y iki /\ x <> y ->
             sd_iki_ms (_agg_row sid tt grp khd iki)
             <> sd_iki_ms (field_row sid tt field grp khd iki lat)))
  /\ (forall sid tt field grp iki lat x,
         sd_khd_ms (_agg_row sid tt grp [x] iki) = None
         /\ sd_khd_ms (field_row sid tt field grp [x] iki lat) <> None
         /\ _agg_row sid tt grp [x] iki
            <> field_row sid tt field grp [x] iki lat).
Proof.
  split; [intros; repeat split|].
  split; [exact std_ddof_radicands|].
  split; [exact single_sample_std|].
  split; [exact sd_cells_differ|].
  split; [exact cv_cells_differ|].
  split.
  - intros sid tt field grp khd iki lat x y. split.
    + intros (Hx & Hy & Hne).
      destruct (sd_cells_differ khd x y Hx Hy Hne) as (p & q & Hp & Hq & Hlt).
      unfold _agg_row, field_row. cbn [sd_khd_ms]. rewrite Hp, Hq.
      intros [= ->]. lra.
    + intros (Hx & Hy & Hne).
      destruct (sd_cells_differ iki x y Hx Hy Hne) as (p & q & Hp & Hq & Hlt).
      unfold _agg_row, field_row. cbn [sd_iki_ms]. rewrite Hp, Hq.
      intros [= ->]. lra.
  - intros sid tt field grp iki lat x.
    split; [reflexivity|]. split; [discriminate|].
    intros H. apply (f_equal sd_khd_ms) in H. discriminate.
Qed.

(** The hold samples 100 and 140: the pandas cell is the square root of
    800, the numpy cell that of 400. *)
Lemma sample_vs_population_sd_witness :
  exists p q,
    sd_cell pandas_std [100; 140] = Some p
    /\ sd_cell numpy_std [100; 140] = Some q
    /\ (surd_value q < surd_value p)%R.
Proof.
  apply (proj1 (proj2 (proj2 (proj2 sample_vs_population_sd)))
               [100; 140] 100 140).
  - simpl. auto.
  - simpl. auto.
  - lia.
Defined.

(** * Further properties *)

(** ** How many samples the pairer emits *)

Lemma hold_sample_length (d : KeyEvent) (post : list KeyEvent) :
  (List.length (hold_sample d post)
   <= if first_is_keyup (key d) post then 1 else 0)%nat.
Proof.
  unfold hold_sample, first_is_keyup.
  destruct (find (same_key_event (key d)) post) as [u|]; [|simpl; lia].
  cbv zeta. destruct (is_keyup u); simpl; [|lia].
  destruct (_ && _); simpl; lia.
Qed.

Lemma hold_sample_key (d : KeyEvent) (post : list KeyEvent) (s : string * Z) :
  In s (hold_sample d post) -> fst s = key d.
Proof.
  intros H. apply hold_sample_In in H
    as (mid & u & post' & _ & _ & _ & _ & -> & _).
  reflexivity.
Qed.

Lemma samples_of_hold_other (k : string) (d : KeyEvent)
      (post : list KeyEvent) :
  key d <> k -> samples_of k (hold_sample d post) = [].
Proof.
  intros Hne. unfold samples_of.
  destruct (filter _ (hold_sample d post)) as [|s l] eqn:E; [reflexivity|].
  assert (Hin : In s (filter (fun s => (fst s =? k)%string)
                             (hold_sample d post)))
    by (rewrite E; now left).
  apply filter_In in Hin as [H1 H2]. apply String.eqb_eq in H2.
  apply hold_sample_key in H1. congruence.
Qed.

(** For each key, the hold samples are no more than its keydowns and no
    more than its keyups. *)
Lemma samples_of_khd_scan_le (k : string) (grp : list KeyEvent) :
  (List.length (samples_of k (khd_scan grp))
   <= List.length (keydowns_of k grp))%nat
  /\ (List.length (samples_of k (khd_scan grp))
      + (if first_is_keyup k grp then 1 else 0)
      <= List.length (keyups_of k grp))%nat.
Proof.
  induction grp as [|d post [IH1 IH2]]; [simpl; lia|].
  rewrite khd_scan_cons. unfold samples_of in *.
  rewrite filter_app, length_app.
  unfold keydowns_of, keyups_of, first_is_keyup in *. cbn [filter find].
  assert (Hd : same_key_event k d
               = (key d =? k)%string && (is_keyup d || is_keydown d))
    by reflexivity.
  rewrite Hd. clear Hd.
  destruct (String.eqb_spec (key d) k) as [Hk | Hk].
  - (* an event of key [k] *)
    subst k. rewrite !andb_true_r. cbn [andb].
    pose proof (filter_length_le (fun s => (fst s =? key d)%string)
                                 (hold_sample d post)) as Hf.
    pose proof (hold_sample_length d post) as Hh.
    unfold first_is_keyup in Hh.
    destruct (is_keyup d) eqn:Eu; destruct (is_keydown d) eqn:Ed;
      cbn [orb List.length app filter] in *; rewrite ?Eu;
      try (rewrite (keydown_not_keyup _ Ed) in Eu; discriminate);
      destruct (find (same_key_event (key d)) post) as [u|];
      try destruct (is_keyup u); simpl in *; lia.
  - (* an event of another key *)
    rewrite !andb_false_r. cbn [andb].
    assert (Hs : filter (fun s => (fst s =? k)%string)
                        (if is_keydown d then hold_sample d post else [])
                 = []).
    { destruct (is_keydown d); [|reflexivity].
      now apply samples_of_hold_other. }
    rewrite Hs. simpl. split; lia.
Qed.

Lemma khd_scan_length_le_keydowns (grp : list KeyEvent) :
  (List.length (khd_scan grp) <= List.length (filter is_keydown grp))%nat.
Proof.
  induction grp as [|d post IH]; [simpl; lia|].
  rewrite khd_scan_cons, length_app. cbn [filter].
  pose proof (hold_sample_length d post).
  destruct (is_keydown d); cbn [List.length].
  - destruct (first_is_keyup (key d) post); lia.
  - simpl. lia.
Qed.

(** X1.  Every hold sample lies strictly between 0 and 2000 ms; for each
    key the number of its hold samples is at most the number of its
    keydowns and at most the number of its keyups; in all there are at
    most as many hold samples as keydowns. *)
Theorem khd_scan_samples_bounded (grp : list KeyEvent) :
  (forall k d, In (k, d) (khd_scan grp) -> 0 < d < 2000)
  /\ (forall k,
         (List.length (samples_of k (khd_scan grp))
          <= List.length (keydowns_of k grp))%nat
         /\ (List.length (samples_of k (khd_scan grp))
             <= List.length (keyups_of k grp))%nat)
  /\ (List.length (khd_scan grp)
      <= List.length (filter is_keydown grp))%nat.
Proof.
  split; [|split].
  - intros k d H. apply khd_scan_In in H
      as (pre & d0 & mid & u & post & _ & _ & _ & _ & _ & [= _ ->] & Hr).
    exact Hr.
  - intros k. destruct (samples_of_khd_scan_le k grp) as [H1 H2].
    split; [exact H1|].
    destruct (first_is_keyup k grp); lia.
  - apply khd_scan_length_le_keydowns.
Qed.

(** The sample of [overlapping_holds] for key B. *)
Lemma khd_scan_samples_bounded_witness : 0 < 110 < 2000.
Proof.
  apply (proj1 (khd_scan_samples_bounded overlapping_holds) "B" 110).
  vm_compute. auto.
Defined.

(** ** How many samples the interval scan emits *)

Lemma iki_scan_length_le (st : option Z) (grp : list KeyEvent) :
  (List.length (iki_scan st grp) <= List.length (filter is_keydown grp))%nat
  /\ (List.length (iki_scan st grp)
      <= List.length (filter is_keyup grp)
         + match st with Some _ => 1 | None => 0 end)%nat.
Proof.
  revert st. induction grp as [|e grp IH]; intros st.
  - simpl. split; lia.
  - destruct (is_keyup e) eqn:Eu.
    + rewrite iki_scan_keyup by assumption. cbn [filter]. rewrite Eu.
      destruct (IH (Some (pressed_at_ms e))) as [H1 H2].
      destruct (is_keydown e); simpl in *; split; lia.
    + destruct (is_keydown e) eqn:Ed.
      * cbn [filter]. rewrite Eu, Ed. destruct (IH None) as [H1 H2].
        destruct st as [t|].
        -- rewrite iki_scan_keydown_pending by assumption.
           rewrite length_app. cbv zeta.
           destruct (_ && _); simpl in *; split; lia.
        -- rewrite iki_scan_keydown_idle by assumption.
           simpl in *. split; lia.
      * rewrite iki_scan_other by assumption. cbn [filter].
        rewrite Eu, Ed. apply IH.
Qed.

(** X2.  Every interval sample lies strictly between 0 and 5000 ms, and
    a group yields at most as many interval samples as it has keyups
    and at most as many as it has keydowns. *)
Theorem iki_scan_samples_bounded (grp : list KeyEvent) :
  (forall g, In g (iki_scan None grp) -> 0 < g < 5000)
  /\ (List.length (iki_scan None grp)
      <= List.length (filter is_keyup grp))%nat
  /\ (List.length (iki_scan None grp)
      <= List.length (filter is_keydown grp))%nat.
Proof.
  split; [|split].
  - intros g H. apply iki_scan_In in H
      as [(t & mid & d & post & [=] & _)
         | (pre & u & mid & d & post & _ & _ & _ & _ & _ & Hr)].
    exact Hr.
  - destruct (iki_scan_length_le None grp) as [_ H]. lia.
  - apply iki_scan_length_le.
Qed.

(** The interval of scenario C. *)
Lemma iki_scan_samples_bounded_witness : 0 < 30 < 5000.
Proof.
  apply (proj1 (iki_scan_samples_bounded scenario_C) 30).
  vm_compute. auto.
Defined.

(** ** Pairing is independent across keys and blind to other events *)

Lemma find_filter_implied {A : Type} (p q : A -> bool) (l : list A) :
  (forall x, p x = true -> q x = true) ->
  find p (filter q l) = find p l.
Proof.
  intros Hpq. induction l as [|x l IH]; [reflexivity|].
  cbn [filter find]. destruct (p x) eqn:Ep.
  - rewrite (Hpq x Ep). cbn [find]. now rewrite Ep.
  - destruct (q x); [cbn [find]; now rewrite Ep | exact IH].
Qed.

Lemma hold_sample_filter (q : KeyEvent -> bool) (d : KeyEvent)
      (post : list KeyEvent) :
  (forall e, same_key_event (key d) e = true -> q e = true) ->
  hold_sample d (filter q post) = hold_sample d post.
Proof.
  intros H. unfold hold_sample. now rewrite find_filter_implied.
Qed.

Lemma samples_of_hold_same (d : KeyEvent) (post : list KeyEvent) :
  samples_of (key d) (hold_sample d post) = hold_sample d post.
Proof.
  unfold samples_of. apply forallb_filter_id.
  apply forallb_forall. intros s Hs.
  apply String.eqb_eq. now apply hold_sample_key in Hs.
Qed.

(** X3.  Hold pairing is scoped per key: for every key, the hold samples
    of that key in a group are exactly the hold samples computed on the
    events of that key alone, so holding other keys in between changes
    nothing. *)
Theorem khd_scan_independent_per_key (k : string) (grp : list KeyEvent) :
  samples_of k (khd_scan grp)
  = khd_scan (filter (fun e => (key e =? k)%string) grp).
Proof.
  induction grp as [|d post IH]; [reflexivity|].
  rewrite khd_scan_cons. unfold samples_of in *. rewrite filter_app, IH.
  cbn [filter]. destruct (String.eqb_spec (key d) k) as [Hk | Hk].
  - rewrite khd_scan_cons. f_equal.
    destruct (is_keydown d); [|reflexivity].
    rewrite hold_sample_filter.
    + subst k. apply samples_of_hold_same.
    + intros e He. unfold same_key_event in He.
      apply andb_true_iff in He as [He _]. apply String.eqb_eq in He.
      rewrite He, Hk. apply String.eqb_refl.
  - destruct (is_keydown d); [|reflexivity].
    fold (samples_of k (hold_sample d post)).
    now rewrite samples_of_hold_other.
Qed.

(** Events that are neither keydown nor keyup change no hold sample. *)
Lemma khd_scan_ignores_other (grp : list KeyEvent) :
  khd_scan (filter (fun e => is_keyup e || is_keydown e) grp)
  = khd_scan grp.
Proof.
  induction grp as [|d post IH]; [reflexivity|].
  cbn [filter]. rewrite (khd_scan_cons d post).
  destruct (is_keyup d) eqn:Eu; destruct (is_keydown d) eqn:Ed;
    cbn [orb]; rewrite ?khd_scan_cons, ?Ed, ?IH; try reflexivity.
  - f_equal. apply hold_sample_filter. intros e He.
    unfold same_key_event in He. now apply andb_true_iff in He as [_ He].
  - f_equal. apply hold_sample_filter. intros e He.
    unfold same_key_event in He. now apply andb_true_iff in He as [_ He].
Qed.

Lemma iki_scan_ignores_other (st : option Z) (grp : list KeyEvent) :
  iki_scan st (filter (fun e => is_keyup e || is_keydown e) grp)
  = iki_scan st grp.
Proof.
  revert st. induction grp as [|e grp IH]; intros st; [reflexivity|].
  cbn [filter]. destruct (is_keyup e) eqn:Eu.
  - cbn [orb]. rewrite !iki_scan_keyup by assumption. apply IH.
  - destruct (is_keydown e) eqn:Ed; cbn [orb].
    + destruct st as [t|].
      * rewrite !iki_scan_keydown_pending by assumption. now rewrite IH.
      * rewrite !iki_scan_keydown_idle by assumption. apply IH.
    + rewrite iki_scan_other by assumption. apply IH.
Qed.

(** X4.  Events whose type is neither keydown nor keyup are ignored by
    both scans: removing them from a group changes neither the hold
    samples nor the interval samples. *)
Theorem scans_ignore_other_event_types (grp : list KeyEvent) :
  khd_scan (filter (fun e => is_keyup e || is_keydown e) grp)
  = khd_scan grp
  /\ iki_scan None (filter (fun e => is_keyup e || is_keydown e) grp)
     = iki_scan None grp.
Proof.
  split; [apply khd_scan_ignores_other | apply iki_scan_ignores_other].
Qed.

(** ** The chain of counts *)

Lemma mask_sum_le_length (m : list bool) :
  0 <= mask_sum m <= Z.of_nat (List.length m).
Proof.
  induction m as [|b m IH]; [simpl; lia|].
  unfold mask_sum in *. cbn [fold_right List.length].
  destruct b; lia.
Qed.

Lemma mask_sum_mono {A : Type} (p q : A -> bool) (l : list A) :
  (forall x, p x = true -> q x = true) ->
  mask_sum (map p l) <= mask_sum (map q l).
Proof.
  intros H. induction l as [|x l IH]; [simpl; lia|].
  unfold mask_sum in *. cbn [map fold_right].
  destruct (p x) eqn:Ep; [rewrite (H x Ep); lia|].
  destruct (q x); lia.
Qed.

Lemma pause_count_chain (iki : list Z) :
  0 <= pause_count 500 iki <= pause_count 200 iki
  /\ pause_count 200 iki <= Z.of_nat (List.length iki).
Proof.
  unfold pause_count. destruct iki as [|x iki]; [simpl; lia|].
  cbn [nonempty].
  pose proof (mask_sum_le_length (map (fun y => 500 <? y) (x :: iki))).
  pose proof (mask_sum_le_length (map (fun y => 200 <? y) (x :: iki))) as H2.
  rewrite length_map in H2.
  pose proof (mask_sum_mono (fun y => 500 <? y) (fun y => 200 <? y)
                            (x :: iki)) as Hm.
  split; [split; [lia|]|lia].
  apply Hm. intros y Hy. apply Z.ltb_lt in Hy. apply Z.ltb_lt. lia.
Qed.

Lemma count_keydowns_Permutation (a b : list KeyEvent) :
  Permutation a b -> count_keydowns a = count_keydowns b.
Proof.
  intros H. rewrite !count_keydowns_filter. f_equal.
  now apply Permutation_length, Permutation_filter_compat.
Qed.

Lemma count_keydowns_le_length (grp : list KeyEvent) :
  count_keydowns grp <= Z.of_nat (List.length grp).
Proof.
  rewrite count_keydowns_filter.
  pose proof (filter_length_le is_keydown grp). lia.
Qed.

(** X5.  Given that sorting rearranges rows: in every row of the metrics
    table and of the per-field table,
    [0 <= pause_count_500ms <= pause_count_200ms <= n_keydowns
     <= n_events], the group has at least one event and
    [duration_sec] is not negative. *)
Theorem table_rows_count_chain :
  forall sort_values,
    (forall cols df, Permutation (sort_values cols df) df) ->
    forall df r,
      In r (compute_keystroke_metrics sort_values df)
      \/ In r (compute_keystroke_metrics_by_field sort_values df) ->
      0 <= pause_count_500ms r <= pause_count_200ms r
      /\ pause_count_200ms r <= n_keydowns r
      /\ n_keydowns r <= n_events r
      /\ 1 <= n_events r
      /\ (0 <= duration_sec r)%Q.
Proof.
  intros sort_values Hperm df r Hin.
  apply (table_rows_of_group sort_values Hperm) in Hin
    as (grp & paired & Hne & Hp & _ & Hr).
  assert (Hk : Z.of_nat (List.length (iki_scan None paired))
               <= count_keydowns grp).
  { rewrite <- (count_keydowns_Permutation _ _ Hp), count_keydowns_filter.
    pose proof (iki_scan_length_le None paired) as [H _]. lia. }
  pose proof (pause_count_chain (iki_scan None paired)) as [Hc1 Hc2].
  pose proof (count_keydowns_le_length grp) as Hle.
  assert (Hlen : 1 <= Z.of_nat (List.length grp)).
  { destruct grp; [contradiction | simpl; lia]. }
  assert (Hdur : (0 <= inject_Z (duration_ms_of (map pressed_at_ms grp))
                       / 1000)%Q).
  { apply Qle_shift_div_l; [reflexivity|].
    rewrite Qmult_0_l. change 0%Q with (inject_Z 0). rewrite <- Zle_Qle.
    apply duration_ms_nonneg. }
  destruct Hr as [(sid & tt & ->) | (sid & tt & field & lat & ->)];
    unfold _agg_row, field_row;
    cbn [pause_count_500ms pause_count_200ms n_keydowns n_events
         duration_sec];
    repeat split; try lia; exact Hdur.
Qed.

(** The first row of the metrics table of [fields_table]. *)
Lemma table_rows_count_chain_witness :
  exists r,
    In r (compute_keystroke_metrics stable_sort_values fields_table)
    /\ 0 <= pause_count_500ms r <= pause_count_200ms r
    /\ pause_count_200ms r <= n_keydowns r
    /\ n_keydowns r <= n_events r
    /\ 1 <= n_events r
    /\ (0 <= duration_sec r)%Q.
Proof.
  eexists. split.
  - vm_compute. left. reflexivity.
  - apply (table_rows_count_chain stable_sort_values
             stable_sort_values_Permutation fields_table).
    left. vm_compute. left. reflexivity.
Defined.

(** ** Means, and when a coefficient of variation is present *)

Lemma zsum_bounds (a b : Z) (s : list Z) :
  (forall x, In x s -> a <= x <= b) ->
  a * Z.of_nat (List.length s) <= zsum s <= b * Z.of_nat (List.length s).
Proof.
  intros H. induction s as [|x s IH]; [simpl; lia|].
  unfold zsum in *. cbn [fold_right List.length].
  assert (Hx : a <= x <= b) by (apply H; now left).
  assert (IH' := IH (fun y Hy => H y (or_intror Hy))).
  lia.
Qed.

(** The mean of samples lying strictly between two integers lies
    strictly between them. *)
Lemma mean_between (lo hi : Z) (s : list Z) :
  s <> [] -> (forall x, In x s -> lo < x < hi) ->
  (inject_Z lo < mean s)%Q /\ (mean s < inject_Z hi)%Q.
Proof.
  intros Hne H.
  assert (Hn : 0 < Z.of_nat (List.length s))
    by (destruct s; [contradiction | simpl; lia]).
  pose proof (zsum_bounds (lo + 1) (hi - 1) s) as Hb.
  assert (Hb' := Hb (fun x Hx => ltac:(specialize (H x Hx); lia))).
  assert (Hq : (0 < inject_Z (Z.of_nat (List.length s)))%Q).
  { change 0%Q with (inject_Z 0). now rewrite <- Zlt_Qlt. }
  unfold mean. split.
  - apply Qlt_shift_div_l; [exact Hq|].
    rewrite <- inject_Z_mult, <- Zlt_Qlt. nia.
  - apply Qlt_shift_div_r; [exact Hq|].
    rewrite <- inject_Z_mult, <- Zlt_Qlt. nia.
Qed.

Lemma khd_values_range (grp : list KeyEvent) (x : Z) :
  In x (map snd (khd_scan grp)) -> 0 < x < 2000.
Proof.
  intros H. apply in_map_iff in H as ([k d] & <- & H).
  apply khd_scan_In in H
    as (pre & d0 & mid & u & post & _ & _ & _ & _ & _ & [= _ ->] & Hr).
  exact Hr.
Qed.

Lemma iki_values_range (grp : list KeyEvent) (x : Z) :
  In x (iki_scan None grp) -> 0 < x < 5000.
Proof.
  intros H. apply iki_scan_In in H
    as [(t & mid & d & post & [=] & _)
       | (pre & u & mid & d & post & _ & _ & _ & _ & _ & Hr)].
  exact Hr.
Qed.

Lemma mean_cell_between (lo hi : Z) (s : list Z) (m : Q) :
  (forall x, In x s -> lo < x < hi) ->
  mean_cell s = Some m -> (inject_Z lo < m)%Q /\ (m < inject_Z hi)%Q.
Proof.
  intros H. unfold mean_cell. destruct s as [|x s]; [discriminate|].
  cbn [nonempty]. intros [= <-]. now apply mean_between.
Qed.

(** With positive samples the guard [mean > 0] of the coefficient of
    variation never fails: the coefficient is absent exactly when the
    standard deviation is. *)
Lemma cv_cell_None_iff (std : list Z -> option Surd) (hi : Z) (s : list Z) :
  (forall x, In x s -> 0 < x < hi) ->
  cv_cell std s = None <-> sd_cell std s = None.
Proof.
  intros H. unfold cv_cell, sd_cell. destruct s as [|x s]; [tauto|].
  cbn [nonempty andb].
  assert (Hm : Qltb 0 (mean (x :: s)) = true).
  { apply Qltb_lt. now apply (mean_between 0 hi). }
  rewrite Hm. destruct (std (x :: s)); split; congruence.
Qed.

(** X6.  Given that sorting rearranges rows: in every row of both
    tables a present [mean_khd_ms] lies strictly between 0 and 2000 and
    a present [mean_iki_ms] strictly between 0 and 5000; hence the test
    [mean > 0] guarding the coefficients of variation never fails, and
    [cv_khd] ([cv_iki]) is absent exactly when [sd_khd_ms] ([sd_iki_ms])
    is. *)
Theorem table_rows_means_in_range :
  forall sort_values,
    (forall cols df, Permutation (sort_values cols df) df) ->
    forall df r,
      In r (compute_keystroke_metrics sort_values df)
      \/ In r (compute_keystroke_metrics_by_field sort_values df) ->
      (forall m, mean_khd_ms r = Some m -> (0 < m)%Q /\ (m < 2000)%Q)
      /\ (forall m, mean_iki_ms r = Some m -> (0 < m)%Q /\ (m < 5000)%Q)
      /\ (cv_khd r = None <-> sd_khd_ms r = None)
      /\ (cv_iki r = None <-> sd_iki_ms r = None).
Proof.
  intros sort_values Hperm df r Hin.
  apply (table_rows_of_group sort_values Hperm) in Hin
    as (grp & paired & _ & _ & _ & Hr).
  pose proof (khd_values_range paired) as Hk.
  pose proof (iki_values_range paired) as Hi.
  destruct Hr as [(sid & tt & ->) | (sid & tt & field & lat & ->)];
    unfold _agg_row, field_row;
    cbn [mean_khd_ms mean_iki_ms cv_khd cv_iki sd_khd_ms sd_iki_ms];
    (split; [intros m; apply (mean_cell_between 0 2000); exact Hk|]);
    (split; [intros m; apply (mean_cell_between 0 5000); exact Hi|]);
    (split; [apply (cv_cell_None_iff _ 2000); exact Hk
            | apply (cv_cell_None_iff _ 5000); exact Hi]).
Qed.

(** The row of field [q1] in [fields_table], whose one hold lasts 80 ms. *)
Lemma table_rows_means_in_range_witness :
  exists r,
    In r (compute_keystroke_metrics_by_field stable_sort_values fields_table)
    /\ (forall m, mean_khd_ms r = Some m -> (0 < m)%Q /\ (m < 2000)%Q)
    /\ (forall m, mean_iki_ms r = Some m -> (0 < m)%Q /\ (m < 5000)%Q)
    /\ (cv_khd r = None <-> sd_khd_ms r = None)
    /\ (cv_iki r = None <-> sd_iki_ms r = None).
Proof.
  eexists. split.
  - vm_compute. left. reflexivity.
  - apply (table_rows_means_in_range stable_sort_values
             stable_sort_values_Permutation fields_table).
    right. vm_compute. left. reflexivity.
Defined.

(** ** When no time elapses *)

Lemma fold_max_ge_all (ts : list Z) (t : Z) :
  forall x, In x ts -> x <= fold_left Z.max ts t.
Proof.
  revert t. induction ts as [|a ts IH]; intros t x; [intros []|].
  simpl. intros [<- | Hx]; [|now apply IH].
  pose proof (fold_max_ge ts (Z.max t a)). lia.
Qed.

Lemma fold_max_In (ts : list Z) (t : Z) :
  fold_left Z.max ts t = t \/ In (fold_left Z.max ts t) ts.
Proof.
  revert t. induction ts as [|a ts IH]; intros t; simpl; [now left|].
  destruct (IH (Z.max t a)) as [H | H]; [|now right; right].
  rewrite H. destruct (Z.max_spec t a) as [[_ ->] | [_ ->]]; auto.
Qed.

(** [arr_max] returns the greatest element. *)
Lemma arr_max_spec (a : list Z) (m : Z) :
  arr_max a = Some m <-> In m a /\ forall x, In x a -> x <= m.
Proof.
  destruct a as [|t ts]; simpl.
  - split; [discriminate | intros [[] _]].
  - split.
    + intros [= <-]. split.
      * destruct (fold_max_In ts t) as [-> | H]; auto.
      * intros x [<- | Hx]; [apply fold_max_ge | now apply fold_max_ge_all].
    + intros [Hin Hle]. f_equal.
      assert (fold_left Z.max ts t <= m).
      { apply Hle. destruct (fold_max_In ts t) as [-> | H]; auto. }
      destruct Hin as [<- | Hin].
      * pose proof (fold_max_ge ts t). lia.
      * pose proof (fold_max_ge_all ts t m Hin). lia.
Qed.

Lemma arr_max_Permutation (a b : list Z) :
  Permutation a b -> arr_max a = arr_max b.
Proof.
  intros H. destruct (arr_max a) as [m|] eqn:E.
  - symmetry. apply arr_max_spec. apply arr_max_spec in E as [Hin Hle].
    split.
    + now apply (Permutation_in _ H).
    + intros x Hx. apply Hle.
      now apply (Permutation_in _ (Permutation_sym H)).
  - destruct a; [|discriminate].
    now rewrite (Permutation_nil H).
Qed.

Lemma duration_ms_Permutation (a b : list Z) :
  Permutation a b -> duration_ms_of a = duration_ms_of b.
Proof.
  intros H. unfold duration_ms_of.
  now rewrite (Permutation_length H), (arr_max_Permutation _ _ H),
    (arr_min_Permutation _ _ H).
Qed.

(** The duration is 0 exactly when all times are the same. *)
Lemma duration_ms_zero_iff (times : list Z) :
  duration_ms_of times = 0 <->
  forall x y, In x times -> In y times -> x = y.
Proof.
  unfold duration_ms_of.
  destruct times as [|t [|t' ts]].
  - simpl. split; [intros _ x y [] | reflexivity].
  - simpl. split; [|reflexivity].
    intros _ x y [<- | []] [<- | []]. reflexivity.
  - assert (Hl : (2 <=? List.length (t :: t' :: ts))%nat = true)
      by reflexivity.
    rewrite Hl.
    destruct (arr_max (t :: t' :: ts)) as [hi|] eqn:Emax; [|discriminate].
    destruct (arr_min (t :: t' :: ts)) as [lo|] eqn:Emin; [|discriminate].
    apply arr_max_spec in Emax as [Hhi Hmax].
    apply arr_min_spec in Emin as [Hlo Hmin].
    split.
    + intros H x y Hx Hy.
      pose proof (Hmax x Hx). pose proof (Hmin x Hx).
      pose proof (Hmax y Hy). pose proof (Hmin y Hy). lia.
    + intros H. rewrite (H hi lo Hhi Hlo). lia.
Qed.

Lemma cpm_of_None_iff (nk nb d : Z) : cpm_of nk nb d = None <-> d <= 0.
Proof.
  unfold cpm_of. destruct (Z.ltb_spec 0 d); split; try discriminate; try lia.
  reflexivity.
Qed.

(** X7.  In a row built by [_agg_row] or by the per-field loop, [cpm] is
    absent exactly when all events of the group carry the same
    millisecond timestamp (in particular when there are fewer than two
    events); otherwise it is present. *)
Theorem cpm_absent_iff_no_time_elapsed :
  (forall sid tt grp khd iki,
      cpm (_agg_row sid tt grp khd iki) = None <->
      forall e1 e2, In e1 grp -> In e2 grp ->
                    pressed_at_ms e1 = pressed_at_ms e2)
  /\ (forall sid tt field grp khd iki lat,
         cpm (field_row sid tt field grp khd iki lat) = None <->
         forall e1 e2, In e1 grp -> In e2 grp ->
                       pressed_at_ms e1 = pressed_at_ms e2).
Proof.
  assert (H : forall nk nb grp,
             cpm_of nk nb (duration_ms_of (map pressed_at_ms grp)) = None <->
             forall e1 e2, In e1 grp -> In e2 grp ->
                           pressed_at_ms e1 = pressed_at_ms e2).
  { intros nk nb grp. rewrite cpm_of_None_iff.
    pose proof (duration_ms_nonneg (map pressed_at_ms grp)) as Hn.
    split.
    - intros Hd. assert (Hz : duration_ms_of (map pressed_at_ms grp) = 0)
        by lia.
      intros e1 e2 H1 H2.
      apply (proj1 (duration_ms_zero_iff _) Hz); now apply in_map.
    - intros Hall.
      assert (Hz : duration_ms_of (map pressed_at_ms grp) = 0).
      { apply duration_ms_zero_iff. intros x y Hx Hy.
        apply in_map_iff in Hx as (e1 & <- & H1).
        apply in_map_iff in Hy as (e2 & <- & H2). now apply Hall. }
      lia. }
  split; intros; unfold _agg_row, field_row; cbn [cpm]; apply H.
Qed.

(** Two keys pressed in the same millisecond: no [cpm]. *)
Lemma cpm_absent_iff_no_time_elapsed_witness :
  cpm (_agg_row "s1" "free" [down "a" 7; down "b" 7] [] []) = None.
Proof.
  apply (proj1 cpm_absent_iff_no_time_elapsed).
  intros e1 e2 [<- | [<- | []]] [<- | [<- | []]]; reflexivity.
Defined.

(** ** The order of the events of a group *)

Lemma count_backspace_Permutation (a b : list KeyEvent) :
  Permutation a b -> count_backspace a = count_backspace b.
Proof.
  intros H. rewrite !count_backspace_filter. f_equal.
  now apply Permutation_length, Permutation_filter_compat,
    Permutation_filter_compat.
Qed.

(** X8.  Apart from the paired samples it is given, a row depends on the
    events of its group only as a multiset: rearranging the events
    changes no cell, for [_agg_row] and for the per-field row alike. *)
Theorem row_invariant_under_reordering :
  forall grp grp',
    Permutation grp grp' ->
    (forall sid tt khd iki,
        _agg_row sid tt grp khd iki = _agg_row sid tt grp' khd iki)
    /\ (forall sid tt field khd iki lat,
           field_row sid tt field grp khd iki lat
           = field_row sid tt field grp' khd iki lat).
Proof.
  intros grp grp' H.
  assert (Hd : duration_ms_of (map pressed_at_ms grp)
               = duration_ms_of (map pressed_at_ms grp'))
    by now apply duration_ms_Permutation, Permutation_map.
  split; intros; unfold _agg_row, field_row;
    now rewrite Hd, (Permutation_length H),
      (count_keydowns_Permutation _ _ H),
      (count_backspace_Permutation _ _ H).
Qed.

(** Scenario A with its two events swapped. *)
Lemma row_invariant_under_reordering_witness :
  _agg_row "s1" "free" [down "A" 0; up "A" 100] [100] []
  = _agg_row "s1" "free" [up "A" 100; down "A" 0] [100] [].
Proof.
  apply (proj1 (row_invariant_under_reordering
                  [down "A" 0; up "A" 100] [up "A" 100; down "A" 0]
                  (perm_swap _ _ _))).
Defined.

(** ** Keys of the table rows *)

Lemma NoDup_map_injective {A B : Type} (f : A -> B) (l : list A) :
  (forall x y, f x = f y -> x = y) -> NoDup l -> NoDup (map f l).
Proof.
  intros Hinj H. induction H as [|x l Hx _ IH]; simpl; constructor; auto.
  intros Hin. apply in_map_iff in Hin as (y & Hy & Hin).
  apply Hinj in Hy. now subst y.
Qed.

(** Rows taken from groups with distinct keys, at most one per group and
    each with the key of its group, have distinct keys. *)
Lemma NoDup_flat_map_keys {G R K : Type} (gkey : G -> K) (rkey : R -> K)
      (f : G -> list R) (groups : list G) :
  (forall g, f g = [] \/ exists r, f g = [r] /\ rkey r = gkey g) ->
  NoDup (map gkey groups) -> NoDup (map rkey (flat_map f groups)).
Proof.
  intros Hf. induction groups as [|g groups IH]; [constructor|].
  cbn [map flat_map]. intros Hnd. apply NoDup_cons_iff in Hnd as [Hg Hnd].
  destruct (Hf g) as [-> | (r & -> & Hr)]; [now apply IH|].
  cbn [app map]. constructor; [|now apply IH].
  rewrite Hr. intros Hin. apply Hg.
  apply in_map_iff in Hin as (r' & Hk & Hin).
  apply in_flat_map in Hin as (g' & Hg' & Hin).
  destruct (Hf g') as [E | (r'' & E & Hr'')]; rewrite E in Hin;
    [destruct Hin|].
  destruct Hin as [<- | []]. rewrite <- Hk, Hr''. now apply in_map.
Qed.

(** X9.  Given that sorting rearranges rows: every row of the metrics
    table stands for a test or a session that has an event; when no
    event has the test type [overall], no two rows of the metrics table
    share their [(session_id, test_type)], the keys the stress table is
    merged on; and no two rows of the per-field table share their
    [(session_id, test_type, field_name)]. *)
Theorem table_row_keys :
  forall sort_values,
    (forall cols df, Permutation (sort_values cols df) df) ->
    forall df,
      (forall r,
          In r (compute_keystroke_metrics sort_values df) ->
          (exists e, In e df /\ session_id e = row_session_id r
                     /\ test_type e = row_test_type r)
          \/ (row_test_type r = "overall"
              /\ exists e, In e df /\ session_id e = row_session_id r))
      /\ ((forall e, In e df -> test_type e <> "overall") ->
          NoDup (map row_key (compute_keystroke_metrics sort_values df)))
      /\ NoDup (map row_field_key
                    (compute_keystroke_metrics_by_field sort_values df)).
Proof.
  intros sort_values Hperm df.
  set (df' := sort_values ["session_id"; "test_type"; "pressed_at"] df).
  assert (Hdf : forall e, In e df' -> In e df).
  { intros e. apply Permutation_in, Hperm. }
  assert (Hgk : forall k grp,
             In (k, grp) (groupby_session_test df') ->
             exists e, In e df /\ session_id e = fst k
                       /\ test_type e = snd k).
  { intros k grp Hg. unfold groupby_session_test in Hg.
    apply (groupby_In _ _ _ key2_eqb_eq) in Hg as [(e & He & Hk) _].
    exists e. split; [auto|]. injection Hk as <-. auto. }
  assert (Hsk : forall sid,
             In sid (unique String.eqb (map session_id df')) ->
             exists e, In e df /\ session_id e = sid).
  { intros sid Hs. apply (proj1 (unique_In _ String.eqb_eq _ _)) in Hs.
    apply in_map_iff in Hs as (e & <- & He). eauto. }
  split; [|split].
  - intros r. rewrite compute_keystroke_metrics_eq. fold df'.
    rewrite in_app_iff, !in_map_iff.
    intros [([k grp] & <- & Hg) | (sid & <- & Hs)].
    + left. cbn [fst snd]. apply (Hgk k grp Hg).
    + right. split; [reflexivity|]. apply (Hsk sid Hs).
  - intros Hno. rewrite compute_keystroke_metrics_eq. fold df'.
    rewrite map_app, !map_map. apply NoDup_app.
    + rewrite (map_ext _ fst) by (intros [[sid tt] grp]; reflexivity).
      apply groupby_NoDup, key2_eqb_eq.
    + apply NoDup_map_injective; [now intros x y [= ->]|].
      apply unique_NoDup, String.eqb_eq.
    + intros k H1 H2.
      apply in_map_iff in H1 as ([k' grp] & <- & Hg).
      apply in_map_iff in H2 as (sid & Hk & _).
      destruct (Hgk k' grp Hg) as (e & He & _ & Ht).
      apply (Hno e He). rewrite Ht. cbn [fst snd] in Hk.
      unfold row_key in Hk. simpl in Hk. now injection Hk as _ <-.
  - unfold compute_keystroke_metrics_by_field.
    apply (NoDup_flat_map_keys
             (fun g : key3 * list KeyEvent =>
                (fst (fst (fst g)), snd (fst (fst g)), Some (snd (fst g))))).
    + intros g. destruct (_ =? _)%string; [now left|].
      destruct (arr_min _); [|now left].
      right. eexists. split; reflexivity.
    + rewrite <- (map_map fst (fun k : key3 =>
                                 (fst (fst k), snd (fst k), Some (snd k)))).
      apply NoDup_map_injective.
      * intros [[a b] c] [[a' b'] c']. simpl. now intros [= -> -> ->].
      * apply groupby_NoDup, key3_eqb_eq.
Qed.

(** The tables of [fields_table], where no test is called [overall]. *)
Lemma table_row_keys_witness :
  NoDup (map row_key
             (compute_keystroke_metrics stable_sort_values fields_table)).
Proof.
  apply (proj1 (proj2 (table_row_keys stable_sort_values
                         stable_sort_values_Permutation fields_table))).
  intros e He. simpl in He.
  repeat (destruct He as [<- | He]; [discriminate|]). destruct He.
Defined.

(** ** Empty tables *)

(** X10.  Given that sorting rearranges rows: the metrics table is empty
    exactly when the keystroke table is, and the per-field table is
    empty exactly when no event carries a field name that does not
    strip to the empty string; an empty input is no error. *)
Theorem tables_empty_iff :
  forall sort_values,
    (forall cols df, Permutation (sort_values cols df) df) ->
    forall df,
      (compute_keystroke_metrics sort_values df = [] <-> df = [])
      /\ (compute_keystroke_metrics_by_field sort_values df = [] <->
          forall e f, In e df -> field_name e = Some f -> strip f = "").
Proof.
  intros sort_values Hperm df. split.
  - split.
    + intros E. destruct df as [|e df]; [reflexivity|]. exfalso.
      destruct (metrics_rows_count_all_events sort_values Hperm (e :: df))
        as [_ H].
      destruct (H (session_id e)) as (r & Hr & _).
      { exists e. split; [now left | reflexivity]. }
      rewrite E in Hr. destruct Hr.
    + intros ->. rewrite compute_keystroke_metrics_eq.
      rewrite (Permutation_nil (Permutation_sym (Hperm _ []))).
      reflexivity.
  - split.
    + intros E e f He Hf.
      destruct (String.eqb_spec (strip f) "") as [|Hne]; [assumption|].
      exfalso.
      assert (Hk : in_field (session_id e) (test_type e) f e = true)
        by now apply in_field_iff.
      destruct (earliest_nonempty
                  (filter (in_field (session_id e) (test_type e) f) df))
        as [gmin Eg].
      { intros E'.
        assert (Hin : In e (filter (in_field (session_id e) (test_type e) f)
                                   df)) by (apply filter_In; auto).
        rewrite E' in Hin. destruct Hin. }
      destruct (earliest_nonempty
                  (filter (in_test (session_id e) (test_type e)) df))
        as [tmin Et].
      { intros E'.
        assert (Hin : In e (filter (in_test (session_id e) (test_type e))
                                   df)).
        { apply filter_In. split; [exact He|].
          now apply in_field_in_test with (f := f). }
        rewrite E' in Hin. destruct Hin. }
      assert (Hrow : exists r,
                 In r (compute_keystroke_metrics_by_field sort_values df)).
      { eexists. apply (by_field_row_iff sort_values Hperm).
        exists (session_id e), (test_type e), f, gmin, tmin.
        split; [now exists e|]. repeat split; eauto. }
      destruct Hrow as [r Hr]. rewrite E in Hr. destruct Hr.
    + intros H.
      destruct (compute_keystroke_metrics_by_field sort_values df)
        as [|r l] eqn:E; [reflexivity|]. exfalso.
      assert (Hr : In r (compute_keystroke_metrics_by_field sort_values df))
        by (rewrite E; now left).
      apply (by_field_row_iff sort_values Hperm) in Hr
        as (sid & tt & f & gmin & tmin & (e & He & Hk) & Hblank & _).
      apply Hblank. apply (H e f He). now apply in_field_iff in Hk.
Qed.

(** The two tables of the empty keystroke table. *)
Lemma tables_empty_iff_witness :
  compute_keystroke_metrics stable_sort_values [] = []
  /\ compute_keystroke_metrics_by_field stable_sort_values [] = [].
Proof.
  destruct (tables_empty_iff stable_sort_values
              stable_sort_values_Permutation []) as [H1 H2].
  split; [now apply H1|].
  apply H2. intros e f [].
Defined.

(** ** A field within its test *)

Lemma filter_length_mono {A : Type} (p q : A -> bool) (l : list A) :
  (forall x, p x = true -> q x = true) ->
  (List.length (filter p l) <= List.length (filter q l))%nat.
Proof.
  intros H. induction l as [|x l IH]; [simpl; lia|].
  cbn [filter]. destruct (p x) eqn:Ep.
  - rewrite (H x Ep). simpl. lia.
  - destruct (q x); simpl; lia.
Qed.

Lemma duration_ms_max_min (times : list Z) (hi lo : Z) :
  arr_max times = Some hi -> arr_min times = Some lo ->
  duration_ms_of times = hi - lo.
Proof.
  unfold duration_ms_of. destruct times as [|t [|t' ts]].
  - discriminate.
  - simpl. intros [= <-] [= <-]. lia.
  - intros -> ->. reflexivity.
Qed.

Lemma arr_max_nonempty (a : list Z) : a <> [] -> exists m, arr_max a = Some m.
Proof. destruct a; [contradiction | simpl; eauto]. Qed.

(** The events of a field, counted under [p], are no more than those of
    its test. *)
Lemma field_count_le (sort_values : list string -> list KeyEvent
                                    -> list KeyEvent)
      (Hperm : forall cols df, Permutation (sort_values cols df) df)
      (p : KeyEvent -> bool) (sid tt f : string) (cols cols' : list string)
      (df : list KeyEvent) :
  (List.length (filter p (sort_values cols (filter (in_field sid tt f) df)))
   <= List.length (filter p (filter (in_test sid tt)
                                    (sort_values cols' df))))%nat.
Proof.
  rewrite (Permutation_length
             (Permutation_filter_compat p _ _ (Hperm cols _))).
  rewrite (Permutation_length
             (Permutation_filter_compat p _ _
                (Permutation_filter_compat (in_test sid tt) _ _
                   (Hperm cols' df)))).
  rewrite !filter_filter_andb. apply filter_length_mono.
  intros e He. apply andb_true_iff in He as [H1 H2].
  now rewrite (in_field_in_test _ _ _ _ H1), H2.
Qed.

(** X11.  Given that sorting rearranges rows: every row of the
    per-field table has a per-test row of the same session and test in
    the metrics table, and the field lies within that test: its event,
    keydown and backspace counts do not exceed the test's, and, in whole
    milliseconds, its first-key latency plus the duration of the field
    (latest minus earliest event time of the field's events) does not
    exceed the duration of the test. *)
Theorem field_row_within_test_row :
  forall sort_values,
    (forall cols df, Permutation (sort_values cols df) df) ->
    forall df rf,
      In rf (compute_keystroke_metrics_by_field sort_values df) ->
      exists rt f latency,
        In rt (compute_keystroke_metrics sort_values df)
        /\ row_key rt = row_key rf
        /\ n_events rf <= n_events rt
        /\ n_keydowns rf <= n_keydowns rt
        /\ backspace_count rf <= backspace_count rt
        /\ row_field_name rf = Some f
        /\ first_key_latency_ms rf = Some latency
        /\ latency
           + duration_ms_of
               (map pressed_at_ms
                    (filter (in_field (row_session_id rf) (row_test_type rf) f)
                            df))
           <= duration_ms_of
                (map pressed_at_ms
                     (filter (in_test (row_session_id rf) (row_test_type rf))
                             df)).
Proof.
  intros sort_values Hperm df rf Hin.
  apply (by_field_row_iff sort_values Hperm) in Hin
    as (sid & tt & f & gmin & tmin & (e & He & Hk) & _ & Eg & Et & ->).
  cbv zeta.
  assert (Het : exists e, In e df /\ in_test sid tt e = true).
  { exists e. split; [exact He | now apply in_field_in_test with (f := f)]. }
  pose proof (per_test_row_In sort_values Hperm df sid tt Het) as Hrt.
  cbv zeta in Hrt. cbn [fst snd] in Hrt.
  eexists. exists f, (gmin - tmin). split; [exact Hrt|].
  unfold _agg_row, field_row, row_key.
  cbn [row_session_id row_test_type row_field_name n_events n_keydowns
       backspace_count first_key_latency_ms].
  split; [reflexivity|].
  set (F := filter (in_field sid tt f) df) in *.
  set (T := filter (in_test sid tt) df) in *.
  set (cols3 := ["session_id"; "test_type"; "pressed_at"]).
  split; [|split; [|split; [|split; [reflexivity|split; [reflexivity|]]]]].
  - pose proof (field_count_le sort_values Hperm (fun _ => true)
                               sid tt f ["pressed_at"] cols3 df) as H.
    rewrite !(forallb_filter_id (fun _ : KeyEvent => true)) in H
      by (apply forallb_forall; reflexivity).
    unfold sorted_group. fold F in H. lia.
  - rewrite !count_keydowns_filter.
    pose proof (field_count_le sort_values Hperm is_keydown
                               sid tt f ["pressed_at"] cols3 df) as H.
    unfold sorted_group. fold F in H. lia.
  - unfold count_backspace. rewrite !mask_sum_filter.
    pose proof (field_count_le sort_values Hperm
                  (fun e0 => is_keydown e0 && (key e0 =? "Backspace")%string)
                  sid tt f ["pressed_at"] cols3 df) as H.
    unfold sorted_group. fold F in H. lia.
  - unfold earliest in Eg, Et.
    destruct (arr_max_nonempty (map pressed_at_ms F)) as [gmax Egx].
    { intros E. rewrite E in Eg. discriminate. }
    destruct (arr_max_nonempty (map pressed_at_ms T)) as [tmax Etx].
    { intros E. rewrite E in Et. discriminate. }
    rewrite (duration_ms_max_min _ _ _ Egx Eg),
      (duration_ms_max_min _ _ _ Etx Et).
    apply arr_max_spec in Egx as [Hgx _]. apply arr_max_spec in Etx as [_ Htx].
    assert (gmax <= tmax).
    { apply Htx. apply in_map_iff in Hgx as (e0 & <- & He0).
      apply in_map. now apply (field_events_in_test sid tt f). }
    lia.
Qed.

(** The row of field [q1] in [fields_table] and the row of its test:
    latency 500 and duration 80 within a test of 790 milliseconds. *)
Lemma field_row_within_test_row_witness :
  exists rf rt,
    In rf (compute_keystroke_metrics_by_field stable_sort_values fields_table)
    /\ In rt (compute_keystroke_metrics stable_sort_values fields_table)
    /\ row_key rt = row_key rf
    /\ n_events rf <= n_events rt
    /\ n_keydowns rf <= n_keydowns rt
    /\ backspace_count rf <= backspace_count rt
    /\ row_field_name rf = Some "q1"
    /\ first_key_latency_ms rf = Some 500
    /\ 500 + duration_ms_of
               (map pressed_at_ms
                    (filter (in_field "s1" "free" "q1") fields_table))
       <= duration_ms_of
            (map pressed_at_ms (filter (in_test "s1" "free") fields_table)).
Proof.
  eexists.
  destruct (field_row_within_test_row stable_sort_values
              stable_sort_values_Permutation fields_table _
              (or_introl eq_refl))
    as (rt & f & latency & Hin & Hk & Hn & Hd & Hb & Hf & Hl & H).
  injection Hf as <-. injection Hl as <-.
  exists rt. split; [vm_compute; left; reflexivity|].
  repeat split; assumption.
Defined.

(** ** The overall row against the per-test rows *)

Lemma filter_map_comm {A B : Type} (f : A -> B) (q : B -> bool)
      (l : list A) :
  filter q (map f l) = map f (filter (fun x => q (f x)) l).
Proof.
  induction l as [|x l IH]; [reflexivity|].
  cbn [map filter]. destruct (q (f x)); cbn [map]; now rewrite IH.
Qed.

Lemma filter_orb_disjoint_length {A : Type} (a b : A -> bool) (l : list A) :
  (forall x, In x l -> a x = true -> b x = false) ->
  List.length (filter (fun x => a x || b x) l)
  = (List.length (filter a l) + List.length (filter b l))%nat.
Proof.
  intros H. induction l as [|x l IH]; [reflexivity|].
  assert (IH' := IH (fun y Hy => H y (or_intror Hy))).
  cbn [filter]. destruct (a x) eqn:Ea.
  - rewrite (H x (or_introl eq_refl) Ea). simpl. lia.
  - destruct (b x); simpl; lia.
Qed.

(** Counting, group by group over distinct keys, the events that satisfy
    [p] counts the events whose key is one of these keys. *)
Lemma zsum_groups (p : KeyEvent -> bool) (ks : list key2)
      (l : list KeyEvent) :
  NoDup ks ->
  zsum (map (fun k =>
               Z.of_nat
                 (List.length
                    (filter p
                       (filter (fun e => match session_test e with
                                         | Some k' => key2_eqb k' k
                                         | None => false
                                         end) l)))) ks)
  = Z.of_nat
      (List.length
         (filter p
            (filter (fun e => existsb (fun k =>
                                         key2_eqb (session_id e, test_type e)
                                                  k) ks) l))).
Proof.
  intros Hnd. induction Hnd as [|k ks Hk _ IH]; cbn [map existsb].
  - assert (E : filter (fun _ : KeyEvent => false) l = [])
      by (clear; induction l; auto).
    now rewrite E.
  - unfold zsum in *. cbn [fold_right]. rewrite IH.
    rewrite !filter_filter_andb.
    rewrite (filter_ext
               (fun e => (key2_eqb (session_id e, test_type e) k
                          || existsb (fun k0 =>
                                        key2_eqb (session_id e, test_type e)
                                                 k0) ks) && p e)
               (fun e => (fun e => key2_eqb (session_id e, test_type e) k
                                   && p e) e
                         || (fun e => existsb
                                        (fun k0 =>
                                           key2_eqb (session_id e, test_type e)
                                                    k0) ks && p e) e))
      by (intros e; now destruct (key2_eqb _ k), (existsb _ ks), (p e)).
    rewrite filter_orb_disjoint_length.
    + unfold session_test. lia.
    + intros e _ Ha. apply andb_true_iff in Ha as [Ha _].
      apply key2_eqb_eq in Ha. apply andb_false_iff. left.
      apply not_true_iff_false. intros Hex.
      apply existsb_exists in Hex as (k0 & Hk0 & Heq).
      apply key2_eqb_eq in Heq. apply Hk. congruence.
Qed.

Lemma session_counts_partition (p : KeyEvent -> bool) (sid : string)
      (df : list KeyEvent) :
  zsum (map (fun g : key2 * list KeyEvent =>
               Z.of_nat (List.length (filter p (snd g))))
            (filter (fun g : key2 * list KeyEvent =>
                       (fst (fst g) =? sid)%string)
                    (groupby_session_test df)))
  = Z.of_nat
      (List.length
         (filter p (filter (fun e => (session_id e =? sid)%string) df))).
Proof.
  pose proof (groupby_NoDup key2_eqb key2_leb session_test key2_eqb_eq df)
    as Hnd.
  pose proof (groupby_keys_In key2_eqb key2_leb session_test key2_eqb_eq df)
    as Hin.
  unfold groupby_session_test, groupby in *.
  rewrite map_map in Hnd, Hin. cbn [fst] in Hnd, Hin.
  rewrite map_id in Hnd, Hin.
  set (ks := isort_by key2_leb _) in *.
  rewrite filter_map_comm, map_map. cbn [fst snd].
  rewrite (zsum_groups p (filter (fun k : key2 => (fst k =? sid)%string) ks)
                       df (NoDup_filter _ Hnd)).
  do 3 f_equal. apply filter_ext_in. intros e He.
  destruct (String.eqb_spec (session_id e) sid) as [Hs | Hs].
  - apply existsb_exists. exists (session_id e, test_type e). split.
    + apply filter_In. split; [|cbn [fst]; subst sid; apply String.eqb_refl].
      apply Hin. exists e. split; [exact He | reflexivity].
    + now apply key2_eqb_eq.
  - apply not_true_iff_false. intros Hex.
    apply existsb_exists in Hex as (k & Hk & Heq).
    apply key2_eqb_eq in Heq. apply filter_In in Hk as [_ Hk].
    apply String.eqb_eq in Hk. subst k. cbn [fst] in Hk. contradiction.
Qed.

Lemma filter_false_nil {A : Type} (q : A -> bool) (l : list A) :
  (forall x, In x l -> q x = false) -> filter q l = [].
Proof.
  intros H. induction l as [|x l IH]; [reflexivity|].
  cbn [filter]. rewrite (H x (or_introl eq_refl)).
  apply IH. intros y Hy. apply H. now right.
Qed.

Lemma filter_eqb_NoDup (sid : string) (l : list string) :
  NoDup l ->
  filter (fun s => (s =? sid)%string) l
  = if existsb (fun s => (s =? sid)%string) l then [sid] else [].
Proof.
  intros H. induction H as [|s l Hs _ IH]; [reflexivity|].
  cbn [filter existsb]. destruct (String.eqb_spec s sid) as [-> | Hne].
  - cbn [orb]. f_equal. apply filter_false_nil.
    intros x Hx. apply String.eqb_neq. intros ->. contradiction.
  - exact IH.
Qed.

Section SessionSums.

Variable sort_values : list string -> list KeyEvent -> list KeyEvent.
Hypothesis sort_values_perm :
  forall cols df, Permutation (sort_values cols df) df.

(** A count cell of [_agg_row]: the number of events of the group that
    satisfy [p]. *)
Variable cell : MetricsRow -> Z.
Variable p : KeyEvent -> bool.
Hypothesis cell_counts :
  forall sid tt grp khd iki,
    cell (_agg_row sid tt grp khd iki)
    = Z.of_nat (List.length (filter p grp)).

Variable df : list KeyEvent.
Hypothesis no_overall_test :
  forall e, In e df -> test_type e <> "overall".

Let df' : list KeyEvent :=
  sort_values ["session_id"; "test_type"; "pressed_at"] df.

Let session_count (sid : string) : Z :=
  Z.of_nat (List.length
              (filter p (filter (fun e => (session_id e =? sid)%string) df))).

Lemma group_not_overall (g : key2 * list KeyEvent) :
  In g (groupby_session_test df') ->
  (snd (fst g) =? "overall")%string = false.
Proof.
  destruct g as [k grp]. intros Hg. unfold groupby_session_test in Hg.
  apply (groupby_In _ _ _ key2_eqb_eq) in Hg as [(e & He & Hk) _].
  injection Hk as <-. cbn [fst snd]. apply String.eqb_neq.
  apply no_overall_test.
  apply (Permutation_in _ (sort_values_perm
                              ["session_id"; "test_type"; "pressed_at"] df)),
    He.
Qed.

Lemma per_test_rows_sum (sid : string) :
  zsum (map cell (per_test_rows_of
                    sid (compute_keystroke_metrics sort_values df)))
  = session_count sid.
Proof.
  unfold per_test_rows_of. rewrite compute_keystroke_metrics_eq.
  fold df'. rewrite filter_app, !filter_map_comm.
  cbn [row_session_id row_test_type _agg_row fst snd].
  rewrite (filter_false_nil _ (unique String.eqb (map session_id df')))
    by (intros s _; apply andb_false_r).
  cbn [map]. rewrite app_nil_r.
  rewrite (filter_ext_in _ (fun g : key2 * list KeyEvent =>
                              (fst (fst g) =? sid)%string)).
  2:{ intros g Hg. rewrite (group_not_overall g Hg). apply andb_true_r. }
  rewrite map_map.
  rewrite (map_ext _ (fun g : key2 * list KeyEvent =>
                        Z.of_nat (List.length (filter p (snd g)))))
    by (intros g; apply cell_counts).
  rewrite session_counts_partition. unfold session_count. f_equal.
  apply Permutation_length.
  apply Permutation_filter_compat, Permutation_filter_compat,
    sort_values_perm.
Qed.

Lemma overall_rows_sum (sid : string) :
  zsum (map cell (overall_rows_of
                    sid (compute_keystroke_metrics sort_values df)))
  = session_count sid.
Proof.
  unfold overall_rows_of. rewrite compute_keystroke_metrics_eq.
  fold df'. rewrite filter_app, !filter_map_comm.
  cbn [row_session_id row_test_type _agg_row fst snd].
  rewrite (filter_false_nil _ (groupby_session_test df')).
  2:{ intros g Hg. rewrite (group_not_overall g Hg). apply andb_false_r. }
  cbn [map app].
  rewrite (filter_ext _ (fun s : string => (s =? sid)%string))
    by (intros s; apply andb_true_r).
  rewrite filter_eqb_NoDup by apply unique_NoDup, String.eqb_eq.
  unfold session_count.
  destruct (existsb _ _) eqn:Ex.
  - cbn [map]. rewrite cell_counts. unfold zsum. cbn [fold_right].
    rewrite Z.add_0_r. f_equal. apply Permutation_length.
    apply Permutation_filter_compat.
    unfold sorted_group. rewrite sort_values_perm.
    apply Permutation_filter_compat, sort_values_perm.
  - cbn [map]. unfold zsum. cbn [fold_right].
    rewrite (filter_false_nil (fun e => (session_id e =? sid)%string) df);
      [reflexivity|].
    intros e He. apply not_true_iff_false. intros Hs.
    apply not_true_iff_false in Ex. apply Ex.
    apply existsb_exists. exists (session_id e). split; [|exact Hs].
    apply (unique_In _ String.eqb_eq). apply in_map.
    apply (Permutation_in
             _ (Permutation_sym
                  (sort_values_perm
                     ["session_id"; "test_type"; "pressed_at"] df))), He.
Qed.

End SessionSums.

Lemma filter_true_id {A : Type} (l : list A) :
  filter (fun _ => true) l = l.
Proof. induction l as [|x l IH]; [reflexivity | simpl; now rewrite IH]. Qed.

(** X12.  Given that sorting rearranges rows and that no event has the
    test type [overall]: for every session, the [n_events],
    [n_keydowns] and [backspace_count] of its overall row are the sums
    of those of its per-test rows, and its [n_events] is the number of
    events of the session in the keystroke table. *)
Theorem overall_counts_sum_per_test_counts :
  forall sort_values,
    (forall cols df, Permutation (sort_values cols df) df) ->
    forall df,
      (forall e, In e df -> test_type e <> "overall") ->
      forall sid,
        zsum (map n_events
                  (overall_rows_of
                     sid (compute_keystroke_metrics sort_values df)))
        = zsum (map n_events
                    (per_test_rows_of
                       sid (compute_keystroke_metrics sort_values df)))
        /\ zsum (map n_keydowns
                     (overall_rows_of
                        sid (compute_keystroke_metrics sort_values df)))
           = zsum (map n_keydowns
                       (per_test_rows_of
                          sid (compute_keystroke_metrics sort_values df)))
        /\ zsum (map backspace_count
                     (overall_rows_of
                        sid (compute_keystroke_metrics sort_values df)))
           = zsum (map backspace_count
                       (per_test_rows_of
                          sid (compute_keystroke_metrics sort_values df)))
        /\ zsum (map n_events
                     (overall_rows_of
                        sid (compute_keystroke_metrics sort_values df)))
           = Z.of_nat
               (List.length
                  (filter (fun e => (session_id e =? sid)%string) df)).
Proof.
  intros sort_values Hperm df Hno sid.
  assert (He : forall sid tt grp khd iki,
             n_events (_agg_row sid tt grp khd iki)
             = Z.of_nat (List.length (filter (fun _ => true) grp))).
  { intros. now rewrite filter_true_id. }
  assert (Hk : forall sid tt grp khd iki,
             n_keydowns (_agg_row sid tt grp khd iki)
             = Z.of_nat (List.length (filter is_keydown grp))).
  { intros. apply count_keydowns_filter. }
  assert (Hb : forall sid tt grp khd iki,
             backspace_count (_agg_row sid tt grp khd iki)
             = Z.of_nat
                 (List.length
                    (filter (fun e => is_keydown e
                                      && (key e =? "Backspace")%string)
                            grp))).
  { intros. apply mask_sum_filter. }
  rewrite (overall_rows_sum sort_values Hperm _ _ He df Hno sid),
    (per_test_rows_sum sort_values Hperm _ _ He df Hno sid),
    (overall_rows_sum sort_values Hperm _ _ Hk df Hno sid),
    (per_test_rows_sum sort_values Hperm _ _ Hk df Hno sid),
    (overall_rows_sum sort_values Hperm _ _ Hb df Hno sid),
    (per_test_rows_sum sort_values Hperm _ _ Hb df Hno sid).
  now rewrite filter_true_id.
Qed.

(** Session [s1] of [fields_table]: six events in all. *)
Lemma overall_counts_sum_per_test_counts_witness :
  zsum (map n_events
            (overall_rows_of
               "s1" (compute_keystroke_metrics stable_sort_values
                                               fields_table)))
  = 6.
Proof.
  apply (proj2 (proj2 (proj2
           (overall_counts_sum_per_test_counts
              stable_sort_values stable_sort_values_Permutation fields_table
              ltac:(intros e He; simpl in He;
                    repeat (destruct He as [<- | He]; [discriminate|]);
                    destruct He)
              "s1")))).
Defined.

(** ** Stripping *)

Lemma whitespace_bytes_app (a b : list ascii) :
  whitespace_bytes a -> whitespace_bytes b -> whitespace_bytes (a ++ b).
Proof.
  intros Ha Hb. induction Ha; cbn [app];
    [exact Hb | now apply whitespace_1 | now apply whitespace_2
     | now apply whitespace_3].
Qed.

(** The three kinds of whitespace character differ by their first
    byte. *)
Lemma ws2_lead (c1 c2 : ascii) :
  ws2 c1 c2 = true -> N_of_ascii c1 = 194%N.
Proof.
  unfold ws2. intros H. apply andb_true_iff in H as [H _].
  now apply N.eqb_eq.
Qed.

Lemma ws3_lead (c1 c2 c3 : ascii) :
  ws3 c1 c2 c3 = true ->
  N_of_ascii c1 = 225%N \/ N_of_ascii c1 = 226%N \/ N_of_ascii c1 = 227%N.
Proof.
  unfold ws3. intros H.
  repeat (apply orb_true_iff in H as [H | H]);
    repeat (apply andb_true_iff in H as [H _]);
    apply N.eqb_eq in H; auto.
Qed.

Lemma ws2_not_ws1 (c1 c2 : ascii) : ws2 c1 c2 = true -> ws1 c1 = false.
Proof. intros H. apply ws2_lead in H. unfold ws1. now rewrite H. Qed.

Lemma ws3_not_ws1 (c1 c2 c3 : ascii) :
  ws3 c1 c2 c3 = true -> ws1 c1 = false.
Proof.
  intros H. apply ws3_lead in H. unfold ws1.
  destruct H as [-> | [-> | ->]]; reflexivity.
Qed.

Lemma ws3_not_ws2 (c1 c2 c3 c : ascii) :
  ws3 c1 c2 c3 = true -> ws2 c1 c = false.
Proof.
  intros H. apply ws3_lead in H. unfold ws2.
  destruct H as [-> | [-> | ->]]; reflexivity.
Qed.

Lemma lstrip_bytes_whitespace (l : list ascii) :
  whitespace_bytes l -> lstrip_bytes l = [].
Proof.
  induction 1 as [|c l Hc _ IH|c1 c2 l Hc _ IH|c1 c2 c3 l Hc _ IH];
    cbn [lstrip_bytes].
  - reflexivity.
  - now rewrite Hc.
  - now rewrite (ws2_not_ws1 _ _ Hc), Hc.
  - now rewrite (ws3_not_ws1 _ _ _ Hc), (ws3_not_ws2 _ _ _ c2 Hc), Hc.
Qed.

Lemma lstrip_bytes_spec_fuel (n : nat) (l : list ascii) :
  (List.length l <= n)%nat ->
  exists pre,
    l = pre ++ lstrip_bytes l /\ whitespace_bytes pre
    /\ starts_with_whitespace (lstrip_bytes l) = false.
Proof.
  revert l. induction n as [|n IH]; intros l Hl.
  - destruct l; [|simpl in Hl; lia].
    exists []. repeat split. constructor.
  - destruct l as [|c1 r1].
    { exists []. repeat split. constructor. }
    cbn [lstrip_bytes]. simpl in Hl.
    destruct (ws1 c1) eqn:E1.
    { destruct (IH r1) as (pre & Hp & Hw & Hs); [lia|].
      exists (c1 :: pre). cbn [app]. rewrite <- Hp.
      split; [reflexivity|]. split; [now apply whitespace_1 | exact Hs]. }
    destruct r1 as [|c2 r2].
    { exists []. split; [reflexivity|]. split; [constructor|].
      cbn [starts_with_whitespace]. now rewrite E1. }
    simpl in Hl.
    destruct (ws2 c1 c2) eqn:E2.
    { destruct (IH r2) as (pre & Hp & Hw & Hs); [lia|].
      exists (c1 :: c2 :: pre). cbn [app]. rewrite <- Hp.
      split; [reflexivity|]. split; [now apply whitespace_2 | exact Hs]. }
    destruct r2 as [|c3 r3].
    { exists []. split; [reflexivity|]. split; [constructor|].
      cbn [starts_with_whitespace]. now rewrite E1, E2. }
    simpl in Hl.
    destruct (ws3 c1 c2 c3) eqn:E3.
    { destruct (IH r3) as (pre & Hp & Hw & Hs); [lia|].
      exists (c1 :: c2 :: c3 :: pre). cbn [app]. rewrite <- Hp.
      split; [reflexivity|]. split; [now apply whitespace_3 | exact Hs]. }
    exists []. split; [reflexivity|]. split; [constructor|].
    cbn [starts_with_whitespace]. now rewrite E1, E2, E3.
Qed.

Lemma lstrip_rev_bytes_spec_fuel (n : nat) (l : list ascii) :
  (List.length l <= n)%nat ->
  exists pre,
    l = pre ++ lstrip_rev_bytes l /\ whitespace_bytes (rev pre)
    /\ starts_with_whitespace_rev (lstrip_rev_bytes l) = false.
Proof.
  revert l. induction n as [|n IH]; intros l Hl.
  - destruct l; [|simpl in Hl; lia].
    exists []. repeat split. constructor.
  - destruct l as [|c1 r1].
    { exists []. repeat split. constructor. }
    cbn [lstrip_rev_bytes]. simpl in Hl.
    destruct (ws1 c1) eqn:E1.
    { destruct (IH r1) as (pre & Hp & Hw & Hs); [lia|].
      exists (c1 :: pre). cbn [app]. rewrite <- Hp.
      split; [reflexivity|]. split; [|exact Hs].
      cbn [rev]. apply whitespace_bytes_app; [exact Hw|].
      apply whitespace_1; [exact E1 | constructor]. }
    destruct r1 as [|c2 r2].
    { exists []. split; [reflexivity|]. split; [constructor|].
      cbn [starts_with_whitespace_rev]. now rewrite E1. }
    simpl in Hl.
    destruct (ws2 c2 c1) eqn:E2.
    { destruct (IH r2) as (pre & Hp & Hw & Hs); [lia|].
      exists (c1 :: c2 :: pre). cbn [app]. rewrite <- Hp.
      split; [reflexivity|]. split; [|exact Hs].
      cbn [rev]. rewrite <- app_assoc.
      apply whitespace_bytes_app; [exact Hw|].
      apply whitespace_2; [exact E2 | constructor]. }
    destruct r2 as [|c3 r3].
    { exists []. split; [reflexivity|]. split; [constructor|].
      cbn [starts_with_whitespace_rev]. now rewrite E1, E2. }
    simpl in Hl.
    destruct (ws3 c3 c2 c1) eqn:E3.
    { destruct (IH r3) as (pre & Hp & Hw & Hs); [lia|].
      exists (c1 :: c2 :: c3 :: pre). cbn [app]. rewrite <- Hp.
      split; [reflexivity|]. split; [|exact Hs].
      cbn [rev]. rewrite <- !app_assoc.
      apply whitespace_bytes_app; [exact Hw|].
      apply whitespace_3; [exact E3 | constructor]. }
    exists []. split; [reflexivity|]. split; [constructor|].
    cbn [starts_with_whitespace_rev]. now rewrite E1, E2, E3.
Qed.

Lemma starts_with_whitespace_prefix (a b : list ascii) :
  starts_with_whitespace (a ++ b) = false ->
  starts_with_whitespace a = false.
Proof.
  destruct a as [|c1 [|c2 [|c3 a]]]; cbn [app starts_with_whitespace].
  - reflexivity.
  - intros H. apply orb_false_iff in H as [-> _]. reflexivity.
  - intros H. apply orb_false_iff in H as [-> H].
    apply orb_false_iff in H as [-> _]. reflexivity.
  - auto.
Qed.

Lemma lstrip_bytes_fixed (l : list ascii) :
  starts_with_whitespace l = false -> lstrip_bytes l = l.
Proof.
  destruct l as [|c1 [|c2 [|c3 l]]];
    cbn [starts_with_whitespace lstrip_bytes]; [reflexivity|..]; intros H.
  - apply orb_false_iff in H as [-> _]. reflexivity.
  - apply orb_false_iff in H as [-> H].
    apply orb_false_iff in H as [-> _]. reflexivity.
  - apply orb_false_iff in H as [-> H].
    apply orb_false_iff in H as [-> ->]. reflexivity.
Qed.

Lemma lstrip_rev_bytes_fixed (l : list ascii) :
  starts_with_whitespace_rev l = false -> lstrip_rev_bytes l = l.
Proof.
  destruct l as [|c1 [|c2 [|c3 l]]];
    cbn [starts_with_whitespace_rev lstrip_rev_bytes]; [reflexivity|..];
    intros H.
  - apply orb_false_iff in H as [-> _]. reflexivity.
  - apply orb_false_iff in H as [-> H].
    apply orb_false_iff in H as [-> _]. reflexivity.
  - apply orb_false_iff in H as [-> H].
    apply orb_false_iff in H as [-> ->]. reflexivity.
Qed.

(** [strip] removes a run of whitespace characters at each end and
    leaves a string with no whitespace character at either end. *)
Lemma strip_spec (s : string) :
  exists pre post,
    list_ascii_of_string s = pre ++ list_ascii_of_string (strip s) ++ post
    /\ whitespace_bytes pre /\ whitespace_bytes post
    /\ starts_with_whitespace (list_ascii_of_string (strip s)) = false
    /\ ends_with_whitespace (list_ascii_of_string (strip s)) = false.
Proof.
  unfold strip. rewrite list_ascii_of_string_of_list_ascii.
  destruct (lstrip_bytes_spec_fuel _ (list_ascii_of_string s) (le_n _))
    as (pre & Hpre & Wpre & Spre).
  set (mid := lstrip_bytes (list_ascii_of_string s)) in *.
  destruct (lstrip_rev_bytes_spec_fuel _ (rev mid) (le_n _))
    as (post & Hpost & Wpost & Spost).
  set (kept := lstrip_rev_bytes (rev mid)) in *.
  assert (Hmid : mid = rev kept ++ rev post).
  { rewrite <- rev_app_distr, <- Hpost. symmetry. apply rev_involutive. }
  exists pre, (rev post).
  split; [now rewrite <- Hmid|]. split; [exact Wpre|]. split; [exact Wpost|].
  split.
  - apply starts_with_whitespace_prefix with (b := rev post).
    now rewrite <- Hmid.
  - unfold ends_with_whitespace. now rewrite rev_involutive.
Qed.

Lemma strip_empty_iff (s : string) :
  strip s = "" <-> whitespace_bytes (list_ascii_of_string s).
Proof.
  split.
  - intros E. destruct (strip_spec s) as (pre & post & H & Wpre & Wpost & _).
    rewrite E in H. rewrite H. now apply whitespace_bytes_app.
  - intros H. unfold strip. now rewrite (lstrip_bytes_whitespace _ H).
Qed.

Lemma forallb_ws1_whitespace (l : list ascii) :
  forallb ws1 l = true -> whitespace_bytes l.
Proof.
  induction l as [|c l IH]; [constructor|].
  cbn [forallb]. intros H. apply andb_true_iff in H as [Hc Hl].
  apply whitespace_1; auto.
Qed.

(** X13.  [strip] trims whitespace at the two ends and nothing else:
    (1) the bytes of [s] are those of [strip s] between a removed prefix
    and a removed suffix, each made of whitespace characters only;
    (2) [strip s] neither begins nor ends with a whitespace character;
    (3) a string that neither begins nor ends with a whitespace
    character is left as it is; (4) [strip s] is empty exactly when [s]
    is made of whitespace characters only, in particular when it is made
    of ASCII whitespace (tab, line feed, vertical tab, form feed,
    carriage return, the separators 28 to 31 and space); (5) so, given
    that sorting rearranges rows, the per-field table has a row for a
    field exactly when an event carries its name and the name is not
    made of whitespace only: a field with such a name is skipped by the
    per-field pass. *)
Theorem strip_trims_both_ends :
  (forall s,
      exists pre post,
        list_ascii_of_string s
        = pre ++ list_ascii_of_string (strip s) ++ post
        /\ whitespace_bytes pre /\ whitespace_bytes post)
  /\ (forall s,
         starts_with_whitespace (list_ascii_of_string (strip s)) = false
         /\ ends_with_whitespace (list_ascii_of_string (strip s)) = false)
  /\ (forall s,
         starts_with_whitespace (list_ascii_of_string s) = false ->
         ends_with_whitespace (list_ascii_of_string s) = false ->
         strip s = s)
  /\ (forall s, strip s = "" <-> whitespace_bytes (list_ascii_of_string s))
  /\ (forall s, forallb ws1 (list_ascii_of_string s) = true -> strip s = "")
  /\ (forall sort_values,
         (forall cols df, Permutation (sort_values cols df) df) ->
         forall df sid tt f,
           (exists r,
               In r (compute_keystroke_metrics_by_field sort_values df)
               /\ row_session_id r = sid /\ row_test_type r = tt
               /\ row_field_name r = Some f)
           <-> (exists e, In e df /\ session_id e = sid /\ test_type e = tt
                          /\ field_name e = Some f)
               /\ ~ whitespace_bytes (list_ascii_of_string f)).
Proof.
  split.
  { intros s. destruct (strip_spec s) as (pre & post & H & Wpre & Wpost & _).
    now exists pre, post. }
  split.
  { intros s. destruct (strip_spec s) as (pre & post & _ & _ & _ & H).
    exact H. }
  split.
  { intros s Hs He. unfold strip, ends_with_whitespace in *.
    rewrite (lstrip_bytes_fixed _ Hs), (lstrip_rev_bytes_fixed _ He),
      rev_involutive.
    apply string_of_list_ascii_of_string. }
  split; [exact strip_empty_iff|].
  split.
  { intros s H. now apply strip_empty_iff, forallb_ws1_whitespace. }
  intros sort_values Hperm df sid tt f.
  rewrite (by_field_row_exists_iff sort_values Hperm), strip_empty_iff.
  reflexivity.
Qed.

(** A name made of a tab and two spaces strips to nothing and gives no
    per-field row; [q1] is left as it is. *)
Lemma strip_trims_both_ends_witness :
  strip (String (ascii_of_nat 9) "  ") = ""
  /\ strip "q1" = "q1"
  /\ ~ (exists r,
           In r (compute_keystroke_metrics_by_field
                   stable_sort_values
                   [ev (Some (String (ascii_of_nat 9) "  ")) "keydown" "a" 0])
           /\ row_session_id r = "s1" /\ row_test_type r = "free"
           /\ row_field_name r = Some (String (ascii_of_nat 9) "  ")).
Proof.
  destruct strip_trims_both_ends as (_ & _ & Hfix & Hempty & Hascii & Hrow).
  split; [apply Hascii; reflexivity|].
  split; [apply Hfix; reflexivity|].
  intros H.
  apply (Hrow stable_sort_values stable_sort_values_Permutation) in H
    as [_ Hn].
  apply Hn, Hempty, Hascii. reflexivity.
Defined.

(** ** When the input checks pass *)

Lemma check_columns_None_iff (cols columns : list string) :
  check_columns cols columns = None <->
  forall c, In c cols -> has_column columns c = true.
Proof.
  induction cols as [|c cols IH]; simpl; [split; [intros _ ? [] | auto]|].
  destruct (has_column columns c) eqn:E; simpl.
  - rewrite IH. split.
    + intros H c' [<- | Hc]; auto.
    + intros H c' Hc. apply H. now right.
  - split; [discriminate|]. intros H.
    rewrite (H c (or_introl eq_refl)) in E. discriminate.
Qed.

(** X14.  The input checks of CHUNK 1 pass exactly when the timestamp
    column ([pressed_at], or [timestamp] when there is no [pressed_at])
    exists and parses and the four columns [session_id], [test_type],
    [event_type] and [key] are all present; and a timestamp column that
    exists but does not parse stops the program on the parse error,
    whatever columns are missing. *)
Theorem load_checks_pass_iff (columns : list string)
        (parses : string -> bool) :
  (load_checks columns parses = None <->
   has_column columns (ts_col columns) = true
   /\ parses (ts_col columns) = true
   /\ forall c, In c checked_columns -> has_column columns c = true)
  /\ (has_column columns (ts_col columns) = true ->
      parses (ts_col columns) = false ->
      load_checks columns parses = Some DateParseError).
Proof.
  unfold load_checks. split.
  - destruct (has_column columns (ts_col columns)); cbn [negb].
    + destruct (parses (ts_col columns)); cbn [negb].
      * rewrite check_columns_None_iff. tauto.
      * split; [discriminate | now intros (_ & [=] & _)].
    + split; [discriminate | now intros ([=] & _)].
  - intros -> ->. reflexivity.
Qed.

(** A table whose timestamps do not parse and that also lacks [key]. *)
Lemma load_checks_pass_iff_witness :
  load_checks ["session_id"; "test_type"; "event_type"; "pressed_at"]
              (fun _ => false)
  = Some DateParseError.
Proof.
  apply (proj2 (load_checks_pass_iff
                  ["session_id"; "test_type"; "event_type"; "pressed_at"]
                  (fun _ => false))); reflexivity.
Defined.

(** ** The left merge *)

Section MergeFacts.

Context {Stress : Type}.
Variable stress_key : Stress -> key2.

Lemma merge_left_In (metrics : list MetricsRow) (stress : list Stress)
      (r : MetricsRow) (c : option Stress) :
  In (r, c) (merge_left stress_key metrics stress) <->
  In r metrics
  /\ match c with
     | Some s => In s stress /\ stress_key s = row_key r
     | None => forall s, In s stress -> stress_key s <> row_key r
     end.
Proof.
  unfold merge_left. rewrite in_flat_map. split.
  - intros (r' & Hr' & H).
    destruct (stress_matches stress_key stress r') as [|s more] eqn:E.
    + destruct H as [[= <- <-] | []]. split; [exact Hr'|].
      intros s Hs Hk.
      assert (Hin : In s (stress_matches stress_key stress r')).
      { apply filter_In. split; [exact Hs | now apply key2_eqb_eq]. }
      rewrite E in Hin. destruct Hin.
    + apply in_map_iff in H as (s' & [= <- <-] & Hs').
      split; [exact Hr'|]. rewrite <- E in Hs'.
      apply filter_In in Hs' as [H1 H2]. apply key2_eqb_eq in H2. auto.
  - intros [Hr Hc]. exists r. split; [exact Hr|].
    destruct c as [s|].
    + destruct Hc as [Hs Hk].
      assert (Hin : In s (stress_matches stress_key stress r)).
      { apply filter_In. split; [exact Hs | now apply key2_eqb_eq]. }
      destruct (stress_matches stress_key stress r) as [|s0 more];
        [destruct Hin|].
      apply in_map_iff. eauto.
    + destruct (stress_matches stress_key stress r) as [|s0 more] eqn:E;
        [now left|].
      exfalso. assert (Hin : In s0 (stress_matches stress_key stress r))
        by (rewrite E; now left).
      apply filter_In in Hin as [H1 H2]. apply key2_eqb_eq in H2.
      exact (Hc s0 H1 H2).
Qed.

Lemma filter_key_NoDup (k : key2) (stress : list Stress) :
  NoDup (map stress_key stress) ->
  (List.length (filter (fun s => key2_eqb (stress_key s) k) stress) <= 1)%nat.
Proof.
  induction stress as [|s stress IH]; [simpl; lia|].
  cbn [map filter]. intros Hnd. apply NoDup_cons_iff in Hnd as [Hs Hnd].
  destruct (key2_eqb (stress_key s) k) eqn:E; [|now apply IH].
  apply key2_eqb_eq in E.
  rewrite filter_false_nil; [simpl; lia|].
  intros s' Hs'. apply not_true_iff_false. intros E'.
  apply key2_eqb_eq in E'. apply Hs. rewrite E, <- E'. now apply in_map.
Qed.

(** X15.  The left merge of CHUNK 2 keeps every metrics row: a metrics
    row is paired with each stress row of the same
    [(session_id, test_type)], and with missing stress cells exactly
    when there is none; so the merged table has at least as many rows
    as the metrics table, and when no two stress rows share their keys
    it has the metrics rows once each, in their order. *)
Theorem merge_left_keeps_metrics_rows (metrics : list MetricsRow)
        (stress : list Stress) :
  (forall r s,
      In (r, Some s) (merge_left stress_key metrics stress) <->
      In r metrics /\ In s stress /\ stress_key s = row_key r)
  /\ (forall r,
         In (r, None) (merge_left stress_key metrics stress) <->
         In r metrics
         /\ forall s, In s stress -> stress_key s <> row_key r)
  /\ (forall r,
         In r (map fst (merge_left stress_key metrics stress)) <->
         In r metrics)
  /\ (List.length metrics
      <= List.length (merge_left stress_key metrics stress))%nat
  /\ (NoDup (map stress_key stress) ->
      map fst (merge_left stress_key metrics stress) = metrics).
Proof.
  split; [intros r s; apply (merge_left_In metrics stress r (Some s))|].
  split; [intros r; apply (merge_left_In metrics stress r None)|].
  split; [|split].
  - intros r. rewrite in_map_iff. split.
    + intros ([r' c] & <- & H). now apply merge_left_In in H as [H _].
    + intros Hr. unfold merge_left.
      destruct (stress_matches stress_key stress r) as [|s more] eqn:E.
      * exists (r, None). split; [reflexivity|].
        apply in_flat_map. exists r. split; [exact Hr|].
        rewrite E. now left.
      * exists (r, Some s). split; [reflexivity|].
        apply in_flat_map. exists r. split; [exact Hr|].
        rewrite E. now left.
  - unfold merge_left. induction metrics as [|r metrics IH]; [simpl; lia|].
    cbn [flat_map]. rewrite length_app.
    destruct (stress_matches stress_key stress r); simpl in *; lia.
  - intros Hnd. unfold merge_left.
    induction metrics as [|r metrics IH]; [reflexivity|].
    cbn [flat_map]. rewrite map_app, IH.
    pose proof (filter_key_NoDup (row_key r) stress Hnd) as Hl.
    unfold stress_matches.
    destruct (filter _ stress) as [|s [|s' more]]; simpl in *;
      [reflexivity | reflexivity | lia].
Qed.

(** X16.  When no stress row has the test type [overall], every
    [overall] row of the merged table carries missing stress cells, and
    the per-test filter of CHUNK 3 removes these rows and no other: the
    metrics rows left are the merged metrics rows whose test type is not
    [overall]. *)
Theorem overall_rows_have_no_stress (metrics : list MetricsRow)
        (stress : list Stress) :
  ((forall s, In s stress -> snd (stress_key s) <> "overall") ->
   forall r c,
     In (r, c) (merge_left stress_key metrics stress) ->
     row_test_type r = "overall" -> c = None)
  /\ (forall r c,
         In (r, c) (merged_per_test (merge_left stress_key metrics stress))
         <-> In (r, c) (merge_left stress_key metrics stress)
             /\ row_test_type r <> "overall").
Proof.
  split.
  - intros Hno r c Hin Ht. destruct c as [s|]; [|reflexivity].
    apply merge_left_In in Hin as (_ & Hs & Hk).
    exfalso. apply (Hno s Hs). rewrite Hk. exact Ht.
  - intros r c. unfold merged_per_test. rewrite filter_In. cbn [fst].
    rewrite negb_true_iff, String.eqb_neq. tauto.
Qed.

End MergeFacts.

(** The metrics table of session [s1] merged with one stress row for
    its [free] test. *)
Lemma merge_left_keeps_metrics_rows_witness :
  map fst (merge_left (fun s : key2 * Z => fst s)
                      (compute_keystroke_metrics stable_sort_values
                                                 fields_table)
                      [(("s1", "free"), 4)])
  = compute_keystroke_metrics stable_sort_values fields_table.
Proof.
  apply (proj2 (proj2 (proj2 (proj2
           (merge_left_keeps_metrics_rows
              (fun s : key2 * Z => fst s)
              (compute_keystroke_metrics stable_sort_values fields_table)
              [(("s1", "free"), 4)]))))).
  repeat constructor. intros [].
Defined.

(** The second row of that merged table is the overall row of [s1]. *)
Lemma overall_rows_have_no_stress_witness :
  exists r c,
    nth_error (merge_left (fun s : key2 * Z => fst s)
                          (compute_keystroke_metrics stable_sort_values
                                                     fields_table)
                          [(("s1", "free"), 4)]) 1
    = Some (r, c)
    /\ row_test_type r = "overall" /\ c = None.
Proof.
  eexists. eexists. split; [vm_compute; reflexivity|].
  split; [reflexivity|].
  eapply (proj1 (overall_rows_have_no_stress
                   (fun s : key2 * Z => fst s)
                   (compute_keystroke_metrics stable_sort_values fields_table)
                   [(("s1", "free"), 4)])).
  - intros s [<- | []]. discriminate.
  - vm_compute. right. left. reflexivity.
  - reflexivity.
Defined.

(** ** Correlations on complete pairs *)

Lemma combine_app_same_length {A B : Type} (x1 x2 : list A)
      (y1 y2 : list B) :
  List.length x1 = List.length y1 ->
  combine (x1 ++ x2) (y1 ++ y2) = combine x1 y1 ++ combine x2 y2.
Proof.
  revert y1. induction x1 as [|a x1 IH]; intros [|b y1] H;
    simpl in *; try discriminate; [reflexivity|].
  f_equal. apply IH. lia.
Qed.

Section SafeCorrFacts.

Context {V Res : Type}.
Variable pearsonr : list (option V) -> list (option V) -> Res.
Variable nan_pair : Res.

(** The mask of [safe_corr]. *)
Let mask (x y : list (option V)) : list bool :=
  map (fun c => negb (isna (fst c) || isna (snd c))) (combine x y).

Lemma mask_complete_pairs (x y : list (option V)) :
  mask_sum (mask x y) = Z.of_nat (List.length (complete_pairs x y))
  /\ select_mask x (mask x y) = map (fun c => Some (fst c)) (complete_pairs x y)
  /\ select_mask y (mask x y) = map (fun c => Some (snd c)) (complete_pairs x y).
Proof.
  unfold mask, select_mask, complete_pairs. revert y.
  induction x as [|a x IH]; intros y; [destruct y; simpl; auto|].
  destruct y as [|b y]; [simpl; auto|].
  destruct (IH y) as (H1 & H2 & H3).
  cbn [combine map flat_map fst snd].
  unfold mask_sum in *. cbn [fold_right].
  destruct a as [a|], b as [b|]; cbn [isna orb negb filter snd map fst app];
    rewrite ?H1, ?H2, ?H3; cbn [List.length]; repeat split; lia.
Qed.

(** X17.  [safe_corr] looks only at the rows where both columns have a
    value: with fewer than three such rows it returns the NaN pair;
    otherwise it returns what [pearsonr] gives on the two columns
    restricted to these rows, which hold no NaN and have the same
    length.  Hence a row with a missing value in either column can be
    dropped without changing the result. *)
Theorem safe_corr_uses_complete_pairs (x y : list (option V)) :
  safe_corr pearsonr nan_pair x y
  = (let pairs := complete_pairs x y in
     if Z.of_nat (List.length pairs) <? 3 then nan_pair
     else pearsonr (map (fun c => Some (fst c)) pairs)
                   (map (fun c => Some (snd c)) pairs))
  /\ (forall x1 x2 y1 y2 a b,
         x = x1 ++ a :: x2 -> y = y1 ++ b :: y2 ->
         List.length x1 = List.length y1 ->
         a = None \/ b = None ->
         safe_corr pearsonr nan_pair x y
         = safe_corr pearsonr nan_pair (x1 ++ x2) (y1 ++ y2)).
Proof.
  assert (Hs : forall x y,
             safe_corr pearsonr nan_pair x y
             = (let pairs := complete_pairs x y in
                if Z.of_nat (List.length pairs) <? 3 then nan_pair
                else pearsonr (map (fun c => Some (fst c)) pairs)
                              (map (fun c => Some (snd c)) pairs))).
  { intros x0 y0. unfold safe_corr. cbv zeta.
    destruct (mask_complete_pairs x0 y0) as (H1 & H2 & H3).
    unfold mask in *. now rewrite H1, H2, H3. }
  split; [apply Hs|].
  intros x1 x2 y1 y2 a b -> -> Hlen Hna.
  rewrite !Hs. cbv zeta.
  assert (Hc : complete_pairs (x1 ++ a :: x2) (y1 ++ b :: y2)
               = complete_pairs (x1 ++ x2) (y1 ++ y2)).
  { unfold complete_pairs.
    rewrite !combine_app_same_length by assumption.
    rewrite !flat_map_app. f_equal. cbn [combine flat_map].
    destruct Hna as [-> | ->]; [reflexivity | now destruct a]. }
  now rewrite Hc.
Qed.

End SafeCorrFacts.

(** Four rows, one of them without a stress value: three complete pairs
    are left, the same as without that row. *)
Lemma safe_corr_uses_complete_pairs_witness :
  safe_corr (fun a b : list (option Z) => Some (a, b)) None
            ([Some 1; Some 2] ++ Some 9 :: [Some 3])
            ([Some 4; Some 5] ++ None :: [Some 6])
  = safe_corr (fun a b : list (option Z) => Some (a, b)) None
              ([Some 1; Some 2] ++ [Some 3])
              ([Some 4; Some 5] ++ [Some 6]).
Proof.
  apply (proj2 (safe_corr_uses_complete_pairs
                  (fun a b : list (option Z) => Some (a, b)) None
                  ([Some 1; Some 2] ++ Some 9 :: [Some 3])
                  ([Some 4; Some 5] ++ None :: [Some 6]))
               [Some 1; Some 2] [Some 3] [Some 4; Some 5] [Some 6]
               (Some 9) None); auto.
Defined.

(** ** Summary statistics *)

Lemma groupby_test_field_In (rows : list MetricsRow) (k : key2)
      (grp : list MetricsRow) :
  In (k, grp) (groupby_test_field rows) <->
  (exists r, In r rows /\ test_field r = Some k)
  /\ grp = filter (fun r => match test_field r with
                            | Some k' => key2_eqb k' k
                            | None => false
                            end) rows.
Proof.
  unfold groupby_test_field. rewrite in_map_iff.
  assert (Hk : In k (isort_by key2_leb
                       (unique key2_eqb
                          (flat_map (fun r => match test_field r with
                                              | Some k => [k]
                                              | None => []
                                              end) rows)))
               <-> exists r, In r rows /\ test_field r = Some k).
  { rewrite (Permutation_In_iff _ _ _ (isort_by_Permutation key2_leb _)).
    rewrite (unique_In key2_eqb key2_eqb_eq), in_flat_map. split.
    - intros (r & Hr & H). exists r. split; [exact Hr|].
      destruct (test_field r) as [k'|]; [|destruct H].
      destruct H as [<- | []]. reflexivity.
    - intros (r & Hr & H). exists r. split; [exact Hr|].
      rewrite H. now left. }
  rewrite <- Hk. split.
  - intros (k' & [= -> <-] & H). auto.
  - intros [H ->]. exists k. auto.
Qed.

Lemma groupby_test_field_NoDup (rows : list MetricsRow) :
  NoDup (map fst (groupby_test_field rows)).
Proof.
  unfold groupby_test_field. rewrite map_map. cbn [fst]. rewrite map_id.
  apply (Permutation_NoDup
           (Permutation_sym (isort_by_Permutation key2_leb _))).
  apply unique_NoDup, key2_eqb_eq.
Qed.

Lemma test_field_Some (r : MetricsRow) (tt f : string) :
  test_field r = Some (tt, f) <->
  row_test_type r = tt /\ row_field_name r = Some f.
Proof.
  unfold test_field. destruct (row_field_name r) as [f'|].
  - split; [now intros [= -> ->] | now intros [-> [= ->]]].
  - split; [discriminate | now intros [_ [=]]].
Qed.

Section SummariesFacts.

Context {Stat : Type}.
Variable quantile : Q -> list (option Cell) -> Stat.
Variable series_mean : list (option Cell) -> Stat.

(** The rows of the per-field table for test [tt] and field [f] whose
    cell in column [col] is not NaN. *)
Let present_rows (rows : list MetricsRow) (tt f col : string)
  : list MetricsRow :=
  filter (fun r => negb (isna (column col r)))
         (filter (fun r => match test_field r with
                           | Some k' => key2_eqb k' (tt, f)
                           | None => false
                           end) rows).

Lemma field_stats_rows_In (rows : list MetricsRow) (s : StatRow) :
  In s (field_stats_rows quantile series_mean rows) <->
  exists tt f col,
    In col field_numeric_metrics
    /\ present_rows rows tt f col <> []
    /\ s = (let vals :=
              dropna (map (column col)
                          (filter (fun r => match test_field r with
                                            | Some k' => key2_eqb k' (tt, f)
                                            | None => false
                                            end) rows)) in
            {| stat_test_type := tt;
               stat_field_name := Some f;
               stat_metric := col;
               stat_p10 := quantile 0.10 vals;
               stat_mean := series_mean vals;
               stat_p90 := quantile 0.90 vals;
               stat_n_rows := Some (Z.of_nat (List.length vals)) |}).
Proof.
  assert (Hne : forall col grp,
             nonempty (dropna (map (column col) grp)) = true <->
             filter (fun r => negb (isna (column col r))) grp <> []).
  { intros col grp. unfold dropna. rewrite filter_map_comm.
    destruct (filter _ grp); simpl; split; congruence. }
  unfold field_stats_rows, present_rows. rewrite in_flat_map. split.
  - intros ([[tt f] grp] & Hg & Hs). cbn [fst snd] in Hs.
    apply groupby_test_field_In in Hg as [_ ->].
    apply in_flat_map in Hs as (col & Hcol & Hs).
    destruct (nonempty _) eqn:E; [|destruct Hs].
    destruct Hs as [<- | []].
    exists tt, f, col. split; [exact Hcol|]. split; [|reflexivity].
    now apply Hne.
  - intros (tt & f & col & Hcol & Hp & ->).
    exists (tt, f, filter (fun r => match test_field r with
                                    | Some k' => key2_eqb k' (tt, f)
                                    | None => false
                                    end) rows).
    split.
    + apply groupby_test_field_In. split; [|reflexivity].
      destruct (filter _ (filter _ rows)) as [|r l] eqn:E; [contradiction|].
      assert (Hr : In r (filter (fun r => negb (isna (column col r)))
                                (filter (fun r => match test_field r with
                                                  | Some k' =>
                                                      key2_eqb k' (tt, f)
                                                  | None => false
                                                  end) rows)))
        by (rewrite E; now left).
      apply filter_In in Hr as [Hr _]. apply filter_In in Hr as [Hr Hk].
      exists r. split; [exact Hr|].
      destruct (test_field r) as [k'|]; [|discriminate].
      apply key2_eqb_eq in Hk. now subst k'.
    + cbn [fst snd]. apply in_flat_map. exists col. split; [exact Hcol|].
      cbv zeta. rewrite (proj2 (Hne col _) Hp). now left.
Qed.

(** X18.  The per-field summary of CHUNK 7 has a row for a test type, a
    field name and a metric of its list exactly when some row of the
    per-field table for that test type and field has a value (not NaN)
    in that metric; such a row is unique, and its [n_rows] is the number
    of these rows, at least 1.  The metrics that are never NaN
    ([pause_count_200ms], [pause_count_500ms], [backspace_rate]) have a
    summary row for every test type and field of the table. *)
Theorem field_stats_rows_present_metrics (rows : list MetricsRow) :
  (forall tt f col,
      (exists s,
          In s (field_stats_rows quantile series_mean rows)
          /\ stat_test_type s = tt /\ stat_field_name s = Some f
          /\ stat_metric s = col)
      <-> In col field_numeric_metrics
          /\ exists r, In r rows /\ row_test_type r = tt
                       /\ row_field_name r = Some f
                       /\ column col r <> None)
  /\ (forall s,
         In s (field_stats_rows quantile series_mean rows) ->
         exists tt f n,
           stat_test_type s = tt /\ stat_field_name s = Some f
           /\ stat_n_rows s = Some n /\ 1 <= n
           /\ n = Z.of_nat
                    (List.length
                       (filter (fun r =>
                                  (row_test_type r =? tt)%string
                                  && match row_field_name r with
                                     | Some f' => (f' =? f)%string
                                     | None => false
                                     end
                                  && negb (isna (column (stat_metric s) r)))
                               rows)))
  /\ (forall s s',
         In s (field_stats_rows quantile series_mean rows) ->
         In s' (field_stats_rows quantile series_mean rows) ->
         stat_test_type s = stat_test_type s' ->
         stat_field_name s = stat_field_name s' ->
         stat_metric s = stat_metric s' -> s = s')
  /\ (forall r f col,
         In r rows -> row_field_name r = Some f ->
         In col ["pause_count_200ms"; "pause_count_500ms"; "backspace_rate"] ->
         exists s,
           In s (field_stats_rows quantile series_mean rows)
           /\ stat_test_type s = row_test_type r
           /\ stat_field_name s = Some f /\ stat_metric s = col).
Proof.
  assert (Hpres : forall tt f col,
             present_rows rows tt f col <> [] <->
             exists r, In r rows /\ row_test_type r = tt
                       /\ row_field_name r = Some f
                       /\ column col r <> None).
  { intros tt f col. unfold present_rows. split.
    - intros H. destruct (filter _ (filter _ rows)) as [|r l] eqn:E;
        [contradiction|].
      assert (Hr : In r (r :: l)) by now left. rewrite <- E in Hr.
      apply filter_In in Hr as [Hr Hc]. apply filter_In in Hr as [Hr Hk].
      exists r. split; [exact Hr|].
      destruct (test_field r) as [k'|] eqn:Ek; [|discriminate].
      apply key2_eqb_eq in Hk. subst k'.
      apply test_field_Some in Ek as [Ht Hf].
      repeat split; auto. intros Hn. rewrite Hn in Hc. discriminate.
    - intros (r & Hr & Ht & Hf & Hc) E.
      assert (Hin : In r (filter (fun r => negb (isna (column col r)))
                                 (filter (fun r => match test_field r with
                                                   | Some k' =>
                                                       key2_eqb k' (tt, f)
                                                   | None => false
                                                   end) rows))).
      { apply filter_In. split.
        - apply filter_In. split; [exact Hr|].
          rewrite (proj2 (test_field_Some r tt f) (conj Ht Hf)).
          now apply key2_eqb_eq.
        - destruct (column col r); [reflexivity | contradiction]. }
      rewrite E in Hin. destruct Hin. }
  assert (Hmain : forall tt f col,
             (exists s,
                 In s (field_stats_rows quantile series_mean rows)
                 /\ stat_test_type s = tt /\ stat_field_name s = Some f
                 /\ stat_metric s = col)
             <-> In col field_numeric_metrics
                 /\ exists r, In r rows /\ row_test_type r = tt
                              /\ row_field_name r = Some f
                              /\ column col r <> None).
  { intros tt f col. rewrite <- Hpres. split.
    - intros (s & Hs & Ht & Hf & Hc).
      apply field_stats_rows_In in Hs
        as (tt' & f' & col' & Hcol & Hp & ->).
      cbv zeta in *. cbn [stat_test_type stat_field_name stat_metric] in *.
      injection Hf as ->. subst. auto.
    - intros [Hcol Hp]. eexists. split.
      + apply field_stats_rows_In. exists tt, f, col. eauto.
      + cbv zeta. auto. }
  split; [exact Hmain|]. split; [|split].
  - intros s Hs.
    apply field_stats_rows_In in Hs as (tt & f & col & Hcol & Hp & ->).
    cbv zeta. cbn [stat_test_type stat_field_name stat_metric stat_n_rows].
    eexists tt, f, _. split; [reflexivity|]. split; [reflexivity|].
    split; [reflexivity|].
    unfold dropna. rewrite filter_map_comm, length_map.
    unfold present_rows in Hp. rewrite filter_filter_andb in *.
    assert (He : filter (fun x =>
                           match test_field x with
                           | Some k' => key2_eqb k' (tt, f)
                           | None => false
                           end && negb (isna (column col x))) rows
                 = filter (fun r =>
                             (row_test_type r =? tt)%string
                             && match row_field_name r with
                                | Some f' => (f' =? f)%string
                                | None => false
                                end
                             && negb (isna (column col r))) rows).
    { apply filter_ext. intros r. unfold test_field.
      destruct (row_field_name r); [reflexivity|].
      now rewrite andb_false_r. }
    rewrite He in *. split; [|reflexivity].
    destruct (filter _ rows); [contradiction | simpl; lia].
  - intros s s' Hs Hs' Ht Hf Hc.
    apply field_stats_rows_In in Hs as (tt & f & col & _ & _ & ->).
    apply field_stats_rows_In in Hs' as (tt' & f' & col' & _ & _ & ->).
    cbv zeta in *. cbn [stat_test_type stat_field_name stat_metric] in *.
    injection Hf as ->. now subst.
  - intros r f col Hr Hf Hcol. apply Hmain. split.
    + simpl in *. tauto.
    + exists r. repeat split; auto.
      simpl in Hcol.
      destruct Hcol as [<- | [<- | [<- | []]]]; discriminate.
Qed.

(** X19.  The overall summary of CHUNK 6 stops with the [KeyError] on
    [test_type] exactly when the metrics table has no row; otherwise it
    has exactly one row for every test type of the metrics table
    (including [overall]) and every metric of its list, computed from
    the cells of the rows of that test type, and no other row. *)
Theorem overall_stats_rows (metrics_df : list MetricsRow) :
  (overall_stats quantile series_mean metrics_df = inl (KeyError "test_type")
   <-> metrics_df = [])
  /\ (forall r0 rest,
         metrics_df = r0 :: rest ->
         exists stats,
           overall_stats quantile series_mean metrics_df = inr stats
           /\ (forall s,
                  In s stats <->
                  exists tt col,
                    (exists r, In r metrics_df /\ row_test_type r = tt)
                    /\ In col numeric_metrics
                    /\ s = (let vals :=
                              map (column col)
                                  (filter (fun r =>
                                             (row_test_type r =? tt)%string)
                                          metrics_df) in
                            {| stat_test_type := tt;
                               stat_field_name := None;
                               stat_metric := col;
                               stat_p10 := quantile 0.10 vals;
                               stat_mean := series_mean vals;
                               stat_p90 := quantile 0.90 vals;
                               stat_n_rows := None |}))
           /\ NoDup (map (fun s => (stat_test_type s, stat_metric s)) stats)).
Proof.
  split.
  - destruct metrics_df; simpl; split; congruence.
  - intros r0 rest ->. eexists. split; [reflexivity|].
    set (M := r0 :: rest). split.
    + intros s. rewrite in_flat_map. split.
      * intros (tt & Htt & Hs).
        apply (proj1 (unique_In _ String.eqb_eq _ _)) in Htt.
        apply in_map_iff in Htt as (r & <- & Hr).
        apply in_map_iff in Hs as (col & <- & Hcol).
        exists (row_test_type r), col. split; [eauto|]. auto.
      * intros (tt & col & (r & Hr & <-) & Hcol & ->).
        exists (row_test_type r). split.
        -- apply (unique_In _ String.eqb_eq). now apply in_map.
        -- apply in_map_iff. exists col. auto.
    + assert (Hnd : NoDup (unique String.eqb (map row_test_type M)))
        by apply unique_NoDup, String.eqb_eq.
      induction Hnd as [|tt tts Htt _ IH]; [constructor|].
      cbn [flat_map]. rewrite map_app. apply NoDup_app.
      * rewrite map_map. cbn [stat_test_type stat_metric].
        apply NoDup_map_injective; [now intros a b [= ->]|].
        unfold numeric_metrics. repeat constructor; simpl; intuition congruence.
      * exact IH.
      * intros k H1 H2.
        apply in_map_iff in H1 as (s1 & <- & H1).
        apply in_map_iff in H1 as (col & <- & _).
        apply in_map_iff in H2 as (s2 & Hk & H2).
        apply in_flat_map in H2 as (tt' & Htt' & H2).
        apply in_map_iff in H2 as (col' & <- & _).
        cbn [stat_test_type stat_metric] in Hk.
        injection Hk as -> _. contradiction.
Qed.

End SummariesFacts.

(** The per-field table of [fields_table]: field [q1] of test [free] has
    a summary row for [backspace_rate]. *)
Lemma field_stats_rows_present_metrics_witness :
  exists s,
    In s (field_stats_rows
            (fun (_ : Q) (vals : list (option Cell)) => vals)
            (fun vals : list (option Cell) => vals)
            (compute_keystroke_metrics_by_field stable_sort_values
                                                fields_table))
    /\ stat_test_type s = "free"
    /\ stat_field_name s = Some "q1" /\ stat_metric s = "backspace_rate".
Proof.
  refine (proj2 (proj2 (proj2
            (field_stats_rows_present_metrics
               (fun (_ : Q) (vals : list (option Cell)) => vals)
               (fun vals : list (option Cell) => vals)
               (compute_keystroke_metrics_by_field stable_sort_values
                                                   fields_table))))
            (field_row "s1" "free" "q1"
                       [ev (Some "q1") "keydown" "a" 500;
                        ev (Some "q1") "keyup" "a" 580] [80] [] 500)
            "q1" "backspace_rate" _ _ _).
  - vm_compute. left. reflexivity.
  - reflexivity.
  - simpl. auto.
Defined.

(** The overall summary of a metrics table without a row. *)
Lemma overall_stats_rows_witness :
  overall_stats (fun (_ : Q) (vals : list (option Cell)) => vals)
                (fun vals : list (option Cell) => vals) []
  = inl (KeyError "test_type").
Proof.
  apply (proj2 (proj1 (overall_stats_rows
                         (fun (_ : Q) (vals : list (option Cell)) => vals)
                         (fun vals : list (option Cell) => vals) []))).
  reflexivity.
Defined.
